(** * cc-sync: synchronisation protocol, conflict resolver, inventory scan
      and change scheduler, embedded from the TypeScript sources.

    Conventions of the embedding.
    - A JavaScript string is a [string] holding its UTF-8 bytes, so that
      [new Blob([s]).size] is [String.length s]; [===] on strings is
      [String.eqb].
    - A JavaScript number that carries a count, a size or a millisecond
      timestamp is an integer of [Z].
    - A Convex table is the list of its documents in creation order; a
      document id is a natural number drawn from a counter of the database.
    - [Date.now()] is an argument [now] of every handler (Convex freezes the
      clock for the duration of one function call).
    - A handler that throws rolls its transaction back: it returns [Threw e]
      and no new database. *)

From Stdlib Require Import ZArith List String Ascii Bool Lia Permutation.
From Stdlib Require Import Sorted DecimalString.
Import ListNotations.
Set Warnings "-register-all".
Local Open Scope string_scope.
Local Open Scope Z_scope.

(* ================================================================= *)
(** ** JavaScript string primitives used by the sources *)

Definition startsWith (s p : string) : bool := String.prefix p s.

Definition endsWith (s suffix : string) : bool :=
  let n := String.length s in
  let m := String.length suffix in
  (m <=? n)%nat && String.eqb (String.substring (n - m) m s) suffix.

(** [s.split(sep)] for a one-character separator: never the empty list. *)
Fixpoint split_acc (sep : ascii) (s : string) (cur : string) : list string :=
  match s with
  | EmptyString => [cur]
  | String c rest =>
      if Ascii.eqb c sep then cur :: split_acc sep rest EmptyString
      else split_acc sep rest (cur ++ String c EmptyString)
  end.

Definition split (sep : ascii) (s : string) : list string :=
  split_acc sep s EmptyString.

(** [xs.join(sep)]. *)
Fixpoint join (sep : string) (xs : list string) : string :=
  match xs with
  | [] => EmptyString
  | [x] => x
  | x :: rest => x ++ sep ++ join sep rest
  end.

(** [new Blob([s]).size]: the UTF-8 byte length. *)
Definition byteLength (s : string) : Z := Z.of_nat (String.length s).

(** [a || b] on strings: the empty string is falsy. *)
Definition orElse (a b : string) : string :=
  match a with EmptyString => b | _ => a end.

Definition slash : ascii := "/"%char.
Definition dash : ascii := "-"%char.
Definition newline : ascii := "010"%char.
Definition dquote : ascii := "034"%char.
Definition nl : string := String newline EmptyString.

(* ================================================================= *)
(** ** Data model (schema of the Convex deployment) *)

Inductive FileType := todo | session_env.

Inductive TableName := configFiles | sessionFiles.

Inductive Resolution := keep_local | keep_remote | keep_both | manual.

Record User := mkUser {
  u_id : nat;
  storageUsed : Z;
  storageLimit : Z;
  lastSyncAt : Z
}.

Record ApiKeyRecord := mkApiKey {
  k_keyHash : string;
  k_userId : nat;
  k_revokedAt : option Z
}.

(** A document of [configFiles] or [sessionFiles]; the two session columns
    are present on [sessionFiles] documents only. *)
Record SyncedFile := mkSyncedFile {
  f_id : nat;
  f_userId : nat;
  f_deviceId : string;
  f_filePath : string;
  f_content : string;
  f_contentHash : string;
  f_lastModified : Z;
  f_version : Z;
  f_syncedAt : Z;
  f_session : option (string * FileType)
}.

Record Conflict := mkConflict {
  c_id : nat;
  c_userId : nat;
  c_filePath : string;
  c_deviceAId : string;
  c_deviceBId : string;
  c_contentA : string;
  c_contentB : string;
  c_createdAt : Z;
  c_resolvedAt : option Z;
  c_resolution : option Resolution
}.

Record DB := mkDB {
  users : list User;
  apiKeys : list ApiKeyRecord;
  configTable : list SyncedFile;
  sessionTable : list SyncedFile;
  syncConflicts : list Conflict;
  nextId : nat
}.

Inductive Failure :=
| InvalidApiKey
| RateLimitExceeded (seconds : Z)
| ConflictNotFound
| ManualContentRequired
| FsError.

Inductive Outcome (A : Type) :=
| Returned (a : A)
| Threw (e : Failure).
Arguments Returned {A} a.
Arguments Threw {A} e.

(* ================================================================= *)
(** ** Database primitives *)

Definition tableOf (db : DB) (t : TableName) : list SyncedFile :=
  match t with
  | configFiles => configTable db
  | sessionFiles => sessionTable db
  end.

Definition setTable (db : DB) (t : TableName) (rows : list SyncedFile) : DB :=
  match t with
  | configFiles =>
      mkDB (users db) (apiKeys db) rows (sessionTable db)
           (syncConflicts db) (nextId db)
  | sessionFiles =>
      mkDB (users db) (apiKeys db) (configTable db) rows
           (syncConflicts db) (nextId db)
  end.

(** [.withIndex("by_user_and_path", q => q.eq(userId).eq(filePath)).first()]:
    the oldest matching document. *)
Definition byUserAndPath (rows : list SyncedFile) (uid : nat) (path : string)
  : option SyncedFile :=
  find (fun r => Nat.eqb (f_userId r) uid && String.eqb (f_filePath r) path) rows.

(** [.withIndex("by_user", q => q.eq(userId)).collect()]. *)
Definition byUser (rows : list SyncedFile) (uid : nat) : list SyncedFile :=
  filter (fun r => Nat.eqb (f_userId r) uid) rows.

Definition getUser (db : DB) (uid : nat) : option User :=
  find (fun u => Nat.eqb (u_id u) uid) (users db).

Definition patchRows {A : Type} (idOf : A -> nat) (id : nat) (f : A -> A)
  (rows : list A) : list A :=
  map (fun r => if Nat.eqb (idOf r) id then f r else r) rows.

Definition patchUser (db : DB) (uid : nat) (f : User -> User) : DB :=
  mkDB (patchRows u_id uid f (users db)) (apiKeys db) (configTable db)
       (sessionTable db) (syncConflicts db) (nextId db).

Definition patchFile (db : DB) (t : TableName) (id : nat)
  (f : SyncedFile -> SyncedFile) : DB :=
  setTable db t (patchRows f_id id f (tableOf db t)).

Definition patchConflict (db : DB) (id : nat) (f : Conflict -> Conflict) : DB :=
  mkDB (users db) (apiKeys db) (configTable db) (sessionTable db)
       (patchRows c_id id f (syncConflicts db)) (nextId db).

(** [ctx.db.insert(table, doc)]: the document is appended with a fresh id,
    which is returned. *)
Definition insertFile (db : DB) (t : TableName) (mk : nat -> SyncedFile)
  : DB :=
  let id := nextId db in
  let db' := setTable db t (tableOf db t ++ [mk id]) in
  mkDB (users db') (apiKeys db') (configTable db') (sessionTable db')
       (syncConflicts db') (S id).

Definition insertConflict (db : DB) (mk : nat -> Conflict) : DB * nat :=
  let id := nextId db in
  (mkDB (users db) (apiKeys db) (configTable db) (sessionTable db)
        (syncConflicts db ++ [mk id]) (S id), id).

Definition setStorageUsed (v : Z) (u : User) : User :=
  mkUser (u_id u) v (storageLimit u) (lastSyncAt u).

Definition setLastSyncAt (v : Z) (u : User) : User :=
  mkUser (u_id u) (storageUsed u) (storageLimit u) v.

(* ================================================================= *)
(** ** Platform services the handlers call *)

(** Verdict of [rateLimiter.limit(ctx, "syncOperation", {key})]. *)
Record LimitVerdict := mkVerdict { ok : bool; retryAfter : Z }.

(** [Math.ceil(x / 1000)] on an integer [x]. *)
Definition ceilDiv1000 (x : Z) : Z := - ((- x) / 1000).

(** [Array.prototype.sort(cmp)] on a comparator that is a total preorder
    (here: the difference of one integer key per element).  The sort is
    stable and on such a comparator every stable sort returns the list that
    a stable insertion sort returns.  A comparator result that is NaN counts
    as 0, as in SortCompare.  The comparator of [mergeJSONL] is not of this
    kind; its sort is [arraySort] below. *)
Fixpoint insertSorted {A : Type} (cmp : A -> A -> Z) (x : A) (l : list A)
  : list A :=
  match l with
  | [] => [x]
  | y :: rest =>
      if cmp x y <=? 0 then x :: l else y :: insertSorted cmp x rest
  end.

Definition jsSort {A : Type} (cmp : A -> A -> Z) (l : list A) : list A :=
  fold_right (insertSorted cmp) [] l.

(** [xs.slice(0, n)]. *)
Definition slice0 {A : Type} (n : nat) (xs : list A) : list A := firstn n xs.

(** Values produced by [JSON.parse]; numbers are integers. *)
Inductive JsValue :=
| JNull
| JBool (b : bool)
| JNumber (z : Z)
| JString (s : string)
| JArray (items : list JsValue)
| JObject (props : list (string * JsValue)).

(** A JavaScript number that may be NaN. *)
Inductive JsNumber := Num (z : Z) | NaN.

(** What the runtime supplies: SHA-256 (hex) as used for API keys and for
    content, the JSON reader ([None] when [JSON.parse] throws), the writers
    [JSON.stringify(v)] and [JSON.stringify(v, null, 2)], and the operators
    [>] and [-] on operands that are not both numbers, where ECMAScript
    coerces them (they are taken to return: an object whose own [valueOf]
    and [toString] members are both not callable makes them throw and is
    not covered).  An object is the list of its members in creation order,
    one entry per key.  [arraySort] is [Array.prototype.sort(cmp)] on an
    array of such values under any comparator: where the comparator is not
    a consistent order the result is the engine's own, and all that is known
    of it is that it holds the elements of the array. *)
Class Platform := {
  hashApiKey : string -> string;
  computeHash : string -> string;
  JSON_parse : string -> option JsValue;
  JSON_stringify : JsValue -> string;
  JSON_stringify_indent2 : JsValue -> string;
  looseGreater : JsValue -> JsValue -> bool;
  looseMinus : JsValue -> JsValue -> JsNumber;
  arraySort : (JsValue -> JsValue -> Z) -> list JsValue -> list JsValue;
  arraySort_rearranges :
    forall cmp work, Permutation work (arraySort cmp work)
}.

(* ================================================================= *)
(** ** convex/_helpers.ts and convex/sync.ts *)

Section Backend.
Context {P : Platform}.

Definition revoked (k : ApiKeyRecord) : bool :=
  match k_revokedAt k with
  | Some t => negb (t =? 0)
  | None => false
  end.

Definition validateApiKeyInternal (db : DB) (apiKey : string) : option User :=
  let keyHash := hashApiKey apiKey in
  match find (fun k => String.eqb (k_keyHash k) keyHash) (apiKeys db) with
  | None => None
  | Some apiKeyRecord =>
      if revoked apiKeyRecord then None
      else getUser db (k_userId apiKeyRecord)
  end.

Record Category := mkCategory {
  table : TableName;
  cat_sessionId : option string;
  cat_fileType : option FileType
}.

Definition isConfigPath (filePath : string) : bool :=
  endsWith filePath ".md"
  || String.eqb filePath "settings.json"
  || String.eqb filePath "history.jsonl"
  || startsWith filePath "commands/"
  || startsWith filePath "plugins/"
  || startsWith filePath "agents/".

(** [filePath.split("/")[1]?.split("-")[0] || "unknown"]. *)
Definition todoSessionId (filePath : string) : string :=
  match nth_error (split slash filePath) 1 with
  | Some seg => orElse (hd EmptyString (split dash seg)) "unknown"
  | None => "unknown"
  end.

(** [filePath.split("/")[1] || "unknown"]. *)
Definition envSessionId (filePath : string) : string :=
  match nth_error (split slash filePath) 1 with
  | Some seg => orElse seg "unknown"
  | None => "unknown"
  end.

Definition categorizeFile (filePath : string) : Category :=
  if isConfigPath filePath then mkCategory configFiles None None
  else if startsWith filePath "todos/" then
    mkCategory sessionFiles (Some (todoSessionId filePath)) (Some todo)
  else if startsWith filePath "session-env/" then
    mkCategory sessionFiles (Some (envSessionId filePath)) (Some session_env)
  else mkCategory configFiles None None.

Record PushFile := mkPushFile {
  p_filePath : string;
  p_content : string;
  p_contentHash : string;
  p_lastModified : Z
}.

Inductive Status := success | conflict | error.

Record PushResult := mkPushResult {
  r_filePath : string;
  r_status : Status;
  r_conflictId : option nat;
  r_message : option string
}.

(** The document written by the insert branch of [pushSync]. *)
Definition newDocument (user : User) (deviceId : string) (now : Z)
  (category : Category) (file : PushFile) (id : nat) : SyncedFile :=
  mkSyncedFile id (u_id user) deviceId (p_filePath file) (p_content file)
    (p_contentHash file) (p_lastModified file) 1 now
    match table category with
    | configFiles => None
    | sessionFiles =>
        Some (match cat_sessionId category with
              | Some s => orElse s "unknown"
              | None => "unknown"
              end,
              match cat_fileType category with
              | Some t => t
              | None => todo
              end)
    end.

(** The fields replaced by the update branch of [pushSync]. *)
Definition overwrite (deviceId : string) (now : Z) (file : PushFile)
  (existing : SyncedFile) (row : SyncedFile) : SyncedFile :=
  mkSyncedFile (f_id row) (f_userId row) deviceId (f_filePath row)
    (p_content file) (p_contentHash file) (p_lastModified file)
    (f_version existing + 1) now (f_session row).

(** One turn of the loop [for (const file of args.files)].  [user] is the
    document read once by [validateApiKeyInternal] before the loop: the
    loop reads [user.storageUsed] and [user.storageLimit] from that object
    and never reads the user again. *)
Definition pushFile (user : User) (deviceId : string) (now : Z)
  (db : DB) (file : PushFile) : DB * PushResult :=
  let category := categorizeFile (p_filePath file) in
  let tableName := table category in
  let fileSize := byteLength (p_content file) in
  if storageLimit user <? storageUsed user + fileSize then
    (db, mkPushResult (p_filePath file) error None
           (Some "Storage quota exceeded"))
  else
    match byUserAndPath (tableOf db tableName) (u_id user) (p_filePath file) with
    | Some existing =>
        if String.eqb (f_contentHash existing) (p_contentHash file) then
          (db, mkPushResult (p_filePath file) success None None)
        else
          let hasConflict :=
            negb (String.eqb (f_contentHash existing) (p_contentHash file))
            && negb (String.eqb (f_deviceId existing) deviceId) in
          if hasConflict then
            let '(db', conflictId) :=
              insertConflict db (fun id =>
                mkConflict id (u_id user) (p_filePath file)
                  (f_deviceId existing) deviceId
                  (f_content existing) (p_content file) now None None) in
            (db', mkPushResult (p_filePath file) conflict (Some conflictId) None)
          else
            (patchFile db tableName (f_id existing)
               (overwrite deviceId now file existing),
             mkPushResult (p_filePath file) success None None)
    | None =>
        let db1 := insertFile db tableName
                     (newDocument user deviceId now category file) in
        let db2 := patchUser db1 (u_id user)
                     (setStorageUsed (storageUsed user + fileSize)) in
        (db2, mkPushResult (p_filePath file) success None None)
    end.

Fixpoint pushLoop (user : User) (deviceId : string) (now : Z)
  (db : DB) (files : list PushFile) : DB * list PushResult :=
  match files with
  | [] => (db, [])
  | file :: rest =>
      let '(db1, r) := pushFile user deviceId now db file in
      let '(db2, rs) := pushLoop user deviceId now db1 rest in
      (db2, r :: rs)
  end.

Definition pushSync (db : DB) (now : Z) (limiter : nat -> LimitVerdict)
  (apiKey deviceId : string) (files : list PushFile)
  : Outcome (DB * list PushResult) :=
  match validateApiKeyInternal db apiKey with
  | None => Threw InvalidApiKey
  | Some user =>
      let verdict := limiter (u_id user) in
      if negb (ok verdict) then
        Threw (RateLimitExceeded (ceilDiv1000 (retryAfter verdict)))
      else
        let '(db1, results) := pushLoop user deviceId now db files in
        Returned (patchUser db1 (u_id user) (setLastSyncAt now), results)
  end.

(** The record that [pullSync] returns for one document. *)
Record PulledFile := mkPulled {
  pl_id : nat;
  pl_filePath : string;
  pl_content : string;
  pl_contentHash : string;
  pl_lastModified : Z;
  pl_version : Z;
  pl_syncedAt : Z;
  pl_deviceId : string
}.

Definition pulled (file : SyncedFile) : PulledFile :=
  mkPulled (f_id file) (f_filePath file) (f_content file)
    (f_contentHash file) (f_lastModified file) (f_version file)
    (f_syncedAt file) (f_deviceId file).

(** The predicate of [allFiles.filter(...)] in [pullSync]. *)
Definition pullFilter (deviceId : string) (lastSyncTime : option Z)
  (file : SyncedFile) : bool :=
  if String.eqb (f_deviceId file) deviceId then false
  else match lastSyncTime with
       | Some t => t <? f_syncedAt file
       | None => true
       end.

Definition allFilesOf (db : DB) (uid : nat) : list SyncedFile :=
  byUser (configTable db) uid ++ byUser (sessionTable db) uid.

Definition pullSync (db : DB) (apiKey deviceId : string)
  (lastSyncTime : option Z) : Outcome (list PulledFile) :=
  match validateApiKeyInternal db apiKey with
  | None => Threw InvalidApiKey
  | Some user =>
      let allFiles := allFilesOf db (u_id user) in
      let filteredFiles := filter (pullFilter deviceId lastSyncTime) allFiles in
      Returned (map pulled filteredFiles)
  end.

Record ChangedFile := mkChanged {
  ch_id : nat;
  ch_filePath : string;
  ch_contentHash : string;
  ch_lastModified : Z;
  ch_version : Z;
  ch_deviceId : string
}.

Record ConflictNotice := mkNotice {
  n_id : nat;
  n_filePath : string;
  n_deviceAId : string;
  n_deviceBId : string;
  n_createdAt : Z
}.

Definition unresolvedOf (db : DB) (uid : nat) : list Conflict :=
  filter (fun c => Nat.eqb (c_userId c) uid
                   && match c_resolvedAt c with None => true | Some _ => false end)
         (syncConflicts db).

Definition subscribeToChanges (db : DB) (apiKey deviceId : string)
  : Outcome (list ChangedFile * list ConflictNotice) :=
  match validateApiKeyInternal db apiKey with
  | None => Returned ([], [])
  | Some user =>
      let allFiles := allFilesOf db (u_id user) in
      let recentFiles :=
        slice0 20
          (jsSort (fun a b => f_syncedAt b - f_syncedAt a)
             (filter (fun f => negb (String.eqb (f_deviceId f) deviceId))
                     allFiles)) in
      let conflicts := unresolvedOf db (u_id user) in
      Returned
        (map (fun file => mkChanged (f_id file) (f_filePath file)
                (f_contentHash file) (f_lastModified file) (f_version file)
                (f_deviceId file)) recentFiles,
         map (fun c => mkNotice (c_id c) (c_filePath c) (c_deviceAId c)
                (c_deviceBId c) (c_createdAt c)) conflicts)
  end.

End Backend.

(* ================================================================= *)
(** ** JavaScript values as the resolver uses them *)

(** ToBoolean. *)
Definition truthy (v : JsValue) : bool :=
  match v with
  | JNull => false
  | JBool b => b
  | JNumber z => negb (z =? 0)
  | JString s => negb (String.eqb s EmptyString)
  | JArray _ | JObject _ => true
  end.

Fixpoint assoc {V : Type} (k : string) (props : list (string * V)) : option V :=
  match props with
  | [] => None
  | (k', v) :: rest => if String.eqb k' k then Some v else assoc k rest
  end.

(** [v.k] for a member name that no prototype defines ([id], [uuid],
    [timestamp]); [None] is [undefined].  Reading a member of [null]
    throws and is handled where it can occur. *)
Definition getProp (v : JsValue) (k : string) : option JsValue :=
  match v with
  | JObject props => assoc k props
  | _ => None
  end.

(** [a || b] where [a] may be [undefined]. *)
Definition orValue (a : option JsValue) (b : JsValue) : JsValue :=
  match a with
  | Some v => if truthy v then v else b
  | None => b
  end.

(** SameValueZero, the key equality of [Map]: primitives by value, arrays
    and objects by reference.  Every parse creates fresh objects, so the
    object keys met here are never the same reference. *)
Definition sameValueZero (a b : JsValue) : bool :=
  match a, b with
  | JNull, JNull => true
  | JBool x, JBool y => Bool.eqb x y
  | JNumber x, JNumber y => x =? y
  | JString x, JString y => String.eqb x y
  | _, _ => false
  end.

(** A [Map]: entries in insertion order; [set] on a present key keeps the
    key's position. *)
Definition JsMap := list (JsValue * JsValue).

Fixpoint mapGet (m : JsMap) (k : JsValue) : option JsValue :=
  match m with
  | [] => None
  | (k', v) :: rest => if sameValueZero k' k then Some v else mapGet rest k
  end.

Fixpoint mapSet (m : JsMap) (k v : JsValue) : JsMap :=
  match m with
  | [] => [(k, v)]
  | (k', v') :: rest =>
      if sameValueZero k' k then (k', v) :: rest
      else (k', v') :: mapSet rest k v
  end.

Definition mapValues (m : JsMap) : list JsValue := map snd m.

(** [typeof v === "object"]. *)
Definition typeofObject (v : JsValue) : bool :=
  match v with
  | JNull | JArray _ | JObject _ => true
  | _ => false
  end.

Definition nanToZero (n : JsNumber) : Z :=
  match n with Num z => z | NaN => 0 end.

Definition indexKey (i : nat) : string :=
  NilEmpty.string_of_uint (Nat.to_uint i).

Fixpoint indexed {V : Type} (i : nat) (items : list V) : list (string * V) :=
  match items with
  | [] => []
  | x :: rest => (indexKey i, x) :: indexed (S i) rest
  end.

Fixpoint unitsOf (s : string) : list JsValue :=
  match s with
  | EmptyString => []
  | String c rest => JString (String c EmptyString) :: unitsOf rest
  end.

(** The own enumerable properties that object spread copies: the members
    of an object, the indexed elements of an array, the indexed units of a
    string (one per character of an ASCII string), nothing for the other
    primitives. *)
Definition ownEntries (v : JsValue) : list (string * JsValue) :=
  match v with
  | JObject props => props
  | JArray items => indexed 0 items
  | JString s => indexed 0 (unitsOf s)
  | JNull | JBool _ | JNumber _ => []
  end.

(** CreateDataProperty on an object held in creation order. *)
Fixpoint defineProp (props : list (string * JsValue)) (k : string) (v : JsValue)
  : list (string * JsValue) :=
  match props with
  | [] => [(k, v)]
  | (k', v') :: rest =>
      if String.eqb k' k then (k', v) :: rest
      else (k', v') :: defineProp rest k v
  end.

Definition copyDataProperties (target : list (string * JsValue)) (source : JsValue)
  : list (string * JsValue) :=
  fold_left (fun acc kv => defineProp acc (fst kv) (snd kv))
            (ownEntries source) target.

(** [{ ...a, ...b }]. *)
Definition spread2 (a b : JsValue) : JsValue :=
  JObject (copyDataProperties (copyDataProperties [] a) b).

(* ================================================================= *)
(** ** The conflict resolution functions (src/unnamed/part_006) *)

Section Resolver.
Context {P : Platform}.

(** [a > b]. *)
Definition jsGreater (a b : JsValue) : bool :=
  match a, b with
  | JNumber x, JNumber y => y <? x
  | _, _ => looseGreater a b
  end.

(** [a - b]. *)
Definition jsMinus (a b : JsValue) : JsNumber :=
  match a, b with
  | JNumber x, JNumber y => Num (x - y)
  | _, _ => looseMinus a b
  end.

Definition versionMarkers (contentA contentB : string) : string :=
  "<<<<<<< VERSION A" ++ nl ++ contentA ++ nl ++ "=======" ++ nl
  ++ contentB ++ nl ++ ">>>>>>> VERSION B".

Definition mergeJSON (contentA contentB : string) : string :=
  match JSON_parse contentA with
  | None => versionMarkers contentA contentB
  | Some objA =>
      match JSON_parse contentB with
      | None => versionMarkers contentA contentB
      | Some objB =>
          let merged := spread2 objA objB in
          JSON_stringify_indent2 merged
      end
  end.

(** [content.split("\n").filter(Boolean)]. *)
Definition nonEmptyLines (content : string) : list string :=
  filter (fun l => negb (String.eqb l EmptyString)) (split newline content).

(** [obj.id || obj.uuid || obj.timestamp || line]. *)
Definition identityOf (obj : JsValue) (line : string) : JsValue :=
  orValue (getProp obj "id")
    (orValue (getProp obj "uuid")
       (orValue (getProp obj "timestamp") (JString line))).

(** The body of [for (const line of [...linesA, ...linesB])].  A line that
    does not parse, and the line [null] (whose member read throws), take the
    [catch] branch. *)
Definition addLine (allLines : JsMap) (line : string) : JsMap :=
  match JSON_parse line with
  | None => mapSet allLines (JString line) (JString line)
  | Some JNull => mapSet allLines (JString line) (JString line)
  | Some obj =>
      let id := identityOf obj line in
      match mapGet allLines id with
      | None => mapSet allLines id obj
      | Some existing =>
          match getProp obj "timestamp" with
          | Some ts =>
              if truthy ts
                 && jsGreater ts
                      (orValue (getProp existing "timestamp") (JNumber 0))
              then mapSet allLines id obj
              else allLines
          | None => allLines
          end
      end
  end.

(** The comparator handed to [sort].  The map never holds [null], so the
    member reads cannot throw. *)
Definition byTimestamp (a b : JsValue) : Z :=
  if typeofObject a && typeofObject b then
    nanToZero (jsMinus (orValue (getProp a "timestamp") (JNumber 0))
                       (orValue (getProp b "timestamp") (JNumber 0)))
  else 0.

Definition renderItem (item : JsValue) : string :=
  match item with
  | JString s => s
  | _ => JSON_stringify item
  end.

Definition mergeJSONL (contentA contentB : string) : string :=
  let linesA := nonEmptyLines contentA in
  let linesB := nonEmptyLines contentB in
  let allLines := fold_left addLine (linesA ++ linesB) [] in
  let sorted := arraySort byTimestamp (mapValues allLines) in
  join nl (map renderItem sorted).

Definition deviceMarkers (c : Conflict) : string :=
  "<<<<<<< DEVICE " ++ c_deviceAId c ++ nl ++ c_contentA c ++ nl
  ++ "=======" ++ nl ++ c_contentB c ++ nl
  ++ ">>>>>>> DEVICE " ++ c_deviceBId c.

(** The [switch (args.resolution)]; [None] is the [throw] of the manual
    case. *)
Definition finalContentOf (c : Conflict) (resolution : Resolution)
  (manualContent : option string) (deviceId : string) : option string :=
  match resolution with
  | keep_local =>
      Some (if String.eqb (c_deviceAId c) deviceId
            then c_contentA c else c_contentB c)
  | keep_remote =>
      Some (if String.eqb (c_deviceAId c) deviceId
            then c_contentB c else c_contentA c)
  | keep_both =>
      Some (if endsWith (c_filePath c) ".json" then
              mergeJSON (c_contentA c) (c_contentB c)
            else if endsWith (c_filePath c) ".jsonl" then
              mergeJSONL (c_contentA c) (c_contentB c)
            else deviceMarkers c)
  | manual =>
      match manualContent with
      | None => None
      | Some EmptyString => None
      | Some m => Some m
      end
  end.

Definition markResolved (now : Z) (resolution : Resolution) (c : Conflict)
  : Conflict :=
  mkConflict (c_id c) (c_userId c) (c_filePath c) (c_deviceAId c)
    (c_deviceBId c) (c_contentA c) (c_contentB c) (c_createdAt c)
    (Some now) (Some resolution).

Definition resolveConflict (db : DB) (now : Z) (apiKey : string)
  (conflictId : nat) (resolution : Resolution)
  (manualContent : option string) (deviceId : string)
  : Outcome (DB * string) :=
  match validateApiKeyInternal db apiKey with
  | None => Threw InvalidApiKey
  | Some user =>
      match find (fun c => Nat.eqb (c_id c) conflictId) (syncConflicts db) with
      | None => Threw ConflictNotFound
      | Some c =>
          if negb (Nat.eqb (c_userId c) (u_id user)) then Threw ConflictNotFound
          else
            match finalContentOf c resolution manualContent deviceId with
            | None => Threw ManualContentRequired
            | Some finalContent =>
                let isConfigFile := isConfigPath (c_filePath c) in
                let tableName :=
                  if isConfigFile then configFiles else sessionFiles in
                let hash := computeHash finalContent in
                let db1 :=
                  match byUserAndPath (tableOf db tableName) (u_id user)
                          (c_filePath c) with
                  | Some existingFile =>
                      patchFile db tableName (f_id existingFile)
                        (fun row =>
                           mkSyncedFile (f_id row) (f_userId row) deviceId
                             (f_filePath row) finalContent hash now
                             (f_version existingFile + 1) now (f_session row))
                  | None =>
                      insertFile db tableName (fun id =>
                        mkSyncedFile id (u_id user) deviceId (c_filePath c)
                          finalContent hash now 1 now
                          (if isConfigFile then None
                           else Some (todoSessionId (c_filePath c),
                                      if startsWith (c_filePath c) "todos/"
                                      then todo else session_env)))
                  end in
                Returned (patchConflict db1 conflictId (markResolved now resolution),
                          finalContent)
            end
      end
  end.

End Resolver.

(* ================================================================= *)
(** ** apps/cli/src/sync-utils.ts *)

(** The sync root as the scan sees it: [readdirSync] lists a directory in
    the order of [entries]; a file that cannot be read has no content. *)
Inductive Node :=
| File (content : option string) (mtime : Z)
| Dir (mtime : Z) (entries : list (string * Node)).

Definition mtimeMs (n : Node) : Z :=
  match n with File _ m => m | Dir m _ => m end.

Definition isDirectory (n : Node) : bool :=
  match n with Dir _ _ => true | File _ _ => false end.

Definition EXCLUDED_DIRS : list string :=
  ["debug"; "file-history"; "shell-snapshots"; "local"; "statsig"].

Definition LIMITED_DIRS : list string := ["todos"; "session-env"].

Definition MAX_RECENT_FILES : nat := 10.
Definition MAX_RECENT_SESSIONS : nat := 10.

Definition has (set : list string) (x : string) : bool :=
  existsb (String.eqb x) set.

(** [path.join(a, b)] on a relative path and an entry name. *)
Definition pathJoin (a b : string) : string :=
  match a with EmptyString => b | _ => a ++ "/" ++ b end.

Record Session := mkSession {
  fullPath : Node;
  relPath : string;
  s_mtime : Z
}.

Definition isSessionFile (file : string) : bool :=
  endsWith file ".jsonl" && negb (startsWith file "agent-").

(** The sessions that one project directory adds to [allSessions]. *)
Definition sessionsOfProject (projectDir : string) (project : Node)
  : list Session :=
  match project with
  | File _ _ => []
  | Dir _ files =>
      map (fun e => mkSession (snd e)
                      (pathJoin (pathJoin "projects" projectDir) (fst e))
                      (mtimeMs (snd e)))
          (filter (fun e => isSessionFile (fst e)) files)
  end.

Definition allSessionsOf (projectDirs : list (string * Node)) : list Session :=
  flat_map (fun e => sessionsOfProject (fst e) (snd e)) projectDirs.

Definition getRecentSessions (projectDirs : list (string * Node)) (limit : nat)
  : list Session :=
  slice0 limit
    (jsSort (fun a b => s_mtime b - s_mtime a) (allSessionsOf projectDirs)).

Definition shouldSyncFile (fileName : string) (dirName : option string) : bool :=
  match dirName with
  | None | Some EmptyString =>
      endsWith fileName ".md" || endsWith fileName ".json"
      || endsWith fileName ".jsonl"
  | Some d =>
      if String.eqb d "commands" && endsWith fileName ".md" then true
      else endsWith fileName ".json"
  end.

Definition getRecentFiles (entries : list (string * Node)) (limit : nat)
  : list string :=
  map fst
    (slice0 limit
       (jsSort (fun a b => snd b - snd a)
          (map (fun e => (fst e, mtimeMs (snd e))) entries))).

Section Inventory.
Context {P : Platform}.

Definition scanned (filePath content : string) (mtime : Z) : PushFile :=
  mkPushFile filePath content (computeHash content) mtime.

(** The loop over [recentSessions] in the projects branch: a session that
    cannot be read is skipped. *)
Definition pushSessions (results : list PushFile) (sessions : list Session)
  : list PushFile :=
  fold_left
    (fun results session =>
       match fullPath session with
       | File (Some content) _ =>
           (results ++ [scanned (relPath session) content (s_mtime session)])%list
       | _ => results
       end)
    sessions results.

Definition Visit : Type :=
  string -> option string -> list PushFile -> Outcome (list PushFile).

(** The loop [for (const file of filesToProcess)]: each name is looked up
    again in the directory ([statSync]); [recurse] is [traverseDir] on
    that child. *)
Definition processFiles (children : list (string * (Node * Visit)))
  (relativePath : string) (currentDirName : option string)
  (filesToProcess : list string) (results : list PushFile)
  : Outcome (list PushFile) :=
  fold_left
    (fun acc file =>
       match acc with
       | Threw e => Threw e
       | Returned results =>
           let relPath := pathJoin relativePath file in
           match assoc file children with
           | None => Threw FsError
           | Some (Dir _ _, recurse) => recurse relPath (Some file) results
           | Some (File content mtime, _) =>
               if shouldSyncFile file currentDirName then
                 match content with
                 | Some c => Returned (results ++ [scanned relPath c mtime])%list
                 | None => Threw FsError
                 end
               else Returned results
           end
       end)
    filesToProcess (Returned results).

Fixpoint traverseDir (current : Node) (relativePath : string)
  (currentDirName : option string) (results : list PushFile)
  : Outcome (list PushFile) :=
  match current with
  | File _ _ => Threw FsError
  | Dir _ entries =>
      match currentDirName with
      | Some d =>
          if negb (String.eqb d EmptyString) && has EXCLUDED_DIRS d
          then Returned results
          else if String.eqb d "projects" then
            Returned (pushSessions results
                        (getRecentSessions entries MAX_RECENT_SESSIONS))
          else
            let children :=
              map (fun e => (fst e, (snd e, traverseDir (snd e)))) entries in
            let files := map fst entries in
            let filesToProcess :=
              if negb (String.eqb d EmptyString) && has LIMITED_DIRS d
              then getRecentFiles entries MAX_RECENT_FILES
              else files in
            processFiles children relativePath currentDirName
              filesToProcess results
      | None =>
          let children :=
            map (fun e => (fst e, (snd e, traverseDir (snd e)))) entries in
          processFiles children relativePath currentDirName
            (map fst entries) results
      end
  end.

(** [readLocalFiles]: a missing sync root is created and scanned as
    empty. *)
Definition readLocalFiles (root : option Node) : Outcome (list PushFile) :=
  match root with
  | None => Returned []
  | Some r => traverseDir r EmptyString None []
  end.

End Inventory.

(* ================================================================= *)
(** ** apps/cli/src/sync-engine.ts: the change scheduler *)

Module Scheduler.

Definition DEBOUNCE_MS : Z := 5000.
Definition MIN_INTERVAL_MS : Z := 30000.

(** The fields of [SyncEngine] that [queueChange], [trySync], [forceSync]
    and [performSync] touch, and the armed timeouts; the realtime
    subscription and [pullRemoteChanges] are not part of this state
    machine.  [debounceTimer] is the deadline of the armed debounce
    timeout, [retryTimers] the deadlines of the timeouts armed by [trySync].
    [inFlight] and [started] are bookkeeping of the embedding: the number of
    [performSync] calls that have begun and not settled, and the number
    begun so far. *)
Record SyncEngine := mkEngine {
  lastSyncTime : Z;
  pendingChanges : list string;
  debounceTimer : option Z;
  retryTimers : list Z;
  isSyncing : bool;
  inFlight : nat;
  started : nat
}.

Definition initial : SyncEngine := mkEngine 0 [] None [] false 0 0.

(** [Set.add]. *)
Definition setAdd (x : string) (s : list string) : list string :=
  if existsb (String.eqb x) s then s else (s ++ [x])%list.

(** [queueChange]: the armed debounce timeout is cleared and a new one is
    armed. *)
Definition queueChange (now : Z) (filePath : string) (e : SyncEngine)
  : SyncEngine :=
  mkEngine (lastSyncTime e) (setAdd filePath (pendingChanges e))
    (Some (now + DEBOUNCE_MS)) (retryTimers e) (isSyncing e)
    (inFlight e) (started e).

(** [performSync] up to its first [await]. *)
Definition performSyncBegin (e : SyncEngine) : SyncEngine :=
  mkEngine (lastSyncTime e) (pendingChanges e) (debounceTimer e)
    (retryTimers e) true (S (inFlight e)) (S (started e)).

(** [performSync] from the return of the push to the end of [finally];
    [succeeded] is false when the pull or the push threw. *)
Definition performSyncSettle (now : Z) (succeeded : bool) (e : SyncEngine)
  : SyncEngine :=
  mkEngine (if succeeded then now else lastSyncTime e)
    (if succeeded then [] else pendingChanges e)
    (debounceTimer e) (retryTimers e) false (pred (inFlight e)) (started e).

Definition trySync (now : Z) (e : SyncEngine) : SyncEngine :=
  let timeSinceLastSync := now - lastSyncTime e in
  if timeSinceLastSync <? MIN_INTERVAL_MS then
    let waitTime := MIN_INTERVAL_MS - timeSinceLastSync in
    mkEngine (lastSyncTime e) (pendingChanges e) (debounceTimer e)
      (retryTimers e ++ [now + (waitTime + 100)]) (isSyncing e)
      (inFlight e) (started e)
  else if isSyncing e then e
  else performSyncBegin e.

Definition forceSync (e : SyncEngine) : SyncEngine :=
  if isSyncing e then e else performSyncBegin e.

Inductive Event :=
| FileChanged (now : Z) (filePath : string)
| DebounceFired (now : Z)
| RetryFired (now : Z)
| SyncSettled (now : Z) (succeeded : bool)
| ForceRequested.

(** Removes the first armed timeout that is due at [now]. *)
Fixpoint takeDue (now : Z) (timers : list Z) : option (list Z) :=
  match timers with
  | [] => None
  | d :: rest =>
      if d <=? now then Some rest
      else match takeDue now rest with
           | Some rest' => Some (d :: rest')
           | None => None
           end
  end.

(** One turn of the event loop; [None] when the event cannot occur in the
    state (no such timeout is due, no sync is running). *)
Definition step (e : SyncEngine) (ev : Event) : option SyncEngine :=
  match ev with
  | FileChanged now filePath => Some (queueChange now filePath e)
  | DebounceFired now =>
      match debounceTimer e with
      | Some d =>
          if d <=? now then
            Some (trySync now
                    (mkEngine (lastSyncTime e) (pendingChanges e) None
                       (retryTimers e) (isSyncing e) (inFlight e) (started e)))
          else None
      | None => None
      end
  | RetryFired now =>
      match takeDue now (retryTimers e) with
      | Some rest =>
          Some (trySync now
                  (mkEngine (lastSyncTime e) (pendingChanges e)
                     (debounceTimer e) rest (isSyncing e) (inFlight e)
                     (started e)))
      | None => None
      end
  | SyncSettled now succeeded =>
      match inFlight e with
      | O => None
      | S _ => Some (performSyncSettle now succeeded e)
      end
  | ForceRequested => Some (forceSync e)
  end.

Fixpoint run (e : SyncEngine) (evs : list Event) : option SyncEngine :=
  match evs with
  | [] => Some e
  | ev :: rest =>
      match step e ev with
      | Some e' => run e' rest
      | None => None
      end
  end.

(** Nothing is armed and nothing runs: no further sync can begin unless a
    new file change or a manual request arrives. *)
Definition quiescent (e : SyncEngine) : bool :=
  match debounceTimer e, retryTimers e with
  | None, [] => negb (isSyncing e) && Nat.eqb (inFlight e) 0
  | _, _ => false
  end.

End Scheduler.

(* ================================================================= *)
(** ** convex/sync.ts: deletion; the conflict queries; convex/apiKeys.ts *)

(** A handler that returns, or throws [new Error(message)] and rolls
    back. *)
Inductive Thrown (A : Type) :=
| Ok (a : A)
| Error (message : string).
Arguments Ok {A} a.
Arguments Error {A} message.

(** An id of [configFiles] or of [sessionFiles]: a Convex id names its
    table. *)
Definition FileId : Type := (TableName * nat)%type.

(** [ctx.db.delete(id)] on the rows of the id's table. *)
Definition deleteRow (id : nat) (rows : list SyncedFile) : list SyncedFile :=
  filter (fun r => negb (Nat.eqb (f_id r) id)) rows.

Definition deleteFrom (db : DB) (t : TableName) (id : nat) : DB :=
  setTable db t (deleteRow id (tableOf db t)).

Section Maintenance.
Context {P : Platform}.

Definition deleteFile (db : DB) (apiKey : string) (fileId : FileId)
  : Thrown DB :=
  match validateApiKeyInternal db apiKey with
  | None => Error "Invalid API key"
  | Some user =>
      match find (fun r => Nat.eqb (f_id r) (snd fileId))
                 (tableOf db (fst fileId)) with
      | None => Error "File not found or unauthorized"
      | Some file =>
          if negb (Nat.eqb (f_userId file) (u_id user))
          then Error "File not found or unauthorized"
          else
            let fileSize := byteLength (f_content file) in
            let db1 :=
              patchUser db (u_id user)
                (setStorageUsed (Z.max 0 (storageUsed user - fileSize))) in
            Ok (deleteFrom db1 (fst fileId) (snd fileId))
      end
  end.

(** The loops [for (const file of ...) await ctx.db.delete(file._id)]. *)
Definition deleteEach (t : TableName) (files : list SyncedFile) (db : DB)
  : DB :=
  fold_left (fun db file => deleteFrom db t (f_id file)) files db.

(** [clearAllFiles]; the number returned is [deletedCount]. *)
Definition clearAllFiles (db : DB) (apiKey : string) : Outcome (DB * nat) :=
  match validateApiKeyInternal db apiKey with
  | None => Threw InvalidApiKey
  | Some user =>
      let ownConfig := byUser (configTable db) (u_id user) in
      let ownSession := byUser (sessionTable db) (u_id user) in
      let db1 := deleteEach configFiles ownConfig db in
      let db2 := deleteEach sessionFiles ownSession db1 in
      let db3 := patchUser db2 (u_id user) (setStorageUsed 0) in
      Returned (db3, (List.length ownConfig + List.length ownSession)%nat)
  end.

Definition getConflicts (db : DB) (apiKey : string)
  : Outcome (list Conflict) :=
  match validateApiKeyInternal db apiKey with
  | None => Threw InvalidApiKey
  | Some user => Returned (unresolvedOf db (u_id user))
  end.

Definition getConflict (db : DB) (apiKey : string) (conflictId : nat)
  : Outcome Conflict :=
  match validateApiKeyInternal db apiKey with
  | None => Threw InvalidApiKey
  | Some user =>
      match find (fun c => Nat.eqb (c_id c) conflictId) (syncConflicts db) with
      | None => Threw ConflictNotFound
      | Some c =>
          if negb (Nat.eqb (c_userId c) (u_id user)) then Threw ConflictNotFound
          else Returned c
      end
  end.

(** One digit of [b.toString(16)]. *)
Definition hexDigit (n : N) : ascii :=
  match n with
  | 0%N => "0" | 1%N => "1" | 2%N => "2" | 3%N => "3" | 4%N => "4"
  | 5%N => "5" | 6%N => "6" | 7%N => "7" | 8%N => "8" | 9%N => "9"
  | 10%N => "a" | 11%N => "b" | 12%N => "c" | 13%N => "d" | 14%N => "e"
  | _ => "f"
  end%char.

(** [b.toString(16).padStart(2, "0")] for a byte. *)
Definition hexByte (b : Byte.byte) : string :=
  let n := Byte.to_N b in
  String (hexDigit (n / 16)) (String (hexDigit (n mod 16)) EmptyString).

(** [generateApiKey], given the bytes that [crypto.getRandomValues]
    drew. *)
Definition generateApiKey (randomBytes : list Byte.byte) : string :=
  let prefix := "ccsk_" in
  let key := String.concat EmptyString (map hexByte randomBytes) in
  prefix ++ key.

Record IssuedKey := mkIssued {
  keyId : nat;
  issuedKey : string;
  keyPrefix : string
}.

(** [createApiKey], given the random bytes of the key.  The stored record
    carries the hash; the columns [keyPrefix], [name] and [createdAt], which
    no handler reads, are not part of [ApiKeyRecord]. *)
Definition createApiKey (db : DB) (userId : nat)
  (randomBytes : list Byte.byte) : Thrown (DB * IssuedKey) :=
  match getUser db userId with
  | None => Error "User not found"
  | Some _ =>
      let apiKey := generateApiKey randomBytes in
      let keyHash := hashApiKey apiKey in
      let keyPrefix := String.substring 0 12 apiKey in
      let keyId := nextId db in
      Ok (mkDB (users db) (apiKeys db ++ [mkApiKey keyHash userId None])
               (configTable db) (sessionTable db) (syncConflicts db)
               (S keyId),
          mkIssued keyId apiKey keyPrefix)
  end.

End Maintenance.

(* ================================================================= *)
(** ** apps/cli/src/sync-engine.ts: the realtime subscription callback *)

Module Realtime.

(** What one run of the [onUpdate] callback does: the new [lastSeenFiles],
    whether [pullRemoteChanges] is called, and the [onConflict] calls in
    order. *)
Record Reaction := mkReaction {
  lastSeenFiles : list string;
  pulls : bool;
  notified : list (string * nat)
}.

Definition setHas (s : list string) (x : string) : bool :=
  existsb (String.eqb x) s.

(** [result.files.forEach((f) => this.lastSeenFiles.add(f.contentHash))]. *)
Definition addAll (seen : list string) (files : list ChangedFile)
  : list string :=
  fold_left (fun seen f => Scheduler.setAdd (ch_contentHash f) seen) files seen.

(** The callback for a snapshot that is not [undefined]. *)
Definition onUpdate (isSyncing : bool) (seen : list string)
  (files : list ChangedFile) (conflicts : list ConflictNotice) : Reaction :=
  let newFiles :=
    filter (fun f => negb (setHas seen (ch_contentHash f))) files in
  let triggers := negb (Nat.eqb (List.length newFiles) 0) && negb isSyncing in
  mkReaction (if triggers then addAll seen files else seen)
             triggers
             (map (fun c => (n_filePath c, n_id c)) conflicts).

End Realtime.

(* ================================================================= *)
(** ** apps/cli/src/sync-engine.ts: what [performSync] reads off the push *)

Module Engine.

Definition hasStatus (s : Status) (r : PushResult) : bool :=
  match s, r_status r with
  | success, success | conflict, conflict | error, error => true
  | _, _ => false
  end.

(** [pushResult.results.filter(r => r.status === "success").length]. *)
Definition uploaded (results : list PushResult) : nat :=
  List.length (filter (hasStatus success) results).

(** [pushResult.results.filter(r => r.status === "conflict")]. *)
Definition conflicts (results : list PushResult) : list PushResult :=
  filter (hasStatus conflict) results.

(** [pushResult.results.filter(r => r.status === "error").length]. *)
Definition errors (results : list PushResult) : nat :=
  List.length (filter (hasStatus error) results).

(** The calls of [onConflict] in the loop over [conflicts]: one for each
    conflict that carries a [conflictId]. *)
Definition notifiedConflicts (results : list PushResult)
  : list (string * nat) :=
  flat_map (fun conflict =>
              match r_conflictId conflict with
              | Some conflictId => [(r_filePath conflict, conflictId)]
              | None => []
              end)
           (conflicts results).

End Engine.

(* ================================================================= *)
(** ** A reference runtime

    An executable [Platform] on which the handlers are evaluated at
    concrete inputs.  Its JSON reader accepts objects, arrays, strings with
    the one-letter escapes, integer numerals and the three literals, and
    rejects everything else; its writers list members in creation order
    (the enumeration order when no key is an array index); its operators
    coerce as ECMAScript does on integer-valued operands; its sort is the
    one V8 runs on arrays of fewer than 64 elements.  The digests are
    stand-ins: an injective tagging of the input. *)

Module Reference.

Inductive Token :=
| TLBrace | TRBrace | TLBracket | TRBracket | TColon | TComma
| TString (s : string) | TNumber (z : Z) | TTrue | TFalse | TNull.

Definition isDigit (c : ascii) : bool :=
  let n := nat_of_ascii c in (48 <=? n)%nat && (n <=? 57)%nat.

Definition digitValue (c : ascii) : Z := Z.of_nat (nat_of_ascii c) - 48.

Definition isSpace (c : ascii) : bool :=
  let n := nat_of_ascii c in
  Nat.eqb n 32 || Nat.eqb n 9 || Nat.eqb n 10 || Nat.eqb n 13.

Definition unescape (c : ascii) : option ascii :=
  match c with
  | "034"%char => Some dquote
  | "\"%char => Some "\"%char
  | "/"%char => Some "/"%char
  | "b"%char => Some "008"%char
  | "f"%char => Some "012"%char
  | "n"%char => Some "010"%char
  | "r"%char => Some "013"%char
  | "t"%char => Some "009"%char
  | _ => None
  end.

(** Reads the body of a string literal up to its closing quote. *)
Fixpoint lexString (s : string) (acc : string) : option (string * string) :=
  match s with
  | EmptyString => None
  | String c rest =>
      if Ascii.eqb c dquote then Some (acc, rest)
      else if Ascii.eqb c "\"%char then
        match rest with
        | String e rest' =>
            match unescape e with
            | Some u => lexString rest' (acc ++ String u EmptyString)
            | None => None
            end
        | EmptyString => None
        end
      else if (nat_of_ascii c <? 32)%nat then None
      else lexString rest (acc ++ String c EmptyString)
  end.

Fixpoint lexDigits (s : string) (acc : Z) : Z * string :=
  match s with
  | String c rest =>
      if isDigit c then lexDigits rest (10 * acc + digitValue c) else (acc, s)
  | EmptyString => (acc, s)
  end.

(** An integer numeral without sign: [0] or a numeral with no leading 0,
    not followed by a fraction or an exponent. *)
Definition lexNatural (s : string) : option (Z * string) :=
  match s with
  | String c rest =>
      if isDigit c then
        let '(z, rest') := lexDigits s 0 in
        let leadingZero := Ascii.eqb c "0"%char
                           && negb (String.eqb rest' rest) in
        let continues :=
          match rest' with
          | String d _ => Ascii.eqb d "."%char || Ascii.eqb d "e"%char
                          || Ascii.eqb d "E"%char
          | EmptyString => false
          end in
        if leadingZero || continues then None else Some (z, rest')
      else None
  | EmptyString => None
  end.

Fixpoint lex (fuel : nat) (s : string) : option (list Token) :=
  match fuel with
  | O => None
  | S fuel' =>
      match s with
      | EmptyString => Some []
      | String c rest =>
          let emit t rest' :=
            match lex fuel' rest' with
            | Some ts => Some (t :: ts)
            | None => None
            end in
          if isSpace c then lex fuel' rest
          else if Ascii.eqb c "{"%char then emit TLBrace rest
          else if Ascii.eqb c "}"%char then emit TRBrace rest
          else if Ascii.eqb c "["%char then emit TLBracket rest
          else if Ascii.eqb c "]"%char then emit TRBracket rest
          else if Ascii.eqb c ":"%char then emit TColon rest
          else if Ascii.eqb c ","%char then emit TComma rest
          else if Ascii.eqb c dquote then
            match lexString rest EmptyString with
            | Some (str, rest') => emit (TString str) rest'
            | None => None
            end
          else if Ascii.eqb c "-"%char then
            match lexNatural rest with
            | Some (z, rest') => emit (TNumber (- z)) rest'
            | None => None
            end
          else if isDigit c then
            match lexNatural s with
            | Some (z, rest') => emit (TNumber z) rest'
            | None => None
            end
          else if startsWith s "true" then
            emit TTrue (String.substring 4 (String.length s - 4) s)
          else if startsWith s "false" then
            emit TFalse (String.substring 5 (String.length s - 5) s)
          else if startsWith s "null" then
            emit TNull (String.substring 4 (String.length s - 4) s)
          else None
      end
  end.

Fixpoint parseValue (fuel : nat) (ts : list Token)
  : option (JsValue * list Token) :=
  match fuel with
  | O => None
  | S fuel' =>
      match ts with
      | TNull :: rest => Some (JNull, rest)
      | TTrue :: rest => Some (JBool true, rest)
      | TFalse :: rest => Some (JBool false, rest)
      | TNumber z :: rest => Some (JNumber z, rest)
      | TString s :: rest => Some (JString s, rest)
      | TLBracket :: TRBracket :: rest => Some (JArray [], rest)
      | TLBracket :: rest => parseItems fuel' rest []
      | TLBrace :: TRBrace :: rest => Some (JObject [], rest)
      | TLBrace :: rest => parseMembers fuel' rest []
      | _ => None
      end
  end
with parseItems (fuel : nat) (ts : list Token) (acc : list JsValue)
  : option (JsValue * list Token) :=
  match fuel with
  | O => None
  | S fuel' =>
      match parseValue fuel' ts with
      | Some (v, TComma :: rest) => parseItems fuel' rest (acc ++ [v])
      | Some (v, TRBracket :: rest) => Some (JArray (acc ++ [v]), rest)
      | _ => None
      end
  end
with parseMembers (fuel : nat) (ts : list Token)
  (acc : list (string * JsValue)) : option (JsValue * list Token) :=
  match fuel with
  | O => None
  | S fuel' =>
      match ts with
      | TString k :: TColon :: rest =>
          match parseValue fuel' rest with
          | Some (v, TComma :: rest') =>
              parseMembers fuel' rest' (defineProp acc k v)
          | Some (v, TRBrace :: rest') =>
              Some (JObject (defineProp acc k v), rest')
          | _ => None
          end
      | _ => None
      end
  end.

Definition parse (text : string) : option JsValue :=
  match lex (S (String.length text)) text with
  | Some ts =>
      match parseValue (S (List.length ts)) ts with
      | Some (v, []) => Some v
      | _ => None
      end
  | None => None
  end.

Definition showZ (z : Z) : string := NilZero.string_of_int (Z.to_int z).

Fixpoint escapeBody (s : string) : string :=
  match s with
  | EmptyString => EmptyString
  | String c rest =>
      (if Ascii.eqb c dquote then String "\"%char (String dquote EmptyString)
       else if Ascii.eqb c "\"%char then "\\"
       else if Ascii.eqb c "010"%char then "\n"
       else if Ascii.eqb c "013"%char then "\r"
       else if Ascii.eqb c "009"%char then "\t"
       else if Ascii.eqb c "008"%char then "\b"
       else if Ascii.eqb c "012"%char then "\f"
       else String c EmptyString) ++ escapeBody rest
  end.

Definition quote (s : string) : string :=
  String dquote (escapeBody s ++ String dquote EmptyString).

Fixpoint stringify (v : JsValue) : string :=
  match v with
  | JNull => "null"
  | JBool true => "true"
  | JBool false => "false"
  | JNumber z => showZ z
  | JString s => quote s
  | JArray items => "[" ++ join "," (map stringify items) ++ "]"
  | JObject props =>
      "{" ++ join ","
               (map (fun kv => quote (fst kv) ++ ":" ++ stringify (snd kv)) props)
          ++ "}"
  end.

Fixpoint stringifyIndented (indent : string) (v : JsValue) : string :=
  let inner := indent ++ "  " in
  match v with
  | JArray [] => "[]"
  | JObject [] => "{}"
  | JArray items =>
      "[" ++ nl
      ++ join ("," ++ nl)
           (map (fun x => inner ++ stringifyIndented inner x) items)
      ++ nl ++ indent ++ "]"
  | JObject props =>
      "{" ++ nl
      ++ join ("," ++ nl)
           (map (fun kv => inner ++ quote (fst kv) ++ ": "
                           ++ stringifyIndented inner (snd kv)) props)
      ++ nl ++ indent ++ "}"
  | _ => stringify v
  end.

Fixpoint trimLeft (s : string) : string :=
  match s with
  | String c rest => if isSpace c then trimLeft rest else s
  | EmptyString => s
  end.

Fixpoint allDigits (s : string) : bool :=
  match s with
  | EmptyString => true
  | String c rest => isDigit c && allDigits rest
  end.

(** Drops the white space that follows the last other character. *)
Fixpoint trimRight (s : string) : string :=
  match s with
  | EmptyString => EmptyString
  | String c rest =>
      match trimRight rest with
      | EmptyString => if isSpace c then EmptyString else String c EmptyString
      | kept => String c kept
      end
  end.

Definition digitsToNumber (s : string) : JsNumber :=
  match s with
  | EmptyString => NaN
  | _ => if allDigits s then Num (fst (lexDigits s 0)) else NaN
  end.

(** StringToNumber on the integer numerals: white space is trimmed, the
    empty string is 0, a signed run of decimal digits is its value, and
    the other strings read here as NaN. *)
Definition stringToNumber (s : string) : JsNumber :=
  match trimRight (trimLeft s) with
  | EmptyString => Num 0
  | String "+" rest => digitsToNumber rest
  | String "-" rest =>
      match digitsToNumber rest with
      | Num z => Num (- z)
      | NaN => NaN
      end
  | body => digitsToNumber body
  end.

(** ToString of a value, as [Array.prototype.join] and ToPrimitive use
    it. *)
Fixpoint toText (v : JsValue) : string :=
  match v with
  | JNull => "null"
  | JBool true => "true"
  | JBool false => "false"
  | JNumber z => showZ z
  | JString s => s
  | JArray items =>
      join "," (map (fun x => match x with
                              | JNull => EmptyString
                              | _ => toText x
                              end) items)
  | JObject _ => "[object Object]"
  end.

(** ToPrimitive: arrays and objects become their text. *)
Definition toPrimitive (v : JsValue) : JsValue :=
  match v with
  | JArray _ | JObject _ => JString (toText v)
  | _ => v
  end.

(** ToNumber of a primitive. *)
Definition toNumber (v : JsValue) : JsNumber :=
  match v with
  | JNull => Num 0
  | JBool b => Num (if b then 1 else 0)
  | JNumber z => Num z
  | JString s => stringToNumber s
  | JArray _ | JObject _ => NaN
  end.

(** [a > b]: two strings are compared as strings, any other pair as
    numbers, and a NaN makes the comparison false. *)
Definition greater (a b : JsValue) : bool :=
  match toPrimitive a, toPrimitive b with
  | JString x, JString y => String.ltb y x
  | pa, pb =>
      match toNumber pa, toNumber pb with
      | Num x, Num y => y <? x
      | _, _ => false
      end
  end.

(** [a - b]. *)
Definition minus (a b : JsValue) : JsNumber :=
  match toNumber (toPrimitive a), toNumber (toPrimitive b) with
  | Num x, Num y => Num (x - y)
  | _, _ => NaN
  end.

(** [Array.prototype.sort(cmp)] as V8 runs it (third_party/v8/builtins/
    array-sort.tq) on an array of fewer than 64 elements, where the minimal
    run length is the length of the array: [CountAndMakeRun] finds the run
    the array starts with, [BinaryInsertionSort] inserts what follows it.
    Longer arrays, which V8 cuts into several runs that it merges, are
    sorted here by the same two steps. *)

(** The [for] loop of [CountAndMakeRun]: the elements that continue the run
    ending in [previousElement], and what is left of the array. *)
Fixpoint extendRun (cmp : JsValue -> JsValue -> Z) (isDescending : bool)
  (previousElement : JsValue) (work : list JsValue)
  : list JsValue * list JsValue :=
  match work with
  | [] => ([], [])
  | currentElement :: rest =>
      let order := cmp currentElement previousElement in
      if (if isDescending then 0 <=? order else order <? 0)
      then ([], work)
      else
        let (run, left) := extendRun cmp isDescending currentElement rest in
        (currentElement :: run, left)
  end.

(** [CountAndMakeRun]: the first run, reversed when it is strictly
    descending, and the elements after it. *)
Definition countAndMakeRun (cmp : JsValue -> JsValue -> Z)
  (work : list JsValue) : list JsValue * list JsValue :=
  match work with
  | elementHigh :: elementLow :: rest =>
      let order := cmp elementLow elementHigh in
      let isDescending := order <? 0 in
      let (run, left) := extendRun cmp isDescending elementLow rest in
      let found := elementHigh :: elementLow :: run in
      (if isDescending then rev found else found, left)
  | _ => (work, [])
  end.

(** The [while (left < right)] loop of [BinaryInsertionSort]; the interval
    shrinks at every turn, so [S (right - left)] turns are enough. *)
Fixpoint insertionPoint (turns : nat) (cmp : JsValue -> JsValue -> Z)
  (pivot : JsValue) (work : list JsValue) (left right : nat) : nat :=
  match turns with
  | O => left
  | S turns' =>
      if (left <? right)%nat then
        let mid := (left + Nat.div2 (right - left))%nat in
        match nth_error work mid with
        | Some element =>
            if cmp pivot element <? 0
            then insertionPoint turns' cmp pivot work left mid
            else insertionPoint turns' cmp pivot work (S mid) right
        | None => left
        end
      else left
  end.

(** One turn of the outer loop of [BinaryInsertionSort]: [pivot] is moved
    to its place among the elements before it. *)
Definition insertPivot (cmp : JsValue -> JsValue -> Z)
  (sorted : list JsValue) (pivot : JsValue) : list JsValue :=
  let left :=
    insertionPoint (S (List.length sorted)) cmp pivot sorted 0
      (List.length sorted) in
  (firstn left sorted ++ pivot :: skipn left sorted)%list.

Definition binaryInsertionSort (cmp : JsValue -> JsValue -> Z)
  (run rest : list JsValue) : list JsValue :=
  fold_left (insertPivot cmp) rest run.

Definition sort (cmp : JsValue -> JsValue -> Z) (work : list JsValue)
  : list JsValue :=
  let (run, rest) := countAndMakeRun cmp work in
  binaryInsertionSort cmp run rest.

(** The reference runtime; its sort returns the elements it is given. *)
Definition runtime : Platform.
Proof.
  refine {|
    hashApiKey := fun key => "sha256:" ++ key;
    computeHash := fun content => "sha256:" ++ content;
    JSON_parse := parse;
    JSON_stringify := stringify;
    JSON_stringify_indent2 := stringifyIndented EmptyString;
    looseGreater := greater;
    looseMinus := minus;
    arraySort := sort;
    arraySort_rearranges := _
  |}.
  intros cmp work.
  assert (Hsplit : forall isDescending rest previousElement,
            (fst (extendRun cmp isDescending previousElement rest)
             ++ snd (extendRun cmp isDescending previousElement rest))%list
            = rest).
  { intros isDescending rest.
    induction rest as [|currentElement rest IH]; intros previousElement.
    - reflexivity.
    - simpl.
      destruct (if isDescending then _ else _); [reflexivity|].
      specialize (IH currentElement).
      destruct (extendRun cmp isDescending currentElement rest)
        as [run left].
      simpl in *. now rewrite IH. }
  assert (Hrun : Permutation work
                   (fst (countAndMakeRun cmp work)
                    ++ snd (countAndMakeRun cmp work))).
  { destruct work as [|elementHigh [|elementLow rest]]; simpl;
      try apply Permutation_refl.
    specialize (Hsplit (cmp elementLow elementHigh <? 0) rest elementLow).
    destruct (extendRun cmp (cmp elementLow elementHigh <? 0) elementLow rest)
      as [run left].
    simpl in Hsplit. rewrite <- Hsplit.
    change (elementHigh :: elementLow :: run ++ left)%list
      with ((elementHigh :: elementLow :: run) ++ left)%list.
    destruct (cmp elementLow elementHigh <? 0); simpl fst; simpl snd.
    - apply Permutation_app_tail, Permutation_rev.
    - apply Permutation_refl. }
  assert (Hinsert : forall rest run,
            Permutation (run ++ rest) (binaryInsertionSort cmp run rest)).
  { unfold binaryInsertionSort.
    induction rest as [|pivot rest IH]; intros run; simpl.
    - rewrite app_nil_r. apply Permutation_refl.
    - eapply Permutation_trans; [|apply IH].
      eapply Permutation_trans; [apply Permutation_sym, Permutation_middle|].
      apply (Permutation_app_tail rest (l := pivot :: run)).
      unfold insertPivot.
      set (left := insertionPoint _ _ _ _ _ _).
      rewrite <- (firstn_skipn left run) at 1.
      apply Permutation_middle. }
  unfold sort.
  destruct (countAndMakeRun cmp work) as [run rest].
  eapply Permutation_trans; [exact Hrun | apply Hinsert].
Defined.

End Reference.

(* ================================================================= *)
(** ** Worked inputs *)

Module Sample.

Definition allow : nat -> LimitVerdict := fun _ => mkVerdict true 0.

Definition aliceKey : string := "key-alice".

Definition keyOfAlice : ApiKeyRecord :=
  mkApiKey (hashApiKey (Platform := Reference.runtime) aliceKey) 1 None.

(** One user, limit 100 bytes, nothing stored. *)
Definition emptyCatalog : DB :=
  mkDB [mkUser 1 0 100 0] [keyOfAlice] [] [] [] 2.

Definition noteX (content hash : string) : PushFile :=
  mkPushFile "CLAUDE.md" content hash 10.

Definition noteByLaptop : SyncedFile :=
  mkSyncedFile 2 1 "laptop" "CLAUDE.md" "a" "hash-a" 10 1 500 None.

Definition todoByDesktop : SyncedFile :=
  mkSyncedFile 3 1 "desktop" "todos/s1-agent.json" "[]" "hash-t" 20 1 700
    (Some ("s1", todo)).

(** The same user with two stored files, written by two devices. *)
Definition twoFiles : DB :=
  mkDB [mkUser 1 3 100 0] [keyOfAlice] [noteByLaptop] [todoByDesktop] [] 4.

Definition tenBytesByLaptop : SyncedFile :=
  mkSyncedFile 2 1 "laptop" "CLAUDE.md" "0123456789" "hash-10" 10 1 500 None.

(** A user whose single stored file fills the limit of 10 bytes. *)
Definition fullCatalog : DB :=
  mkDB [mkUser 1 10 10 0] [keyOfAlice] [tenBytesByLaptop] [] [] 3.

(** A user whose limit is 10 bytes. *)
Definition smallCatalog : DB :=
  mkDB [mkUser 1 0 10 0] [keyOfAlice] [] [] [] 2.


Definition sixBytes : PushFile := mkPushFile "CLAUDE.md" "sixsix" "hash-6" 10.

Definition sixtyBytes (path : string) : PushFile :=
  mkPushFile path
    "012345678901234567890123456789012345678901234567890123456789"
    ("hash-" ++ path) 10.

Definition pendingConflict : Conflict :=
  mkConflict 4 1 "CLAUDE.md" "laptop" "desktop" "a" "b" 900 None None.

Definition withConflict : DB :=
  mkDB [mkUser 1 3 100 0] [keyOfAlice] [noteByLaptop] [todoByDesktop]
       [pendingConflict] 5.

(** The catalog after the laptop's push of [noteX "a" "hash-a"] into
    [emptyCatalog] at time 500. *)
Definition afterNote : DB :=
  mkDB [mkUser 1 1 100 500] [keyOfAlice]
       [mkSyncedFile 2 1 "laptop" "CLAUDE.md" "a" "hash-a" 10 1 500 None]
       [] [] 3.

(** The catalog after the first push of [sixBytes] into [smallCatalog]. *)
Definition afterFirstPush : DB :=
  mkDB [mkUser 1 6 10 500] [keyOfAlice]
       [mkSyncedFile 2 1 "laptop" "CLAUDE.md" "sixsix" "hash-6" 10 1 500 None]
       [] [] 3.

Definition q (s : string) : string :=
  String dquote (s ++ String dquote EmptyString).

(** The text [{"a":1}]. *)
Definition docA : string := "{" ++ q "a" ++ ":1}".

(** The text [{"a":2,"b":3}]. *)
Definition docB : string := "{" ++ q "a" ++ ":2," ++ q "b" ++ ":3}".

(** [{"a":2,"b":3}] as [JSON.stringify(v, null, 2)] writes it. *)
Definition docMerged : string :=
  "{" ++ nl ++ "  " ++ q "a" ++ ": 2," ++ nl
  ++ "  " ++ q "b" ++ ": 3" ++ nl ++ "}".

Definition settingsConflict : Conflict :=
  mkConflict 4 1 "settings.json" "laptop" "desktop" docA docB 900 None None.

Definition withSettingsConflict : DB :=
  mkDB [mkUser 1 3 100 0] [keyOfAlice] [noteByLaptop] [] [settingsConflict] 5.

(** The line [{"id":i,"timestamp":t}]. *)
Definition record (i t : string) : string :=
  "{" ++ q "id" ++ ":" ++ i ++ "," ++ q "timestamp" ++ ":" ++ t ++ "}".

(** Two sides of line records: identity 1 is on both, with timestamps 5
    and 9. *)
Definition sideA : string := record "1" "5" ++ nl ++ record "2" "7".
Definition sideB : string := record "1" "9" ++ nl ++ record "3" "6".

Definition historyConflict (contentA contentB : string) : Conflict :=
  mkConflict 4 1 "history.jsonl" "laptop" "desktop" contentA contentB 900
    None None.

Definition withHistoryConflict (contentA contentB : string) : DB :=
  mkDB [mkUser 1 3 100 0] [keyOfAlice] [noteByLaptop] []
       [historyConflict contentA contentB] 5.




Definition sessionLog (mtime : Z) : Node := File (Some "{}") mtime.

(** Twelve session logs and one agent log in four project directories. *)
Definition projectDirs : list (string * Node) :=
  [("alpha", Dir 1 [("s01.jsonl", sessionLog 101); ("s02.jsonl", sessionLog 212);
                    ("s03.jsonl", sessionLog 103);
                    ("agent-1.jsonl", sessionLog 999)]);
   ("beta", Dir 2 [("s04.jsonl", sessionLog 204); ("s05.jsonl", sessionLog 105);
                   ("s06.jsonl", sessionLog 206)]);
   ("gamma", Dir 3 [("s07.jsonl", sessionLog 107); ("s08.jsonl", sessionLog 208);
                    ("s09.jsonl", sessionLog 109)]);
   ("delta", Dir 4 [("s10.jsonl", sessionLog 210); ("s11.jsonl", sessionLog 1);
                    ("s12.jsonl", sessionLog 2)])].

(** A change arrives while a sync runs, and its debounced request fires
    before the sync settles. *)
Definition changeDuringSync : list Scheduler.Event :=
  [Scheduler.FileChanged 1000000 "CLAUDE.md";
   Scheduler.DebounceFired 1005000;
   Scheduler.FileChanged 1006000 "settings.json";
   Scheduler.DebounceFired 1011000;
   Scheduler.SyncSettled 1020000 true].

End Sample.

(** Further inputs: a second user, a revoked key, a conflict over a path
    outside the config patterns, small sync roots. *)
Module Cases.

Definition alice : User := mkUser 1 3 100 0.

Definition bob : User := mkUser 5 2 100 0.

Definition bobKey : string := "key-bob".

Definition keyOfBob : ApiKeyRecord :=
  mkApiKey (hashApiKey (Platform := Reference.runtime) bobKey) 5 None.

Definition noteByBob : SyncedFile :=
  mkSyncedFile 6 5 "tablet" "CLAUDE.md" "bb" "hash-bb" 30 1 800 None.

(** The catalog [Sample.twoFiles] with a second user who stored one
    file. *)
Definition twoUsers : DB :=
  mkDB [alice; bob] [Sample.keyOfAlice; keyOfBob]
       [Sample.noteByLaptop; noteByBob] [Sample.todoByDesktop] [] 7.

(** The catalog [Sample.twoFiles] with the key of the user revoked at
    time 700. *)
Definition revokedCatalog : DB :=
  mkDB [alice]
       [mkApiKey (hashApiKey (Platform := Reference.runtime) Sample.aliceKey)
          1 (Some 700)]
       [Sample.noteByLaptop] [Sample.todoByDesktop] [] 4.

Definition deny : nat -> LimitVerdict := fun _ => mkVerdict false 2500.

Definition statsByLaptop : SyncedFile :=
  mkSyncedFile 2 1 "laptop" "stats.json" "{}" "hash-s" 10 1 500 None.

Definition statsConflict : Conflict :=
  mkConflict 3 1 "stats.json" "laptop" "desktop" "{}" "[]" 900 None None.

(** A conflict over [stats.json], a path that matches no config pattern
    and lies under neither [todos/] nor [session-env/]. *)
Definition withStatsConflict : DB :=
  mkDB [alice] [Sample.keyOfAlice] [statsByLaptop] [] [statsConflict] 4.

(** A sync root with a note, a todo and a debug log. *)
Definition smallRoot (debugLog : string) : Node :=
  Dir 1 [("CLAUDE.md", File (Some "hi") 5);
         ("debug", Dir 2 [("log.json", File (Some debugLog) 6)]);
         ("todos", Dir 3 [("t1.json", File (Some "[]") 7)])].

(** A sync root whose [settings.json] cannot be read. *)
Definition lockedRoot : Node :=
  Dir 1 [("CLAUDE.md", File (Some "hi") 5);
         ("settings.json", File None 6)].

(** The desktop pushes another content for the note of the laptop, and a
    new file of 60 bytes. *)
Definition conflictingPush : list PushFile :=
  [Sample.noteX "b" "hash-b"; Sample.sixtyBytes "a.md"].

Definition conflictRecord (id : nat) : Conflict :=
  mkConflict id 1 "CLAUDE.md" "laptop" "desktop" "a" "b" 600 None None.

Definition newDocumentByDesktop (id : nat) : SyncedFile :=
  mkSyncedFile id 1 "desktop" "a.md" (p_content (Sample.sixtyBytes "a.md"))
    "hash-a.md" 10 1 600 None.

Definition pushAnswers (id : nat) : list PushResult :=
  [mkPushResult "CLAUDE.md" conflict (Some id) None;
   mkPushResult "a.md" success None None].

(** [Sample.twoFiles] after [conflictingPush] at time 600. *)
Definition afterPush : DB :=
  mkDB [mkUser 1 63 100 600] [Sample.keyOfAlice]
       [Sample.noteByLaptop; newDocumentByDesktop 5] [Sample.todoByDesktop]
       [conflictRecord 4] 6.

(** The desktop pushes another content for the note of the laptop, the
    todo as it is stored, and a new file of two bytes. *)
Definition mixedPush : list PushFile :=
  [Sample.noteX "b" "hash-b";
   mkPushFile "todos/s1-agent.json" "[]" "hash-t" 20;
   mkPushFile "b.md" "xy" "hash-xy" 30].

Definition noteOfDesktop : SyncedFile :=
  mkSyncedFile 5 1 "desktop" "b.md" "xy" "hash-xy" 30 1 600 None.

(** [Sample.twoFiles] after [mixedPush] by the desktop at time 600. *)
Definition afterMixedPush : DB :=
  mkDB [mkUser 1 5 100 600] [Sample.keyOfAlice]
       [Sample.noteByLaptop; noteOfDesktop] [Sample.todoByDesktop]
       [conflictRecord 4] 6.

(** [twoUsers] after the same push by the first user. *)
Definition afterPushTwoUsers : DB :=
  mkDB [mkUser 1 63 100 600; bob] [Sample.keyOfAlice; keyOfBob]
       [Sample.noteByLaptop; noteByBob; newDocumentByDesktop 8]
       [Sample.todoByDesktop] [conflictRecord 7] 9.

(** [Sample.twoFiles] after the note is deleted. *)
Definition afterDelete : DB :=
  mkDB [mkUser 1 2 100 0] [Sample.keyOfAlice] [] [Sample.todoByDesktop] [] 4.

(** [Sample.withConflict] after the laptop resolves with [keep_local] at
    time 950. *)
Definition afterResolution : DB :=
  mkDB [alice] [Sample.keyOfAlice]
       [mkSyncedFile 2 1 "laptop" "CLAUDE.md" "a" "sha256:a" 950 2 950 None]
       [Sample.todoByDesktop]
       [mkConflict 4 1 "CLAUDE.md" "laptop" "desktop" "a" "b" 900 (Some 950)
          (Some keep_local)] 5.

(** [withStatsConflict] after the laptop resolves with [keep_remote] at
    time 950. *)
Definition afterStatsResolution : DB :=
  mkDB [alice] [Sample.keyOfAlice] [statsByLaptop]
       [mkSyncedFile 4 1 "laptop" "stats.json" "[]" "sha256:[]" 950 1 950
          (Some ("unknown", session_env))]
       [mkConflict 3 1 "stats.json" "laptop" "desktop" "{}" "[]" 900
          (Some 950) (Some keep_remote)] 5.

Definition settingsByDesktop : SyncedFile :=
  mkSyncedFile 4 1 "desktop" "settings.json" "{}" "hash-s" 30 2 650 None.

Definition olderTodoByDesktop : SyncedFile :=
  mkSyncedFile 7 1 "desktop" "todos/s2-agent.json" "[0]" "hash-u" 5 1 600
    (Some ("s2", todo)).

(** Two users and both tables in use: the first user has a note written by
    the laptop and, written by the desktop, the settings (synced at 650)
    and two todo files (synced at 700 and at 600); the second user has a
    note.  Of the three conflicts one is open and the first user's, one is
    resolved, one is the second user's. *)
Definition mixedCatalog : DB :=
  mkDB [alice; bob] [Sample.keyOfAlice; keyOfBob]
       [Sample.noteByLaptop; settingsByDesktop; noteByBob]
       [Sample.todoByDesktop; olderTodoByDesktop]
       [mkConflict 8 1 "CLAUDE.md" "laptop" "desktop" "a" "b" 900 None None;
        mkConflict 9 1 "settings.json" "desktop" "laptop" "{}" "[]" 910
          (Some 950) (Some keep_local);
        mkConflict 10 5 "CLAUDE.md" "tablet" "phone" "bb" "cc" 920 None None]
       11.


(** A conflict on [settings.json] whose desktop side is not JSON. *)
Definition brokenSettingsConflict : Conflict :=
  mkConflict 4 1 "settings.json" "laptop" "desktop" "[1,2]" "not json" 900
    None None.

Definition withBrokenSettingsConflict : DB :=
  mkDB [alice] [Sample.keyOfAlice] [Sample.noteByLaptop] []
       [brokenSettingsConflict] 5.

(** An engine that synced at 1000000 and saw a change 4 s later. *)
Definition changedEarly : Scheduler.SyncEngine :=
  Scheduler.mkEngine 1000000 ["CLAUDE.md"] (Some 1009000) [] false 0 1.

End Cases.

(* ================================================================= *)
(** ** Vocabulary of the properties *)

(** The order of a comparator [(a, b) => key(a) - key(b)]. *)
Definition ascending {A : Type} (key : A -> Z) (x y : A) : Prop :=
  key x <= key y.

(** The order of a comparator [(a, b) => key(b) - key(a)]. *)
Definition descending {A : Type} (key : A -> Z) (x y : A) : Prop :=
  key y <= key x.

(** The catalog entry that [pushSync] finds for a path: the oldest document
    of the user with that path in the table the path is categorised
    into. *)
Definition stored (db : DB) (uid : nat) (path : string) : option SyncedFile :=
  byUserAndPath (tableOf db (table (categorizeFile path))) uid path.

(** Document ids are unique in each catalog table and were drawn from the
    counter. *)
Definition wellKeyed (db : DB) : Prop :=
  forall t, NoDup (map f_id (tableOf db t))
            /\ forall r, In r (tableOf db t) -> (f_id r < nextId db)%nat.

Definition sameTable (a b : TableName) : bool :=
  match a, b with
  | configFiles, configFiles | sessionFiles, sessionFiles => true
  | _, _ => false
  end.

Definition succeeded (file : PushFile) : PushResult :=
  mkPushResult (p_filePath file) success None None.

(** The status that one turn of the loop of [pushSync] reports, told from
    the user document read before the loop and from the document stored
    for the path of the entry. *)
Definition answerOf (user : User) (deviceId : string)
  (found : option SyncedFile) (file : PushFile) : Status :=
  if storageLimit user <? storageUsed user + byteLength (p_content file)
  then error
  else
    match found with
    | Some existing =>
        if String.eqb (f_contentHash existing) (p_contentHash file)
        then success
        else if String.eqb (f_deviceId existing) deviceId then success
             else conflict
    | None => success
    end.

(** A value that [Map] compares by value. *)
Definition primitive (v : JsValue) : Prop :=
  match v with
  | JArray _ | JObject _ => False
  | _ => True
  end.

(** The numeric timestamp of a record, 0 when it has none. *)
Definition timestampOf (v : JsValue) : Z :=
  match getProp v "timestamp" with
  | Some (JNumber t) => t
  | _ => 0
  end.

(** [line] parses to the record [obj]: an object whose identity is compared
    by value and whose timestamp, if any, is a non-negative integer. *)
Definition recordLine {P : Platform} (line : string) (obj : JsValue) : Prop :=
  JSON_parse line = Some obj
  /\ (exists props, obj = JObject props)
  /\ primitive (identityOf obj line)
  /\ (getProp obj "timestamp" = None
      \/ exists t, getProp obj "timestamp" = Some (JNumber t) /\ 0 <= t).

(** The state of the loop of [mergeJSONL] after the lines [done], all of
    them records: one entry per identity, each entry a record of [done]
    stored under its identity, and every record of [done] dominated in
    timestamp by the entry stored under its identity. *)
Definition mergedSoFar {P : Platform} (done : list string) (m : JsMap) : Prop :=
  NoDup (map fst m)
  /\ (forall k v, In (k, v) m ->
        exists l, In l done /\ recordLine l v /\ identityOf v l = k)
  /\ (forall l o, In l done -> JSON_parse l = Some o ->
        exists s, In (identityOf o l, s) m /\ timestampOf o <= timestampOf s).



(** What the scan records for a selected session: nothing when it cannot
    be read. *)
Definition scannedSession {P : Platform} (s : Session) : list PushFile :=
  match fullPath s with
  | File (Some content) _ => [scanned (relPath s) content (s_mtime s)]
  | _ => []
  end.

(** The flag [isSyncing] is set exactly while one [performSync] runs. *)
Definition flagTracksFlight (e : Scheduler.SyncEngine) : Prop :=
  (Scheduler.isSyncing e = true /\ Scheduler.inFlight e = 1%nat)
  \/ (Scheduler.isSyncing e = false /\ Scheduler.inFlight e = 0%nat).

(** The accounts of [db'] are those of [db]: the same key records, and the
    same user documents up to the fields of user [uid]. *)
Definition sameAccounts (uid : nat) (db db' : DB) : Prop :=
  apiKeys db' = apiKeys db
  /\ exists g : User -> User,
       users db' = map g (users db)
       /\ (forall u, u_id (g u) = u_id u)
       /\ (forall u, u_id u <> uid -> g u = u).

(** What a push result tells about a Conflict record: its path and id. *)
Definition conflictOf (r : PushResult) : list (string * nat) :=
  match r_conflictId r with
  | Some id => [(r_filePath r, id)]
  | None => []
  end.

(** Conflict ids were drawn from the counter. *)
Definition conflictsKeyed (db : DB) : Prop :=
  forall c, In c (syncConflicts db) -> (c_id c < nextId db)%nat.

(** The documents of a table that the index [by_user_and_path] lists for a
    user and a path. *)
Definition documentsAt (rows : list SyncedFile) (uid : nat) (path : string)
  : list SyncedFile :=
  filter (fun r => Nat.eqb (f_userId r) uid && String.eqb (f_filePath r) path)
         rows.

(** No table holds two documents of one user for one path. *)
Definition onePerPath (db : DB) : Prop :=
  forall t uid path,
    (List.length (documentsAt (tableOf db t) uid path) <= 1)%nat.

(** Document ids are unique across the two catalog tables. *)
Definition uniqueIds (db : DB) : Prop :=
  NoDup (map f_id (configTable db ++ sessionTable db)).

(** The value of a lower-case hexadecimal digit. *)
Definition hexValue (c : ascii) : N :=
  match c with
  | "0" => 0 | "1" => 1 | "2" => 2 | "3" => 3 | "4" => 4 | "5" => 5
  | "6" => 6 | "7" => 7 | "8" => 8 | "9" => 9 | "a" => 10 | "b" => 11
  | "c" => 12 | "d" => 13 | "e" => 14 | _ => 15
  end%char%N.

(** An outcome of a part of the scan that began with the records
    [results]: either the file system failed, or records were appended, each
    carrying the hash of its content. *)
Definition extends {P : Platform} (results : list PushFile)
  (o : Outcome (list PushFile)) : Prop :=
  match o with
  | Returned out =>
      exists added : list PushFile,
        out = (results ++ added)%list
        /\ Forall (fun f => p_contentHash f = computeHash (p_content f)) added
  | Threw e => e = FsError
  end.

(** The character [c] does not occur in [s]. *)
Fixpoint lacks (c : ascii) (s : string) : bool :=
  match s with
  | EmptyString => true
  | String x rest => negb (Ascii.eqb x c) && lacks c rest
  end.

(* ================================================================= *)
(** * Properties *)

(** ** Lists and the sort *)

Lemma insertSorted_perm {A : Type} (cmp : A -> A -> Z) (x : A) (l : list A) :
  Permutation (x :: l) (insertSorted cmp x l).
Proof.
  induction l as [|y l IH]; simpl.
  - apply Permutation_refl.
  - destruct (cmp x y <=? 0).
    + apply Permutation_refl.
    + eapply Permutation_trans; [apply perm_swap|].
      apply perm_skip, IH.
Qed.

Lemma jsSort_perm {A : Type} (cmp : A -> A -> Z) (l : list A) :
  Permutation l (jsSort cmp l).
Proof.
  induction l as [|x l IH]; simpl.
  - apply perm_nil.
  - eapply Permutation_trans; [apply perm_skip, IH|].
    apply insertSorted_perm.
Qed.

Lemma jsSort_length {A : Type} (cmp : A -> A -> Z) (l : list A) :
  List.length (jsSort cmp l) = List.length l.
Proof. symmetry. apply Permutation_length, jsSort_perm. Qed.

Section SortByKey.
Context {A : Type} (key : A -> Z).

Lemma insertSorted_sorted (x : A) (l : list A) :
  StronglySorted (ascending key) l ->
  StronglySorted (ascending key) (insertSorted (fun a b => key a - key b) x l).
Proof.
  induction 1 as [|y l Hs IH Hall]; simpl.
  - constructor; [constructor | constructor].
  - destruct (key x - key y <=? 0) eqn:E.
    + apply Z.leb_le in E.
      constructor.
      * constructor; assumption.
      * constructor; [unfold ascending; lia|].
        eapply Forall_impl; [|exact Hall].
        unfold ascending; intros; lia.
    + apply Z.leb_gt in E.
      constructor; [exact IH|].
      eapply Permutation_Forall; [apply insertSorted_perm|].
      constructor; [unfold ascending; lia | exact Hall].
Qed.

Lemma jsSort_sorted (l : list A) :
  StronglySorted (ascending key) (jsSort (fun a b => key a - key b) l).
Proof.
  induction l as [|x l IH]; simpl.
  - constructor.
  - apply insertSorted_sorted, IH.
Qed.

End SortByKey.

Lemma in_firstn {A : Type} (n : nat) (l : list A) (x : A) :
  In x (firstn n l) -> In x l.
Proof.
  intros H. rewrite <- (firstn_skipn n l). apply in_or_app. now left.
Qed.

Lemma in_skipn {A : Type} (n : nat) (l : list A) (x : A) :
  In x (skipn n l) -> In x l.
Proof.
  intros H. rewrite <- (firstn_skipn n l). apply in_or_app. now right.
Qed.

Lemma sorted_prefix_dominates {A : Type} (R : A -> A -> Prop) (n : nat)
  (l : list A) :
  StronglySorted R l ->
  forall x y, In x (firstn n l) -> In y (skipn n l) -> R x y.
Proof.
  intros Hs. revert n.
  induction Hs as [|a l Hs IH Hall]; intros n x y Hx Hy.
  - destruct n; simpl in Hx; contradiction.
  - destruct n as [|n]; simpl in Hx, Hy; [contradiction|].
    destruct Hx as [<-|Hx].
    + rewrite Forall_forall in Hall. apply Hall.
      eapply in_skipn; exact Hy.
    + eapply IH; eassumption.
Qed.

Lemma sorted_firstn {A : Type} (R : A -> A -> Prop) (n : nat) (l : list A) :
  StronglySorted R l -> StronglySorted R (firstn n l).
Proof.
  intros Hs. revert n.
  induction Hs as [|a l Hs IH Hall]; intros [|n]; simpl; try constructor.
  - apply IH.
  - rewrite Forall_forall in *. intros y Hy. apply Hall.
    eapply in_firstn; exact Hy.
Qed.

Lemma partition_by_filter {A : Type} (p : A -> bool) (l : list A) :
  Permutation l (filter p l ++ filter (fun x => negb (p x)) l).
Proof.
  induction l as [|x l IH]; simpl.
  - apply perm_nil.
  - destruct (p x); simpl.
    + apply perm_skip, IH.
    + apply Permutation_cons_app, IH.
Qed.

(** ** The sync protocol *)

Section BackendProperties.
Context {P : Platform}.

Lemma pullFilter_true (d : string) (since : option Z) (f : SyncedFile) :
  pullFilter d since f = true <->
  f_deviceId f <> d /\ (forall t, since = Some t -> t < f_syncedAt f).
Proof.
  unfold pullFilter.
  destruct (String.eqb (f_deviceId f) d) eqn:E.
  - apply String.eqb_eq in E. split; [discriminate | tauto].
  - apply String.eqb_neq in E.
    destruct since as [t|].
    + rewrite Z.ltb_lt. split.
      * intros H. split; [exact E|]. intros t' [= <-]. exact H.
      * intros [_ H]. now apply H.
    + split; [|reflexivity]. intros _. split; [exact E | discriminate].
Qed.

(** C3. With a valid credential, [pullSync] for device [d] returns one
    record per selected document, carrying that document's id, path,
    content, hash, modification time, version, [syncedAt] and device id.
    The selected documents are exactly the rows of the two catalog tables
    that belong to the user, whose last writer is not [d] and, when a
    cursor is supplied, whose [syncedAt] is strictly greater than it; the
    other rows of the user are exactly those left out; no returned record
    carries device id [d], with or without a cursor. *)
Theorem pull_returns_exactly_other_devices_after_cursor :
  forall (db : DB) (apiKey d : string) (since : option Z) (user : User),
    validateApiKeyInternal db apiKey = Some user ->
    exists (files rest : list SyncedFile) (result : list PulledFile),
      pullSync db apiKey d since = Returned result
      /\ result
         = map (fun f => mkPulled (f_id f) (f_filePath f) (f_content f)
                           (f_contentHash f) (f_lastModified f) (f_version f)
                           (f_syncedAt f) (f_deviceId f)) files
      /\ Permutation
           (filter (fun f => Nat.eqb (f_userId f) (u_id user))
                   (configTable db ++ sessionTable db))
           (files ++ rest)
      /\ (forall f, In f files ->
            f_deviceId f <> d
            /\ (forall t, since = Some t -> t < f_syncedAt f))
      /\ (forall f, In f rest ->
            ~ (f_deviceId f <> d
               /\ (forall t, since = Some t -> t < f_syncedAt f)))
      /\ (forall f, In f files <->
            (In f (configTable db) \/ In f (sessionTable db))
            /\ f_userId f = u_id user
            /\ f_deviceId f <> d
            /\ (forall t, since = Some t -> t < f_syncedAt f))
      /\ (forall r, In r result -> pl_deviceId r <> d).
Proof.
  intros db apiKey d since user Hvalid.
  assert (Hall : allFilesOf db (u_id user)
                 = filter (fun f => Nat.eqb (f_userId f) (u_id user))
                          (configTable db ++ sessionTable db)).
  { unfold allFilesOf, byUser. now rewrite filter_app. }
  exists (filter (pullFilter d since) (allFilesOf db (u_id user))).
  exists (filter (fun f => negb (pullFilter d since f))
                 (allFilesOf db (u_id user))).
  eexists.
  split; [unfold pullSync; rewrite Hvalid; reflexivity|].
  split; [reflexivity|].
  split; [rewrite <- Hall; apply partition_by_filter|].
  split.
  { intros f H. apply filter_In in H. now apply pullFilter_true. }
  split.
  { intros f H Hgood. apply filter_In in H as [_ H].
    apply pullFilter_true in Hgood. rewrite Hgood in H. discriminate. }
  split.
  { intros f. rewrite filter_In, pullFilter_true, Hall, filter_In, in_app_iff,
      Nat.eqb_eq. tauto. }
  intros r Hr. apply in_map_iff in Hr as (f & <- & Hf).
  apply filter_In in Hf as [_ Hf]. apply pullFilter_true in Hf.
  simpl. tauto.
Qed.

(** C8, as the code has it. Under a credential that does not resolve to a
    user, [pushSync] and [pullSync] throw the authentication error before
    any entry is processed and without a new database state, whereas
    [subscribeToChanges] returns the empty snapshot. *)
Theorem invalid_credential_gate :
  forall (db : DB) (now : Z) (limiter : nat -> LimitVerdict)
         (apiKey d : string) (files : list PushFile) (since : option Z),
    validateApiKeyInternal db apiKey = None ->
    pushSync db now limiter apiKey d files = Threw InvalidApiKey
    /\ pullSync db apiKey d since = Threw InvalidApiKey
    /\ subscribeToChanges db apiKey d = Returned ([], []).
Proof.
  intros db now limiter apiKey d files since Hbad.
  unfold pushSync, pullSync, subscribeToChanges.
  rewrite Hbad. repeat split.
Qed.

Lemma pushLoop_app (user : User) (d : string) (now : Z) (db : DB)
  (l1 l2 : list PushFile) :
  pushLoop user d now db (l1 ++ l2) =
  let '(db1, r1) := pushLoop user d now db l1 in
  let '(db2, r2) := pushLoop user d now db1 l2 in
  (db2, (r1 ++ r2)%list).
Proof.
  revert db. induction l1 as [|file l1 IH]; intros db; simpl.
  - now destruct (pushLoop user d now db l2).
  - destruct (pushFile user d now db file) as [db1 r].
    rewrite IH.
    destruct (pushLoop user d now db1 l1) as [db2 r1].
    now destruct (pushLoop user d now db2 l2).
Qed.

Lemma pushLoop_length (user : User) (d : string) (now : Z) (db : DB)
  (files : list PushFile) :
  List.length (snd (pushLoop user d now db files)) = List.length files.
Proof.
  revert db. induction files as [|file files IH]; intros db; simpl.
  - reflexivity.
  - destruct (pushFile user d now db file) as [db1 r].
    specialize (IH db1).
    destruct (pushLoop user d now db1 files) as [db2 rs].
    simpl in *. now rewrite IH.
Qed.

Lemma within_quota (user : User) (file : PushFile) :
  storageUsed user + byteLength (p_content file) <= storageLimit user ->
  (storageLimit user <? storageUsed user + byteLength (p_content file)) = false.
Proof. intros H. now apply Z.ltb_ge. Qed.

(** C1, as the code has it. An entry of a push (after the entries [pre],
    before the entries [post]) that passes the quota check and finds a
    stored entry for its path with a different hash and a different last
    writer creates exactly one Conflict record (A is the stored writer and
    content, B the pushing device and its content), is reported as
    "conflict" with the id of that record, and leaves both catalog tables
    and the user documents as they were. *)
Theorem push_conflict_recorded_within_quota :
  forall (db : DB) (now : Z) (limiter : nat -> LimitVerdict)
         (apiKey deviceId : string) (pre post : list PushFile)
         (file : PushFile) (user : User) (existing : SyncedFile),
    validateApiKeyInternal db apiKey = Some user ->
    ok (limiter (u_id user)) = true ->
    storageUsed user + byteLength (p_content file) <= storageLimit user ->
    stored (fst (pushLoop user deviceId now db pre)) (u_id user)
           (p_filePath file) = Some existing ->
    f_contentHash existing <> p_contentHash file ->
    f_deviceId existing <> deviceId ->
    let before := fst (pushLoop user deviceId now db pre) in
    let record :=
      mkConflict (nextId before) (u_id user) (p_filePath file)
        (f_deviceId existing) deviceId (f_content existing) (p_content file)
        now None None in
    let outcome :=
      mkPushResult (p_filePath file) conflict (Some (nextId before)) None in
    exists (after final : DB) (results : list PushResult),
      pushFile user deviceId now before file = (after, outcome)
      /\ syncConflicts after = (syncConflicts before ++ [record])%list
      /\ configTable after = configTable before
      /\ sessionTable after = sessionTable before
      /\ users after = users before
      /\ pushSync db now limiter apiKey deviceId (pre ++ file :: post)
         = Returned (final, results)
      /\ nth_error results (List.length pre) = Some outcome.
Proof.
  intros db now limiter apiKey deviceId pre post file user existing
         Hvalid Hok Hquota Hfound Hhash Hdev before record outcome.
  assert (Hstep : pushFile user deviceId now before file =
                  (fst (insertConflict before (fun id =>
                     mkConflict id (u_id user) (p_filePath file)
                       (f_deviceId existing) deviceId (f_content existing)
                       (p_content file) now None None)), outcome)).
  { unfold pushFile. rewrite (within_quota _ _ Hquota).
    unfold stored in Hfound. fold before in Hfound. rewrite Hfound.
    apply String.eqb_neq in Hhash. apply String.eqb_neq in Hdev.
    rewrite Hhash, Hdev. reflexivity. }
  pose proof (pushLoop_length user deviceId now db pre) as Hlen.
  unfold pushSync. rewrite Hvalid, Hok. simpl negb. cbv iota.
  rewrite pushLoop_app.
  subst before. destruct (pushLoop user deviceId now db pre) as [db1 r1] eqn:Epre.
  simpl fst in *. simpl snd in Hlen. simpl pushLoop.
  rewrite Hstep.
  destruct (pushLoop user deviceId now _ post) as [db2 r2] eqn:Epost.
  eexists _, _, _. repeat split.
  rewrite nth_error_app2 by lia.
  rewrite Hlen, Nat.sub_diag. reflexivity.
Qed.

Lemma find_map_same {A : Type} (p : A -> bool) (g : A -> A) (l : list A) :
  (forall r, p (g r) = p r) -> find p (map g l) = option_map g (find p l).
Proof.
  intros Hp. induction l as [|x l IH]; simpl; [reflexivity|].
  rewrite Hp. now destruct (p x).
Qed.

Lemma find_app_found {A : Type} (p : A -> bool) (l l' : list A) (x : A) :
  find p l = Some x -> find p (l ++ l') = Some x.
Proof.
  induction l as [|y l IH]; simpl; [discriminate|].
  now destruct (p y).
Qed.

Lemma find_app_new {A : Type} (p : A -> bool) (l : list A) (x : A) :
  find p l = None -> p x = true -> find p (l ++ [x]) = Some x.
Proof.
  intros Hnone Hx. induction l as [|y l IH]; simpl in *.
  - now rewrite Hx.
  - destruct (p y); [discriminate | now apply IH].
Qed.

Lemma NoDup_map_injective {A B : Type} (f : A -> B) (l : list A) (a b : A) :
  NoDup (map f l) -> In a l -> In b l -> f a = f b -> a = b.
Proof.
  induction l as [|x l IH]; simpl; intros Hnd Ha Hb Hf; [contradiction|].
  inversion Hnd as [|? ? Hnotin Hrest]; subst.
  destruct Ha as [->|Ha], Hb as [->|Hb].
  - reflexivity.
  - exfalso. apply Hnotin. rewrite Hf. now apply in_map.
  - exfalso. apply Hnotin. rewrite <- Hf. now apply in_map.
  - now apply IH.
Qed.

Lemma tableOf_setTable (db : DB) (t t' : TableName) (rows : list SyncedFile) :
  tableOf (setTable db t rows) t'
  = if sameTable t t' then rows else tableOf db t'.
Proof. now destruct t, t'. Qed.

(** What one turn of the push loop does to the catalog tables: nothing, an
    overwrite of the stored entry, or the append of a new document. *)
Lemma pushFile_effect (user : User) (d : string) (now : Z) (db : DB)
  (file : PushFile) :
  let path := p_filePath file in
  let T := table (categorizeFile path) in
  let db' := fst (pushFile user d now db file) in
  let r := snd (pushFile user d now db file) in
  apiKeys db' = apiKeys db
  /\ ((forall t, tableOf db' t = tableOf db t)
      /\ (nextId db <= nextId db')%nat
      /\ (r_status r = success ->
          exists existing, stored db (u_id user) path = Some existing
                           /\ f_contentHash existing = p_contentHash file)
      \/ (exists existing,
            stored db (u_id user) path = Some existing
            /\ nextId db' = nextId db
            /\ forall t, tableOf db' t
                         = if sameTable T t
                           then patchRows f_id (f_id existing)
                                  (overwrite d now file existing)
                                  (tableOf db t)
                           else tableOf db t)
      \/ (stored db (u_id user) path = None
          /\ nextId db' = S (nextId db)
          /\ forall t, tableOf db' t
                       = if sameTable T t
                         then (tableOf db t
                               ++ [newDocument user d now
                                     (categorizeFile path) file (nextId db)])%list
                         else tableOf db t)).
Proof.
  intros path T db' r. subst db' r. unfold pushFile. fold path. fold T.
  destruct (storageLimit user <? storageUsed user + byteLength (p_content file)).
  { split; [reflexivity|]. left. repeat split; auto. discriminate. }
  change (byUserAndPath (tableOf db T) (u_id user) path)
    with (stored db (u_id user) path).
  destruct (stored db (u_id user) path) as [existing|] eqn:Hfound.
  - destruct (String.eqb (f_contentHash existing) (p_contentHash file)) eqn:Eh.
    { split; [reflexivity|]. left. repeat split; auto. intros _.
      exists existing. split; [reflexivity | now apply String.eqb_eq]. }
    simpl negb at 1. simpl andb.
    destruct (String.eqb (f_deviceId existing) d); simpl negb; cbv iota;
      simpl fst; simpl snd.
    + split; [now destruct T|]. right. left. exists existing.
      split; [reflexivity|]. split; [now destruct T|].
      intros t. unfold patchFile. destruct T, t; reflexivity.
    + split; [reflexivity|]. left.
      split; [reflexivity|]. split; [simpl; lia | discriminate].
  - simpl fst; simpl snd.
    split; [now destruct T|]. right. right.
    split; [reflexivity|]. split; [now destruct T|].
    intros t. destruct T, t; reflexivity.
Qed.

Lemma pushFile_wellKeyed (user : User) (d : string) (now : Z) (db : DB)
  (file : PushFile) :
  wellKeyed db -> wellKeyed (fst (pushFile user d now db file)).
Proof.
  intros Hwf.
  destruct (pushFile_effect user d now db file)
    as (_ & [(Htab & Hnext & _) | [(ex & _ & Hnext & Htab) | (_ & Hnext & Htab)]]);
    intros t; destruct (Hwf t) as [Hnd Hlt].
  - rewrite Htab. split; [exact Hnd|]. intros r Hr. specialize (Hlt r Hr). lia.
  - rewrite Htab, Hnext. destruct (sameTable _ t); [|now split].
    assert (Hids : map f_id (patchRows f_id (f_id ex)
                               (overwrite d now file ex) (tableOf db t))
                   = map f_id (tableOf db t)).
    { unfold patchRows. rewrite map_map. apply map_ext.
      intros r. now destruct (Nat.eqb (f_id r) (f_id ex)). }
    split; [now rewrite Hids|].
    intros r Hr. unfold patchRows in Hr.
    apply in_map_iff in Hr as (r0 & <- & Hr0). specialize (Hlt r0 Hr0).
    now destruct (Nat.eqb (f_id r0) (f_id ex)).
  - rewrite Htab, Hnext. destruct (sameTable _ t).
    + split.
      * rewrite map_app. simpl.
        eapply Permutation_NoDup; [apply Permutation_cons_append|].
        constructor; [|exact Hnd].
        intros Hin. apply in_map_iff in Hin as (r & Hid & Hr).
        specialize (Hlt r Hr). lia.
      * intros r Hr. apply in_app_or in Hr as [Hr|[<-|[]]].
        -- specialize (Hlt r Hr). lia.
        -- simpl. lia.
    + split; [exact Hnd|]. intros r Hr. specialize (Hlt r Hr). lia.
Qed.

Lemma pushFile_success_is_stored (user : User) (d : string) (now : Z)
  (db : DB) (file : PushFile) :
  r_status (snd (pushFile user d now db file)) = success ->
  exists row,
    stored (fst (pushFile user d now db file)) (u_id user) (p_filePath file)
    = Some row
    /\ f_contentHash row = p_contentHash file.
Proof.
  intros Hok. unfold stored at 1.
  destruct (pushFile_effect user d now db file)
    as (_ & [(Htab & _ & Hmatch) | [(ex & Hfound & _ & Htab) | (Hnone & _ & Htab)]]);
    rewrite Htab.
  - exact (Hmatch Hok).
  - assert (Hsame : sameTable (table (categorizeFile (p_filePath file)))
                      (table (categorizeFile (p_filePath file))) = true)
      by now destruct (table _).
    rewrite Hsame. unfold byUserAndPath, patchRows.
    rewrite find_map_same.
    + unfold stored, byUserAndPath in Hfound. rewrite Hfound. simpl.
      rewrite Nat.eqb_refl. eexists. split; reflexivity.
    + intros r. now destruct (Nat.eqb (f_id r) (f_id ex)).
  - assert (Hsame : sameTable (table (categorizeFile (p_filePath file)))
                      (table (categorizeFile (p_filePath file))) = true)
      by now destruct (table _).
    rewrite Hsame. unfold byUserAndPath.
    erewrite find_app_new; [eexists; split; reflexivity | exact Hnone |].
    simpl. now rewrite Nat.eqb_refl, String.eqb_refl.
Qed.

Lemma pushFile_keeps_other_paths (user : User) (d : string) (now : Z)
  (db : DB) (file : PushFile) (path : string) (row : SyncedFile) :
  wellKeyed db -> p_filePath file <> path ->
  stored db (u_id user) path = Some row ->
  stored (fst (pushFile user d now db file)) (u_id user) path = Some row.
Proof.
  intros Hwf Hother Hrow. unfold stored at 1.
  destruct (pushFile_effect user d now db file)
    as (_ & [(Htab & _ & _) | [(ex & Hfound & _ & Htab) | (_ & _ & Htab)]]);
    rewrite Htab; try exact Hrow.
  - destruct (sameTable _ _) eqn:Esame; [|exact Hrow].
    assert (HT : table (categorizeFile (p_filePath file))
                 = table (categorizeFile path))
      by (destruct (table (categorizeFile (p_filePath file))),
                   (table (categorizeFile path)); now try discriminate).
    unfold stored, byUserAndPath in Hrow, Hfound. rewrite HT in Hfound.
    apply find_some in Hrow as Hr. apply find_some in Hfound as He.
    destruct Hr as [Hrin Hrp], He as [Hein Hep].
    apply andb_prop in Hrp as [_ Hrpath], Hep as [_ Hepath].
    apply String.eqb_eq in Hrpath, Hepath.
    unfold byUserAndPath, patchRows. rewrite find_map_same.
    + rewrite Hrow. simpl.
      destruct (Nat.eqb (f_id row) (f_id ex)) eqn:Eid; [|reflexivity].
      apply Nat.eqb_eq in Eid.
      pose proof (NoDup_map_injective f_id _ row ex
                    (proj1 (Hwf _)) Hrin Hein Eid) as Heq.
      subst row. congruence.
    + intros r. now destruct (Nat.eqb (f_id r) (f_id ex)).
  - destruct (sameTable _ _); [|exact Hrow].
    unfold byUserAndPath. apply find_app_found. exact Hrow.
Qed.

Lemma pushLoop_keeps_other_paths (user : User) (d : string) (now : Z)
  (files : list PushFile) (db : DB) (path : string) (row : SyncedFile) :
  wellKeyed db -> ~ In path (map p_filePath files) ->
  stored db (u_id user) path = Some row ->
  stored (fst (pushLoop user d now db files)) (u_id user) path = Some row.
Proof.
  revert db. induction files as [|file files IH]; intros db Hwf Hnot Hrow.
  - exact Hrow.
  - simpl.
    pose proof (pushFile_wellKeyed user d now db file Hwf) as Hwf1.
    pose proof (pushFile_keeps_other_paths user d now db file path row Hwf
                  ltac:(intros Heq; apply Hnot; left; exact Heq) Hrow) as H1.
    destruct (pushFile user d now db file) as [db1 r]. simpl in Hwf1, H1.
    specialize (IH db1 Hwf1 ltac:(intros Hin; apply Hnot; right; exact Hin) H1).
    destruct (pushLoop user d now db1 files) as [db2 rs]. exact IH.
Qed.

Lemma pushLoop_success_is_stored (user : User) (d : string) (now : Z)
  (files : list PushFile) (db : DB) :
  wellKeyed db -> NoDup (map p_filePath files) ->
  Forall (fun r => r_status r = success)
         (snd (pushLoop user d now db files)) ->
  forall file, In file files ->
    exists row,
      stored (fst (pushLoop user d now db files)) (u_id user)
             (p_filePath file) = Some row
      /\ f_contentHash row = p_contentHash file.
Proof.
  revert db. induction files as [|file0 files IH]; intros db Hwf Hnd Hall file Hin.
  - contradiction.
  - simpl in *. inversion Hnd as [|? ? Hnotin Hrest]; subst.
    pose proof (pushFile_wellKeyed user d now db file0 Hwf) as Hwf1.
    pose proof (pushFile_success_is_stored user d now db file0) as Hst.
    pose proof (pushLoop_keeps_other_paths user d now files
                  (fst (pushFile user d now db file0)) (p_filePath file0))
      as Hkeep.
    specialize (IH (fst (pushFile user d now db file0)) Hwf1 Hrest).
    destruct (pushFile user d now db file0) as [db1 r]. simpl in *.
    destruct (pushLoop user d now db1 files) as [db2 rs]. simpl in *.
    inversion Hall as [|? ? Hr Hrs]; subst.
    destruct Hin as [<-|Hin].
    + destruct (Hst Hr) as (row & Hrow & Hh).
      exists row. split; [|exact Hh]. now apply Hkeep.
    + now apply IH.
Qed.

Lemma pushLoop_apiKeys (user : User) (d : string) (now : Z)
  (files : list PushFile) (db : DB) :
  apiKeys (fst (pushLoop user d now db files)) = apiKeys db.
Proof.
  revert db. induction files as [|file files IH]; intros db; simpl.
  - reflexivity.
  - pose proof (pushFile_effect user d now db file) as [Hk _].
    destruct (pushFile user d now db file) as [db1 r]. simpl in Hk.
    specialize (IH db1).
    destruct (pushLoop user d now db1 files) as [db2 rs]. simpl in *.
    congruence.
Qed.

Lemma validate_user_id (db : DB) (apiKey : string) (user : User) :
  validateApiKeyInternal db apiKey = Some user ->
  exists k, find (fun k => String.eqb (k_keyHash k) (hashApiKey apiKey))
                 (apiKeys db) = Some k
            /\ u_id user = k_userId k.
Proof.
  unfold validateApiKeyInternal, getUser.
  destruct (find _ (apiKeys db)) as [k|]; [|discriminate].
  destruct (revoked k); [discriminate|].
  intros H. apply find_some in H as [_ H]. apply Nat.eqb_eq in H.
  exists k. now split.
Qed.

Lemma pushLoop_noop (user : User) (d : string) (now : Z)
  (files : list PushFile) (db : DB) :
  (forall file, In file files ->
     storageUsed user + byteLength (p_content file) <= storageLimit user
     /\ exists existing,
          stored db (u_id user) (p_filePath file) = Some existing
          /\ f_contentHash existing = p_contentHash file) ->
  pushLoop user d now db files = (db, map succeeded files).
Proof.
  induction files as [|file files IH]; intros Hall; simpl.
  - reflexivity.
  - destruct (Hall file (or_introl eq_refl)) as (Hq & existing & Hfound & Hh).
    unfold pushFile at 1. unfold stored in Hfound.
    rewrite (within_quota _ _ Hq), Hfound.
    apply String.eqb_eq in Hh. rewrite Hh.
    rewrite IH; [reflexivity|].
    intros f Hf. apply Hall. now right.
Qed.

End BackendProperties.

(** ** The conflict resolver *)

Lemma assoc_defineProp (props : list (string * JsValue)) (k' : string)
  (v : JsValue) (k : string) :
  assoc k (defineProp props k' v) =
  if String.eqb k' k then Some v else assoc k props.
Proof.
  induction props as [|[k1 v1] rest IH]; simpl.
  - reflexivity.
  - destruct (String.eqb k1 k') eqn:E1; simpl.
    + apply String.eqb_eq in E1. subst k1.
      now destruct (String.eqb k' k).
    + rewrite IH. destruct (String.eqb k' k) eqn:E2; [|reflexivity].
      apply String.eqb_eq in E2. subst k'. now rewrite E1.
Qed.

Lemma keys_defineProp (props : list (string * JsValue)) (k : string)
  (v : JsValue) (x : string) :
  In x (map fst (defineProp props k v)) <-> x = k \/ In x (map fst props).
Proof.
  induction props as [|[k1 v1] rest IH]; simpl.
  - intuition.
  - destruct (String.eqb k1 k) eqn:E; simpl.
    + apply String.eqb_eq in E. subst k1. intuition.
    + rewrite IH. intuition.
Qed.

Lemma NoDup_defineProp (props : list (string * JsValue)) (k : string)
  (v : JsValue) :
  NoDup (map fst props) -> NoDup (map fst (defineProp props k v)).
Proof.
  induction props as [|[k1 v1] rest IH]; simpl; intros Hnd.
  - constructor; [intros [] | constructor].
  - inversion Hnd as [|? ? Hnotin Hrest]; subst.
    destruct (String.eqb k1 k) eqn:E; simpl.
    + constructor; assumption.
    + constructor; [|now apply IH].
      rewrite keys_defineProp. intros [->|Hin]; [|contradiction].
      now rewrite String.eqb_refl in E.
Qed.

Lemma assoc_absent {V : Type} (k : string) (props : list (string * V)) :
  ~ In k (map fst props) -> assoc k props = None.
Proof.
  induction props as [|[k1 v1] rest IH]; simpl; intros Hnot.
  - reflexivity.
  - destruct (String.eqb k1 k) eqn:E.
    + apply String.eqb_eq in E. subst. exfalso. apply Hnot. now left.
    + apply IH. intros Hin. apply Hnot. now right.
Qed.

Lemma copy_members (source : JsValue) (target : list (string * JsValue)) :
  NoDup (map fst (ownEntries source)) ->
  NoDup (map fst target) ->
  NoDup (map fst (copyDataProperties target source))
  /\ forall k,
       assoc k (copyDataProperties target source) =
       match assoc k (ownEntries source) with
       | Some v => Some v
       | None => assoc k target
       end.
Proof.
  unfold copyDataProperties.
  generalize (ownEntries source) as entries. intros entries. revert target.
  induction entries as [|[k1 v1] rest IH]; intros target Hs Ht; simpl.
  - split; [exact Ht | reflexivity].
  - inversion Hs as [|? ? Hnotin Hrest]; subst.
    destruct (IH (defineProp target k1 v1) Hrest (NoDup_defineProp _ _ _ Ht))
      as [Hnd Hassoc].
    split; [exact Hnd|].
    intros k. rewrite Hassoc, assoc_defineProp.
    destruct (String.eqb k1 k) eqn:E; [|reflexivity].
    apply String.eqb_eq in E. subst k1.
    now rewrite (assoc_absent _ _ Hnotin).
Qed.

Section ResolverProperties.
Context {P : Platform}.

Lemma resolveConflict_returns (db : DB) (now : Z) (apiKey : string)
  (conflictId : nat) (resolution : Resolution) (manualContent : option string)
  (d : string) (user : User) (c : Conflict) (finalContent : string) :
  validateApiKeyInternal db apiKey = Some user ->
  find (fun c => Nat.eqb (c_id c) conflictId) (syncConflicts db) = Some c ->
  c_userId c = u_id user ->
  finalContentOf c resolution manualContent d = Some finalContent ->
  exists db',
    resolveConflict db now apiKey conflictId resolution manualContent d
    = Returned (db', finalContent).
Proof.
  intros Hvalid Hfind Howner Hfinal.
  unfold resolveConflict.
  rewrite Hvalid, Hfind, Howner, Nat.eqb_refl, Hfinal. simpl negb. cbv iota.
  eexists. reflexivity.
Qed.

(** C10. For a conflict of the caller, [keep_local] compares the resolving
    device id with [deviceAId] only: the resolution succeeds and returns
    [contentA] when they are equal and [contentB] otherwise, and
    [keep_remote] returns the opposite side; so a device id that matches
    neither recorded device gets [contentB] from [keep_local] and
    [contentA] from [keep_remote]. *)
Theorem keep_local_compares_with_deviceA_only :
  forall (db : DB) (now : Z) (apiKey : string) (conflictId : nat)
         (manualContent : option string) (d : string) (user : User)
         (c : Conflict),
    validateApiKeyInternal db apiKey = Some user ->
    find (fun c => Nat.eqb (c_id c) conflictId) (syncConflicts db) = Some c ->
    c_userId c = u_id user ->
    exists (dbL dbR : DB) (contentL contentR : string),
      resolveConflict db now apiKey conflictId keep_local manualContent d
      = Returned (dbL, contentL)
      /\ resolveConflict db now apiKey conflictId keep_remote manualContent d
         = Returned (dbR, contentR)
      /\ (c_deviceAId c = d ->
          contentL = c_contentA c /\ contentR = c_contentB c)
      /\ (c_deviceAId c <> d ->
          contentL = c_contentB c /\ contentR = c_contentA c)
      /\ (c_deviceAId c <> d -> c_deviceBId c <> d ->
          contentL = c_contentB c /\ contentR = c_contentA c).
Proof.
  intros db now apiKey conflictId manualContent d user c Hvalid Hfind Howner.
  destruct (resolveConflict_returns db now apiKey conflictId keep_local
              manualContent d user c _ Hvalid Hfind Howner eq_refl)
    as [dbL HL].
  destruct (resolveConflict_returns db now apiKey conflictId keep_remote
              manualContent d user c _ Hvalid Hfind Howner eq_refl)
    as [dbR HR].
  exists dbL, dbR. eexists. eexists.
  split; [exact HL|]. split; [exact HR|].
  destruct (String.eqb (c_deviceAId c) d) eqn:E.
  - apply String.eqb_eq in E. repeat split; intros; try contradiction; auto.
  - apply String.eqb_neq in E. repeat split; intros; try contradiction; auto.
Qed.

(** C5. For a conflict of the caller on a path ending in [.json],
    [keep_both] succeeds, and its content depends on the two sides only:
    every run, at any time and from any device, returns the same content.
    When both sides parse it is the indented serialization of the shallow
    merge of their members (for a key-value document, its keys and
    values), where a key of the B side carries the B value and any other
    key the A value; when either side does not parse it is the text of
    the A side under the line [<<<<<<< VERSION A], the line [=======], and
    the text of the B side followed by the line [>>>>>>> VERSION B]. *)
Theorem keep_both_merges_json_documents :
  forall (db : DB) (apiKey : string) (conflictId : nat) (user : User)
         (c : Conflict),
    validateApiKeyInternal db apiKey = Some user ->
    find (fun c => Nat.eqb (c_id c) conflictId) (syncConflicts db) = Some c ->
    c_userId c = u_id user ->
    endsWith (c_filePath c) ".json" = true ->
    exists content : string,
      (forall (now : Z) (manualContent : option string) (d : string),
         exists db' : DB,
           resolveConflict db now apiKey conflictId keep_both manualContent d
           = Returned (db', content))
      /\ (forall objA objB,
            JSON_parse (c_contentA c) = Some objA ->
            JSON_parse (c_contentB c) = Some objB ->
            NoDup (map fst (ownEntries objA)) ->
            NoDup (map fst (ownEntries objB)) ->
            exists merged,
              content = JSON_stringify_indent2 (JObject merged)
              /\ NoDup (map fst merged)
              /\ forall k,
                   assoc k merged =
                   match assoc k (ownEntries objB) with
                   | Some v => Some v
                   | None => assoc k (ownEntries objA)
                   end)
      /\ (JSON_parse (c_contentA c) = None
          \/ JSON_parse (c_contentB c) = None ->
          content
          = "<<<<<<< VERSION A" ++ nl ++ c_contentA c ++ nl
            ++ "=======" ++ nl ++ c_contentB c ++ nl
            ++ ">>>>>>> VERSION B").
Proof.
  intros db apiKey conflictId user c Hvalid Hfind Howner Hjson.
  exists (mergeJSON (c_contentA c) (c_contentB c)).
  split; [|split].
  - intros now manualContent d.
    destruct (resolveConflict_returns db now apiKey conflictId keep_both
                manualContent d user c _ Hvalid Hfind Howner eq_refl)
      as [db' Hres].
    rewrite Hjson in Hres. exists db'. exact Hres.
  - intros objA objB Ha Hb Hnda Hndb.
    unfold mergeJSON. rewrite Ha, Hb. unfold spread2.
    destruct (copy_members objA [] Hnda (NoDup_nil _)) as [Hnd1 Has1].
    destruct (copy_members objB _ Hndb Hnd1) as [Hnd2 Has2].
    eexists. split; [reflexivity|]. split; [exact Hnd2|].
    intros k. rewrite Has2, Has1.
    destruct (assoc k (ownEntries objB)); [reflexivity|].
    now destruct (assoc k (ownEntries objA)).
  - intros [Ha|Hb]; unfold mergeJSON, versionMarkers.
    + now rewrite Ha.
    + rewrite Hb. now destruct (JSON_parse (c_contentA c)).
Qed.

End ResolverProperties.

(** ** More on the sort *)

(** The binary search of the reference sort never runs out of turns: one
    turn more than the width of the interval gives the answer that any
    larger number of turns gives. *)
Lemma insertionPoint_turns_suffice (cmp : JsValue -> JsValue -> Z)
  (pivot : JsValue) (work : list JsValue) (turns : nat) :
  forall left right,
    (right - left < turns)%nat ->
    Reference.insertionPoint (S turns) cmp pivot work left right
    = Reference.insertionPoint turns cmp pivot work left right.
Proof.
  induction turns as [|turns IH]; intros left right Hwidth; [lia|].
  change (Reference.insertionPoint (S (S turns)) cmp pivot work left right)
    with (if (left <? right)%nat then
            match nth_error work (left + Nat.div2 (right - left)) with
            | Some element =>
                if cmp pivot element <? 0
                then Reference.insertionPoint (S turns) cmp pivot work left
                       (left + Nat.div2 (right - left))
                else Reference.insertionPoint (S turns) cmp pivot work
                       (S (left + Nat.div2 (right - left))) right
            | None => left
            end
          else left).
  change (Reference.insertionPoint (S turns) cmp pivot work left right)
    with (if (left <? right)%nat then
            match nth_error work (left + Nat.div2 (right - left)) with
            | Some element =>
                if cmp pivot element <? 0
                then Reference.insertionPoint turns cmp pivot work left
                       (left + Nat.div2 (right - left))
                else Reference.insertionPoint turns cmp pivot work
                       (S (left + Nat.div2 (right - left))) right
            | None => left
            end
          else left).
  destruct (left <? right)%nat eqn:E; [|reflexivity].
  apply Nat.ltb_lt in E.
  assert (Hhalf : (Nat.div2 (right - left) < right - left)%nat)
    by (apply Nat.lt_div2; lia).
  set (half := Nat.div2 (right - left)) in *. clearbody half.
  destruct (nth_error work (left + half)) as [element|]; [|reflexivity].
  destruct (cmp pivot element <? 0); apply IH; lia.
Qed.

Lemma insertSorted_ext {A : Type} (cmp cmp' : A -> A -> Z) (x : A)
  (l : list A) :
  (forall y, In y l -> cmp x y = cmp' x y) ->
  insertSorted cmp x l = insertSorted cmp' x l.
Proof.
  induction l as [|y l IH]; simpl; intros Hagree.
  - reflexivity.
  - rewrite <- (Hagree y (or_introl eq_refl)).
    destruct (cmp x y <=? 0); [reflexivity|].
    f_equal. apply IH. intros z Hz. apply Hagree. now right.
Qed.

Lemma jsSort_ext_in {A : Type} (cmp cmp' : A -> A -> Z) (l : list A) :
  (forall x y, In x l -> In y l -> cmp x y = cmp' x y) ->
  jsSort cmp l = jsSort cmp' l.
Proof.
  induction l as [|x l IH]; simpl; intros Hagree.
  - reflexivity.
  - rewrite IH by (intros; apply Hagree; now right).
    apply insertSorted_ext. intros y Hy.
    apply Hagree; [now left | right].
    eapply Permutation_in; [apply Permutation_sym, jsSort_perm | exact Hy].
Qed.



Lemma jsSort_sorted_descending {A : Type} (key : A -> Z) (l : list A) :
  StronglySorted (descending key) (jsSort (fun a b => key b - key a) l).
Proof.
  rewrite (jsSort_ext_in _ (fun a b => (fun x => - key x) a
                                      - (fun x => - key x) b)).
  - pose proof (jsSort_sorted (fun x => - key x) l) as Hs.
    eapply StronglySorted_ind with
      (P := fun l => StronglySorted (descending key) l); [| |exact Hs].
    + constructor.
    + intros a l' _ IH Hall. constructor; [exact IH|].
      eapply Forall_impl; [|exact Hall].
      unfold ascending, descending. intros; lia.
  - intros; lia.
Qed.

(** ** The [Map] of the line merge *)

Lemma sameValueZero_eq (a b : JsValue) : sameValueZero a b = true -> a = b.
Proof.
  destruct a, b; simpl; try discriminate; intros H.
  - reflexivity.
  - apply Bool.eqb_prop in H. now subst.
  - apply Z.eqb_eq in H. now subst.
  - apply String.eqb_eq in H. now subst.
Qed.

Lemma sameValueZero_refl (a : JsValue) :
  primitive a -> sameValueZero a a = true.
Proof.
  destruct a; simpl; intros H; try contradiction.
  - reflexivity.
  - apply Bool.eqb_reflx.
  - apply Z.eqb_refl.
  - apply String.eqb_refl.
Qed.

Lemma sameValueZero_neq (a b : JsValue) :
  primitive b -> sameValueZero a b = false -> a <> b.
Proof.
  intros Hp Hf ->. rewrite (sameValueZero_refl b Hp) in Hf. discriminate.
Qed.

Lemma mapGet_in (m : JsMap) (k v : JsValue) :
  mapGet m k = Some v -> In (k, v) m.
Proof.
  induction m as [|[k1 v1] rest IH]; simpl; [discriminate|].
  destruct (sameValueZero k1 k) eqn:E.
  - intros [= <-]. apply sameValueZero_eq in E. subst. now left.
  - intros H. right. now apply IH.
Qed.

Lemma mapGet_absent (m : JsMap) (k : JsValue) :
  primitive k -> mapGet m k = None -> ~ In k (map fst m).
Proof.
  intros Hp. induction m as [|[k1 v1] rest IH]; simpl; [tauto|].
  destruct (sameValueZero k1 k) eqn:E; [discriminate|].
  intros H [Heq|Hin].
  - subst k1. rewrite (sameValueZero_refl k Hp) in E. discriminate.
  - now apply IH.
Qed.

Lemma mapSet_absent (m : JsMap) (k v : JsValue) :
  mapGet m k = None -> mapSet m k v = (m ++ [(k, v)])%list.
Proof.
  induction m as [|[k1 v1] rest IH]; simpl; [reflexivity|].
  destruct (sameValueZero k1 k); [discriminate|].
  intros H. now rewrite IH.
Qed.

Lemma mapGet_mapSet_same (m : JsMap) (k v : JsValue) :
  primitive k -> mapGet (mapSet m k v) k = Some v.
Proof.
  intros Hp. induction m as [|[k1 v1] rest IH]; simpl.
  - now rewrite (sameValueZero_refl k Hp).
  - destruct (sameValueZero k1 k) eqn:E; simpl; rewrite E; [reflexivity|].
    exact IH.
Qed.

Lemma mapGet_mapSet_other (m : JsMap) (k v k0 : JsValue) :
  primitive k0 -> sameValueZero k k0 = false ->
  mapGet (mapSet m k v) k0 = mapGet m k0.
Proof.
  intros Hp Hne. induction m as [|[k1 v1] rest IH]; simpl.
  - now rewrite Hne.
  - destruct (sameValueZero k1 k) eqn:E; simpl.
    + destruct (sameValueZero k1 k0) eqn:E0; [|reflexivity].
      apply sameValueZero_eq in E, E0. subst.
      rewrite (sameValueZero_refl k0 Hp) in Hne. discriminate.
    + destruct (sameValueZero k1 k0); [reflexivity | exact IH].
Qed.

Lemma mapSet_present (m : JsMap) (k v old : JsValue) :
  primitive k -> NoDup (map fst m) -> In (k, old) m ->
  map fst (mapSet m k v) = map fst m
  /\ In (k, v) (mapSet m k v)
  /\ (forall k' v', In (k', v') m -> k' <> k -> In (k', v') (mapSet m k v))
  /\ (forall k' v', In (k', v') (mapSet m k v) ->
        (k' = k /\ v' = v) \/ In (k', v') m).
Proof.
  intros Hp. induction m as [|[k1 v1] rest IH]; simpl; intros Hnd Hin.
  - contradiction.
  - inversion Hnd as [|? ? Hnotin Hrest]; subst.
    destruct (sameValueZero k1 k) eqn:E; simpl.
    + apply sameValueZero_eq in E. subst k1.
      split; [reflexivity|]. split; [now left|]. split.
      * intros k' v' [[= <- <-]|H] Hne; [contradiction | now right].
      * intros k' v' [[= <- <-]|H]; [now left | right; now right].
    + pose proof (sameValueZero_neq _ _ Hp E) as Hne1.
      destruct Hin as [[= -> ->]|Hin]; [contradiction|].
      destruct (IH Hrest Hin) as (Hkeys & Hnew & Hkeep & Hfrom).
      split; [now rewrite Hkeys|]. split; [now right|]. split.
      * intros k' v' [[= <- <-]|H] Hne; [now left | right; now apply Hkeep].
      * intros k' v' [[= <- <-]|H]; [right; now left|].
        destruct (Hfrom _ _ H) as [?|?]; [now left | right; now right].
Qed.

Lemma NoDup_keys_functional (m : JsMap) (k v1 v2 : JsValue) :
  NoDup (map fst m) -> In (k, v1) m -> In (k, v2) m -> v1 = v2.
Proof.
  induction m as [|[k0 v0] rest IH]; simpl; intros Hnd H1 H2; [contradiction|].
  inversion Hnd as [|? ? Hnotin Hrest]; subst.
  destruct H1 as [[= -> ->]|H1], H2 as [[= <-]|H2].
  - reflexivity.
  - exfalso. apply Hnotin. now apply (in_map fst) in H2.
  - subst. exfalso. apply Hnotin. now apply (in_map fst) in H1.
  - now apply IH.
Qed.

(** ** The line merge *)

Section LineMerge.
Context {P : Platform}.

Lemma record_timestamp (line : string) (obj : JsValue) :
  recordLine line obj ->
  0 <= timestampOf obj
  /\ orValue (getProp obj "timestamp") (JNumber 0) = JNumber (timestampOf obj).
Proof.
  intros (_ & _ & _ & [Hnone | (t & Hsome & Hpos)]); unfold timestampOf.
  - rewrite Hnone. simpl. split; [lia | reflexivity].
  - rewrite Hsome. simpl. split; [exact Hpos|].
    destruct (t =? 0) eqn:E; simpl; [|reflexivity].
    apply Z.eqb_eq in E. now subst.
Qed.

Lemma addLine_record (done : list string) (m : JsMap) (line : string)
  (obj : JsValue) :
  mergedSoFar done m -> recordLine line obj ->
  mergedSoFar (done ++ [line]) (addLine m line).
Proof.
  intros (Hnd & Hentries & Hdom) Hrec.
  pose proof Hrec as (Hparse & (props & Hobj) & Hprim & Hts).
  assert (Hstep : addLine m line =
                  match mapGet m (identityOf obj line) with
                  | None => mapSet m (identityOf obj line) obj
                  | Some existing =>
                      match getProp obj "timestamp" with
                      | Some ts =>
                          if truthy ts
                             && jsGreater ts
                                  (orValue (getProp existing "timestamp")
                                           (JNumber 0))
                          then mapSet m (identityOf obj line) obj
                          else m
                      | None => m
                      end
                  end).
  { unfold addLine. rewrite Hparse. subst obj. reflexivity. }
  set (id := identityOf obj line) in *.
  assert (Hold : forall k v, In (k, v) m ->
            exists l, In l (done ++ [line])%list /\ recordLine l v
                      /\ identityOf v l = k).
  { intros k v Hin. destruct (Hentries k v Hin) as (l & Hl & Hr & Hid).
    exists l. split; [apply in_or_app; now left | now split]. }
  assert (Hself : In line (done ++ [line])%list)
    by (apply in_or_app; right; now left).
  destruct (mapGet m id) as [existing|] eqn:Hget.
  - (* an entry is stored under this identity *)
    apply mapGet_in in Hget.
    destruct (Hentries _ _ Hget) as (le & Hle & Hrece & Hide).
    destruct (record_timestamp _ _ Hrece) as [Hpose Hore].
    destruct (record_timestamp _ _ Hrec) as [Hposo _].
    assert (Hkeep : timestampOf obj <= timestampOf existing ->
                    mergedSoFar (done ++ [line]) m).
    { intros Hle'. split; [exact Hnd|]. split; [exact Hold|].
      intros l o Hl Hpo. apply in_app_or in Hl as [Hl|[<-|[]]].
      - now apply Hdom.
      - rewrite Hparse in Hpo. injection Hpo as <-.
        exists existing. now split. }
    assert (Hreplace : timestampOf existing < timestampOf obj ->
                       mergedSoFar (done ++ [line]) (mapSet m id obj)).
    { intros Hlt.
      destruct (mapSet_present m id obj existing Hprim Hnd Hget)
        as (Hkeys & Hnew & Hothers & Hfrom).
      split; [now rewrite Hkeys|]. split.
      - intros k v Hin. destruct (Hfrom _ _ Hin) as [[-> ->]|Hin'].
        + exists line. split; [exact Hself | split; [exact Hrec | reflexivity]].
        + now apply Hold.
      - intros l o Hl Hpo. apply in_app_or in Hl as [Hl|[<-|[]]].
        + destruct (Hdom l o Hl Hpo) as (s & Hs & Hles).
          destruct (sameValueZero (identityOf o l) id) eqn:E.
          * apply sameValueZero_eq in E. rewrite E in *.
            pose proof (NoDup_keys_functional _ _ _ _ Hnd Hs Hget). subst s.
            exists obj. split; [exact Hnew | lia].
          * exists s. split; [|exact Hles].
            apply Hothers; [exact Hs|].
            now apply sameValueZero_neq.
        + rewrite Hparse in Hpo. injection Hpo as <-.
          exists obj. split; [exact Hnew | lia]. }
    rewrite Hstep.
    destruct Hts as [Hnone | (t & Hsome & Hpos)].
    + rewrite Hnone. apply Hkeep. unfold timestampOf at 1. rewrite Hnone. lia.
    + rewrite Hsome, Hore. simpl truthy. simpl jsGreater.
      assert (Ht : timestampOf obj = t)
        by (unfold timestampOf; now rewrite Hsome).
      destruct (negb (t =? 0) && (timestampOf existing <? t)) eqn:Econd.
      * apply andb_prop in Econd as [_ Hlt]. apply Z.ltb_lt in Hlt.
        apply Hreplace. lia.
      * apply Hkeep. apply Bool.andb_false_iff in Econd as [Hz|Hge].
        -- apply Bool.negb_false_iff, Z.eqb_eq in Hz. lia.
        -- apply Z.ltb_ge in Hge. lia.
  - (* a new identity *)
    rewrite Hstep, (mapSet_absent _ _ _ Hget).
    pose proof (mapGet_absent _ _ Hprim Hget) as Hfresh.
    split.
    { rewrite map_app. simpl.
      apply Permutation_NoDup with (l := id :: map fst m).
      - apply Permutation_cons_append.
      - now constructor. }
    split.
    + intros k v Hin. apply in_app_or in Hin as [Hin|[[= <- <-]|[]]].
      * now apply Hold.
      * exists line. split; [exact Hself | split; [exact Hrec | reflexivity]].
    + intros l o Hl Hpo. apply in_app_or in Hl as [Hl|[<-|[]]].
      * destruct (Hdom l o Hl Hpo) as (s & Hs & Hles).
        exists s. split; [apply in_or_app; now left | exact Hles].
      * rewrite Hparse in Hpo. injection Hpo as <-.
        exists obj. split; [apply in_or_app; right; now left | lia].
Qed.

Lemma fold_addLine_records (lines done : list string) (m : JsMap) :
  mergedSoFar done m ->
  (forall l, In l lines -> exists o, recordLine l o) ->
  mergedSoFar (done ++ lines) (fold_left addLine lines m).
Proof.
  revert done m. induction lines as [|line lines IH]; intros done m Hinv Hall.
  - simpl. now rewrite app_nil_r.
  - simpl. destruct (Hall line (or_introl eq_refl)) as [o Ho].
    replace (done ++ line :: lines)%list
      with ((done ++ [line]) ++ lines)%list
      by (now rewrite <- app_assoc).
    apply IH.
    + eapply addLine_record; eassumption.
    + intros l Hl. apply Hall. now right.
Qed.

Lemma byTimestamp_records (l1 l2 : string) (a b : JsValue) :
  recordLine l1 a -> recordLine l2 b ->
  byTimestamp a b = timestampOf a - timestampOf b.
Proof.
  intros Ha Hb.
  destruct (record_timestamp _ _ Ha) as [_ Hoa].
  destruct (record_timestamp _ _ Hb) as [_ Hob].
  destruct Ha as (_ & (pa & ->) & _). destruct Hb as (_ & (pb & ->) & _).
  unfold byTimestamp. simpl typeofObject. simpl andb. cbv iota.
  rewrite Hoa, Hob. reflexivity.
Qed.

Lemma addLine_cases (m : JsMap) (line : string) :
  addLine m line = mapSet m (JString line) (JString line)
  \/ exists obj,
       JSON_parse line = Some obj
       /\ (addLine m line = m
           \/ addLine m line = mapSet m (identityOf obj line) obj).
Proof.
  unfold addLine.
  destruct (JSON_parse line) as [obj|]; [|now left].
  destruct obj; try (now left); right; eexists; (split; [reflexivity|]);
    (destruct (mapGet m _); [|now right]);
    (destruct (getProp _ "timestamp"); [|now left]);
    (destruct (_ && _); [now right | now left]).
Qed.

(** A line that does not parse stays in the map under its own text as long
    as no parsed line has that text as its identity. *)
Lemma fold_addLine_verbatim (lines : list string) (m : JsMap) (raw : string) :
  (forall l o, In l lines -> JSON_parse l = Some o ->
     sameValueZero (identityOf o l) (JString raw) = false) ->
  mapGet m (JString raw) = Some (JString raw) ->
  mapGet (fold_left addLine lines m) (JString raw) = Some (JString raw).
Proof.
  revert m. induction lines as [|line lines IH]; intros m Hclash Hget; simpl.
  - exact Hget.
  - apply IH; [intros l o Hl; apply Hclash; now right|].
    assert (Hcatch : mapGet (mapSet m (JString line) (JString line))
                            (JString raw) = Some (JString raw)).
    { destruct (String.eqb line raw) eqn:E.
      - apply String.eqb_eq in E. subst. now apply mapGet_mapSet_same.
      - rewrite mapGet_mapSet_other; [exact Hget | exact I | exact E]. }
    destruct (addLine_cases m line) as [->|(obj & Hparse & [->| ->])].
    + exact Hcatch.
    + exact Hget.
    + rewrite mapGet_mapSet_other; [exact Hget | exact I|].
      now apply (Hclash line obj (or_introl eq_refl)).
Qed.

Lemma fold_addLine_keeps_raw (before after : list string) (m : JsMap)
  (raw : string) :
  JSON_parse raw = None ->
  (forall l o, In l after -> JSON_parse l = Some o ->
     sameValueZero (identityOf o l) (JString raw) = false) ->
  In (JString raw)
     (mapValues (fold_left addLine (before ++ raw :: after) m)).
Proof.
  intros Hparse Hclash.
  rewrite fold_left_app. simpl.
  apply (in_map snd _ (JString raw, JString raw)).
  apply mapGet_in, fold_addLine_verbatim; [exact Hclash|].
  unfold addLine at 1. rewrite Hparse. now apply mapGet_mapSet_same.
Qed.

End LineMerge.

Lemma jsonl_is_not_json (path : string) :
  endsWith path ".jsonl" = true -> endsWith path ".json" = false.
Proof.
  unfold endsWith. simpl String.length.
  intros H. apply andb_prop in H as [Hlen Hsuf].
  apply Nat.leb_le in Hlen. apply String.eqb_eq in Hsuf.
  destruct ((5 <=? String.length path)%nat
            && String.eqb (substring (String.length path - 5) 5 path) ".json")
    eqn:E; [|reflexivity].
  apply andb_prop in E as [_ Hsuf'']. apply String.eqb_eq in Hsuf''.
  pose proof (substring_correct1 path (String.length path - 6) 6 5
                ltac:(lia)) as H6.
  pose proof (substring_correct1 path (String.length path - 5) 5 4
                ltac:(lia)) as H5.
  rewrite Hsuf in H6. rewrite Hsuf'' in H5.
  replace (5 + (String.length path - 6))%nat
    with (4 + (String.length path - 5))%nat in H6 by lia.
  rewrite <- H6 in H5. discriminate.
Qed.

Section LineMergeResult.
Context {P : Platform}.

(** What [keep_both] keeps on a path ending in [.jsonl], whatever order
    the engine's sort gives.  The resolution succeeds with one output line
    per survivor.  A line that does not parse is output verbatim, provided
    no later parsed line has that text as its identity.  When every
    non-empty line of both sides parses to a record (identity [id], else
    [uuid], else [timestamp], else the line text, compared by value;
    timestamp absent or a non-negative integer), exactly one record
    survives per identity, every survivor is one of the input records
    stored under its identity, every input record is matched by the
    survivor of its identity with a timestamp at least as large, and the
    output lines are the serialized survivors. *)
Lemma keep_both_keeps_one_record_per_identity :
  forall (db : DB) (now : Z) (apiKey : string) (conflictId : nat)
         (manualContent : option string) (d : string) (user : User)
         (c : Conflict),
    validateApiKeyInternal db apiKey = Some user ->
    find (fun c => Nat.eqb (c_id c) conflictId) (syncConflicts db) = Some c ->
    c_userId c = u_id user ->
    endsWith (c_filePath c) ".jsonl" = true ->
    let lines :=
      (nonEmptyLines (c_contentA c) ++ nonEmptyLines (c_contentB c))%list in
    exists (db' : DB) (items : list string),
      resolveConflict db now apiKey conflictId keep_both manualContent d
      = Returned (db', join nl items)
      /\ (forall before raw after,
            lines = (before ++ raw :: after)%list ->
            JSON_parse raw = None ->
            (forall l o, In l after -> JSON_parse l = Some o ->
               sameValueZero (identityOf o l) (JString raw) = false) ->
            In raw items)
      /\ ((forall l, In l lines -> exists o, recordLine l o) ->
          exists survivors : list (JsValue * JsValue),
            Permutation (map (fun s => JSON_stringify (snd s)) survivors)
              items
            /\ NoDup (map fst survivors)
            /\ (forall k s, In (k, s) survivors ->
                  exists l, In l lines /\ JSON_parse l = Some s
                            /\ identityOf s l = k)
            /\ (forall l o, In l lines -> JSON_parse l = Some o ->
                  exists s, In (identityOf o l, s) survivors
                            /\ timestampOf o <= timestampOf s)).
Proof.
  intros db now apiKey conflictId manualContent d user c
         Hvalid Hfind Howner Hjsonl lines.
  destruct (resolveConflict_returns db now apiKey conflictId keep_both
              manualContent d user c _ Hvalid Hfind Howner eq_refl)
    as [db' Hres].
  rewrite (jsonl_is_not_json _ Hjsonl), Hjsonl in Hres.
  unfold mergeJSONL in Hres. fold lines in Hres.
  set (m := fold_left addLine lines []) in *.
  exists db', (map renderItem (arraySort byTimestamp (mapValues m))).
  split; [exact Hres|]. split.
  - intros before raw after Hsplit Hparse Hclash.
    apply (in_map renderItem _ (JString raw)).
    eapply Permutation_in; [apply arraySort_rearranges|].
    subst m. rewrite Hsplit.
    now apply fold_addLine_keeps_raw.
  - intros Hrecords.
    destruct (fold_addLine_records lines [] []) as (Hnd & Hentries & Hdom).
    { split; [constructor|]. split; [intros ? ? []|intros ? ? []]. }
    { exact Hrecords. }
    simpl app in *. fold m in Hnd, Hentries, Hdom.
    exists m. split; [|split; [|split]].
    + eapply Permutation_trans;
        [|apply Permutation_map, arraySort_rearranges].
      unfold mapValues. rewrite map_map.
      replace (map (fun s => JSON_stringify (snd s)) m)
        with (map (fun x => renderItem (snd x)) m);
        [apply Permutation_refl|].
      apply map_ext_in. intros [k s] Hin. simpl.
      destruct (Hentries _ _ Hin) as (l & _ & (_ & (props & ->) & _) & _).
      reflexivity.
    + exact Hnd.
    + intros k s Hin.
      destruct (Hentries _ _ Hin) as (l & Hl & (Hp & _) & Hid).
      exists l. now repeat split.
    + intros l o Hl Hp.
      destruct (Hdom l o Hl Hp) as (s & Hs & Hle).
      exists s. split; [exact Hs | exact Hle].
Qed.

End LineMergeResult.

(** ** The inventory scan *)

Lemma assoc_map_entry {V W : Type} (g : string * V -> W)
  (entries : list (string * V)) (name : string) (node : V) :
  NoDup (map fst entries) -> In (name, node) entries ->
  assoc name (map (fun e => (fst e, g e)) entries) = Some (g (name, node)).
Proof.
  induction entries as [|[n0 v0] rest IH]; simpl; intros Hnd Hin.
  - contradiction.
  - inversion Hnd as [|? ? Hnotin Hrest]; subst.
    destruct Hin as [[= -> ->]|Hin].
    + now rewrite String.eqb_refl.
    + destruct (String.eqb n0 name) eqn:E.
      * apply String.eqb_eq in E. subst n0. exfalso. apply Hnotin.
        now apply (in_map fst) in Hin.
      * now apply IH.
Qed.

Lemma newest_first_split {A : Type} (key : A -> Z) (n : nat) (l : list A) :
  let sorted := jsSort (fun a b => key b - key a) l in
  Permutation l (firstn n sorted ++ skipn n sorted)
  /\ List.length (firstn n sorted) = Nat.min n (List.length l)
  /\ StronglySorted (descending key) (firstn n sorted)
  /\ (forall x y, In x (firstn n sorted) -> In y (skipn n sorted) ->
        key y <= key x).
Proof.
  intros sorted.
  pose proof (jsSort_sorted_descending key l) as Hs. fold sorted in Hs.
  split; [rewrite firstn_skipn; apply jsSort_perm|].
  split; [rewrite length_firstn; unfold sorted; now rewrite jsSort_length|].
  split; [now apply sorted_firstn|].
  intros x y Hx Hy.
  exact (sorted_prefix_dominates _ n sorted Hs x y Hx Hy).
Qed.

Section InventoryProperties.
Context {P : Platform}.

Lemma pushSessions_appends (sessions : list Session) (results : list PushFile) :
  pushSessions results sessions
  = (results ++ flat_map scannedSession sessions)%list.
Proof.
  unfold pushSessions. revert results.
  induction sessions as [|s rest IH]; intros results; simpl.
  - now rewrite app_nil_r.
  - rewrite IH. unfold scannedSession at 2.
    destruct (fullPath s) as [[content|] mtime|];
      simpl; now rewrite <- ?app_assoc.
Qed.

End InventoryProperties.

(** ** The change scheduler *)

Lemma trySync_tracks (now : Z) (e : Scheduler.SyncEngine) :
  flagTracksFlight e -> flagTracksFlight (Scheduler.trySync now e).
Proof.
  unfold flagTracksFlight, Scheduler.trySync. intros H.
  destruct (now - Scheduler.lastSyncTime e <? Scheduler.MIN_INTERVAL_MS);
    [exact H|].
  destruct H as [[Hs Hn]|[Hs Hn]]; rewrite Hs.
  - left. now split.
  - left. simpl. now rewrite Hn.
Qed.

Lemma step_tracks (e e' : Scheduler.SyncEngine) (ev : Scheduler.Event) :
  flagTracksFlight e -> Scheduler.step e ev = Some e' -> flagTracksFlight e'.
Proof.
  intros H. destruct ev as [now path|now|now|now succeeded|]; simpl.
  - intros [= <-]. exact H.
  - destruct (Scheduler.debounceTimer e) as [deadline|]; [|discriminate].
    destruct (deadline <=? now); [|discriminate].
    intros [= <-]. apply trySync_tracks. exact H.
  - destruct (Scheduler.takeDue now (Scheduler.retryTimers e)); [|discriminate].
    intros [= <-]. apply trySync_tracks. exact H.
  - destruct H as [[Hs Hn]|[Hs Hn]]; rewrite Hn; [|discriminate].
    intros [= <-]. right. simpl. now rewrite Hn.
  - intros [= <-]. unfold Scheduler.forceSync.
    destruct H as [[Hs Hn]|[Hs Hn]]; rewrite Hs.
    + left. now split.
    + left. simpl. now rewrite Hn.
Qed.

(** X29. At most one [performSync] is in flight in every state the
    scheduler reaches from its initial state, whatever the events. *)
Lemma at_most_one_sync_in_flight (evs : list Scheduler.Event)
  (e : Scheduler.SyncEngine) :
  Scheduler.run Scheduler.initial evs = Some e ->
  (Scheduler.inFlight e <= 1)%nat.
Proof.
  assert (Hgen : forall evs e0 e, flagTracksFlight e0 ->
            Scheduler.run e0 evs = Some e -> flagTracksFlight e).
  { clear. induction evs as [|ev evs IH]; intros e0 e H0; simpl.
    - now intros [= <-].
    - destruct (Scheduler.step e0 ev) as [e1|] eqn:E; [|discriminate].
      apply IH. eapply step_tracks; eassumption. }
  intros Hrun.
  assert (H : flagTracksFlight e).
  { eapply Hgen; [|exact Hrun]. right. split; reflexivity. }
  destruct H as [[_ ->]|[_ ->]]; lia.
Qed.

(** A request that reaches [trySync] while a sync runs, the minimum
    interval elapsed, changes nothing: no timeout is armed, no flag is
    set. *)
Lemma trySync_while_syncing_changes_nothing (now : Z)
  (e : Scheduler.SyncEngine) :
  Scheduler.isSyncing e = true ->
  Scheduler.MIN_INTERVAL_MS <= now - Scheduler.lastSyncTime e ->
  Scheduler.trySync now e = e.
Proof.
  intros Hsync Hlate. unfold Scheduler.trySync.
  apply Z.ltb_ge in Hlate. now rewrite Hlate, Hsync.
Qed.

(** When a sync settles, the armed timeouts are what they were and no
    sync begins. *)
Lemma settle_arms_nothing (now : Z) (succeeded : bool)
  (e : Scheduler.SyncEngine) :
  let e' := Scheduler.performSyncSettle now succeeded e in
  Scheduler.debounceTimer e' = Scheduler.debounceTimer e
  /\ Scheduler.retryTimers e' = Scheduler.retryTimers e
  /\ Scheduler.started e' = Scheduler.started e
  /\ Scheduler.isSyncing e' = false.
Proof. repeat split. Qed.

(** C9, the code at the failing input. A file change arrives while a sync
    is in flight and its debounced request fires before the sync settles:
    [trySync] returns without arming anything, and when the sync settles
    the scheduler is quiescent, no timeout armed, one sync begun in all,
    the pending set cleared. No trailing sync follows the change. *)
Theorem sync_request_during_sync_is_dropped :
  Scheduler.run Scheduler.initial (firstn 4 Sample.changeDuringSync)
  = Some (Scheduler.mkEngine 0 ["CLAUDE.md"; "settings.json"] None []
            true 1 1)
  /\ Scheduler.run Scheduler.initial Sample.changeDuringSync
     = Some (Scheduler.mkEngine 1020000 [] None [] false 0 1)
  /\ Scheduler.quiescent
       (Scheduler.mkEngine 1020000 [] None [] false 0 1) = true.
Proof. repeat split. Qed.

(* ================================================================= *)
(** * Worked cases on the reference runtime *)

(** C3 at [Cases.mixedCatalog]: the laptop pulls with cursor 600 and is
    sent the settings and the newer todo of the desktop; its own note, the
    todo synced at 600 and the note of the other user are not sent. *)
Lemma pull_returns_exactly_other_devices_after_cursor_witness :
  validateApiKeyInternal (P := Reference.runtime) Cases.mixedCatalog
    Sample.aliceKey = Some (mkUser 1 3 100 0)
  /\ pullSync (P := Reference.runtime) Cases.mixedCatalog Sample.aliceKey
       "laptop" (Some 600)
     = Returned
         [mkPulled 4 "settings.json" "{}" "hash-s" 30 2 650 "desktop";
          mkPulled 3 "todos/s1-agent.json" "[]" "hash-t" 20 1 700 "desktop"]
  /\ exists files rest : list SyncedFile,
       [mkPulled 4 "settings.json" "{}" "hash-s" 30 2 650 "desktop";
        mkPulled 3 "todos/s1-agent.json" "[]" "hash-t" 20 1 700 "desktop"]
       = map (fun f => mkPulled (f_id f) (f_filePath f) (f_content f)
                         (f_contentHash f) (f_lastModified f) (f_version f)
                         (f_syncedAt f) (f_deviceId f)) files
       /\ Permutation
            [mkSyncedFile 2 1 "laptop" "CLAUDE.md" "a" "hash-a" 10 1 500 None;
             mkSyncedFile 4 1 "desktop" "settings.json" "{}" "hash-s" 30 2
               650 None;
             mkSyncedFile 3 1 "desktop" "todos/s1-agent.json" "[]" "hash-t"
               20 1 700 (Some ("s1", todo));
             mkSyncedFile 7 1 "desktop" "todos/s2-agent.json" "[0]" "hash-u"
               5 1 600 (Some ("s2", todo))]
            (files ++ rest)
       /\ (forall f, In f files <->
             (In f (configTable Cases.mixedCatalog)
              \/ In f (sessionTable Cases.mixedCatalog))
             /\ f_userId f = 1%nat
             /\ f_deviceId f <> "laptop"
             /\ (forall t, Some 600 = Some t -> t < f_syncedAt f))
       /\ (forall f, In f rest ->
             ~ (f_deviceId f <> "laptop"
                /\ (forall t, Some 600 = Some t -> t < f_syncedAt f))).
Proof.
  assert (Hv : validateApiKeyInternal (P := Reference.runtime)
                 Cases.mixedCatalog Sample.aliceKey
               = Some (mkUser 1 3 100 0))
    by reflexivity.
  split; [exact Hv|].
  destruct (pull_returns_exactly_other_devices_after_cursor
              (P := Reference.runtime) Cases.mixedCatalog Sample.aliceKey
              "laptop" (Some 600) (mkUser 1 3 100 0) Hv)
    as (files & rest & result & Hres & Hmap & Hperm & _ & Hrest & Hiff & _).
  assert (Hrun : pullSync (P := Reference.runtime) Cases.mixedCatalog
                   Sample.aliceKey "laptop" (Some 600)
                 = Returned
                     [mkPulled 4 "settings.json" "{}" "hash-s" 30 2 650
                        "desktop";
                      mkPulled 3 "todos/s1-agent.json" "[]" "hash-t" 20 1 700
                        "desktop"])
    by reflexivity.
  split; [exact Hrun|].
  rewrite Hrun in Hres. injection Hres as <-.
  exists files, rest.
  split; [exact Hmap|]. split; [exact Hperm|].
  split; [exact Hiff | exact Hrest].
Defined.

(** C8 fails for the subscription: with a credential that resolves to no
    user, [subscribeToChanges] returns the normal empty snapshot. *)
Lemma subscribe_returns_empty_on_invalid_credential :
  validateApiKeyInternal (P := Reference.runtime) Sample.twoFiles "wrong-key"
  = None
  /\ subscribeToChanges (P := Reference.runtime) Sample.twoFiles "wrong-key"
       "phone" = Returned ([], [])
  /\ subscribeToChanges (P := Reference.runtime) Sample.twoFiles "wrong-key"
       "phone" <> Threw InvalidApiKey.
Proof. repeat split. discriminate. Qed.

(** C8 at a credential that resolves to no user: push and pull throw, the
    subscription returns the empty snapshot. *)
Lemma invalid_credential_gate_witness :
  validateApiKeyInternal (P := Reference.runtime) Sample.twoFiles "wrong-key"
  = None
  /\ pushSync (P := Reference.runtime) Sample.twoFiles 600 Sample.allow
       "wrong-key" "phone" [Sample.noteX "b" "hash-b"] = Threw InvalidApiKey
  /\ pullSync (P := Reference.runtime) Sample.twoFiles "wrong-key" "phone"
       None = Threw InvalidApiKey
  /\ subscribeToChanges (P := Reference.runtime) Sample.twoFiles "wrong-key"
       "phone" = Returned ([], []).
Proof.
  split; [reflexivity|].
  exact (invalid_credential_gate (P := Reference.runtime) Sample.twoFiles 600
           Sample.allow "wrong-key" "phone" [Sample.noteX "b" "hash-b"] None
           eq_refl).
Defined.

(** C1 fails at the quota: the stored entry was written by the laptop with
    another hash, the desktop pushes the path, and the entry is rejected
    before the lookup: outcome "error", no Conflict record. *)
Lemma conflict_not_recorded_at_quota :
  stored Sample.fullCatalog 1 "CLAUDE.md" = Some Sample.tenBytesByLaptop
  /\ f_contentHash Sample.tenBytesByLaptop <> "hash-b"
  /\ f_deviceId Sample.tenBytesByLaptop <> "desktop"
  /\ pushSync (P := Reference.runtime) Sample.fullCatalog 600 Sample.allow
       Sample.aliceKey "desktop" [Sample.noteX "b" "hash-b"]
     = Returned
         (mkDB [mkUser 1 10 10 600] [Sample.keyOfAlice]
               [Sample.tenBytesByLaptop] [] [] 3,
          [mkPushResult "CLAUDE.md" error None
             (Some "Storage quota exceeded")]).
Proof. repeat split; discriminate. Qed.

(** C1, conflict symmetry: the laptop wrote ["a"], the desktop pushes
    ["b"] for the same path. *)
Lemma push_conflict_recorded_within_quota_witness :
  exists (after final : DB) (results : list PushResult),
    pushFile (mkUser 1 3 100 0) "desktop" 600
      Sample.twoFiles (Sample.noteX "b" "hash-b")
    = (after, mkPushResult "CLAUDE.md" conflict (Some 4%nat) None)
    /\ syncConflicts after
       = [mkConflict 4 1 "CLAUDE.md" "laptop" "desktop" "a" "b" 600 None None]
    /\ configTable after = [Sample.noteByLaptop]
    /\ sessionTable after = [Sample.todoByDesktop]
    /\ users after = [mkUser 1 3 100 0]
    /\ pushSync (P := Reference.runtime) Sample.twoFiles 600 Sample.allow
         Sample.aliceKey "desktop" [Sample.noteX "b" "hash-b"]
       = Returned (final, results)
    /\ nth_error results 0
       = Some (mkPushResult "CLAUDE.md" conflict (Some 4%nat) None).
Proof.
  exact (push_conflict_recorded_within_quota (P := Reference.runtime)
           Sample.twoFiles 600 Sample.allow Sample.aliceKey "desktop" [] []
           (Sample.noteX "b" "hash-b") (mkUser 1 3 100 0) Sample.noteByLaptop
           eq_refl eq_refl ltac:(vm_compute; discriminate) eq_refl
           ltac:(discriminate) ltac:(discriminate)).
Defined.

(** C2, the code at the failing input. Two new files of 60 bytes each are
    pushed in one batch by a user with a limit of 100 bytes: both are
    inserted, and the counter ends at 60, the size of the last one. *)
Theorem quota_counter_lags_within_batch :
  byteLength (p_content (Sample.sixtyBytes "a.md")) = 60
  /\ exists catalog : list SyncedFile,
       pushSync (P := Reference.runtime) Sample.emptyCatalog 500 Sample.allow
         Sample.aliceKey "laptop"
         [Sample.sixtyBytes "a.md"; Sample.sixtyBytes "b.md"]
       = Returned
           (mkDB [mkUser 1 60 100 500] [Sample.keyOfAlice] catalog [] [] 4,
            [mkPushResult "a.md" success None None;
             mkPushResult "b.md" success None None])
       /\ map f_filePath catalog = ["a.md"; "b.md"]
       /\ fold_right Z.add 0 (map (fun f => byteLength (f_content f)) catalog)
          = 120.
Proof.
  split; [reflexivity|].
  eexists. split; [reflexivity|]. split; reflexivity.
Qed.

(** C10 at a device id that is neither side of the conflict. *)
Lemma keep_local_compares_with_deviceA_only_witness :
  exists (dbL dbR : DB),
    resolveConflict (P := Reference.runtime) Sample.withConflict 950
      Sample.aliceKey 4 keep_local None "phone" = Returned (dbL, "b")
    /\ resolveConflict (P := Reference.runtime) Sample.withConflict 950
         Sample.aliceKey 4 keep_remote None "phone" = Returned (dbR, "a").
Proof.
  destruct (keep_local_compares_with_deviceA_only (P := Reference.runtime)
              Sample.withConflict 950 Sample.aliceKey 4 None "phone"
              (mkUser 1 3 100 0) Sample.pendingConflict
              eq_refl eq_refl eq_refl)
    as (dbL & dbR & contentL & contentR & HL & HR & _ & _ & Hneither).
  destruct (Hneither ltac:(discriminate) ltac:(discriminate)) as [-> ->].
  exists dbL, dbR. split; [exact HL | exact HR].
Defined.

(** C5 at the documents [{"a":1}] and [{"a":2,"b":3}]: two runs, by two
    devices at two times, both return the document [{"a":2,"b":3}]; and at
    the sides [[1,2]] and [not json]: the resolution returns the five
    lines of the two sides between their markers. *)
Lemma keep_both_merges_json_documents_witness :
  (exists db1 db2 : DB,
     resolveConflict (P := Reference.runtime) Sample.withSettingsConflict 950
       Sample.aliceKey 4 keep_both None "desktop"
     = Returned (db1, Sample.docMerged)
     /\ resolveConflict (P := Reference.runtime) Sample.withSettingsConflict
          990 Sample.aliceKey 4 keep_both None "laptop"
        = Returned (db2, Sample.docMerged))
  /\ (exists merged : list (string * JsValue),
        Sample.docMerged
        = JSON_stringify_indent2 (Platform := Reference.runtime)
            (JObject merged)
        /\ assoc "a" merged = Some (JNumber 2)
        /\ assoc "b" merged = Some (JNumber 3))
  /\ (exists db3 : DB,
        resolveConflict (P := Reference.runtime)
          Cases.withBrokenSettingsConflict 950 Sample.aliceKey 4 keep_both
          None "desktop"
        = Returned (db3, "<<<<<<< VERSION A
[1,2]
=======
not json
>>>>>>> VERSION B")).
Proof.
  destruct (keep_both_merges_json_documents (P := Reference.runtime)
              Cases.withBrokenSettingsConflict Sample.aliceKey 4
              (mkUser 1 3 100 0) Cases.brokenSettingsConflict
              eq_refl eq_refl eq_refl eq_refl)
    as (broken & Hbroken & _ & Hfallback).
  destruct (Hbroken 950 None "desktop") as [db3 H3].
  rewrite (Hfallback (or_intror eq_refl)) in H3.
  destruct (keep_both_merges_json_documents (P := Reference.runtime)
              Sample.withSettingsConflict Sample.aliceKey 4
              (mkUser 1 3 100 0) Sample.settingsConflict
              eq_refl eq_refl eq_refl eq_refl)
    as (content & Hruns & Hmerge & _).
  destruct (Hruns 950 None "desktop") as [db1 H1].
  destruct (Hruns 990 None "laptop") as [db2 H2].
  assert (Hcontent : content = Sample.docMerged).
  { pose proof H1 as Hc. vm_compute in Hc. injection Hc as _ <-. reflexivity. }
  subst content.
  split; [exists db1, db2; split; [exact H1 | exact H2]|].
  split; [|exists db3; exact H3].
  destruct (Hmerge (JObject [("a", JNumber 1)])
              (JObject [("a", JNumber 2); ("b", JNumber 3)])
              eq_refl eq_refl)
    as (merged & Hprint & _ & Hkeys).
  - repeat constructor; simpl; intuition discriminate.
  - repeat constructor; simpl; intuition discriminate.
  - exists merged. split; [exact Hprint|].
    split; [exact (Hkeys "a") | exact (Hkeys "b")].
Defined.

(** C6, the code at the failing input. The output of [keep_both] on a
    [.jsonl] conflict is not in ascending timestamp order.  Side A holds
    the record with id 1 and timestamp 9 followed by the line [not json],
    side B the record with id 2 and timestamp 5.  The comparator answers 0 for the two pairs that
    contain the verbatim line and 4 for the two records, so it is no order
    of the three values; the sort finds the array to be one ascending run
    and leaves it as it is, and the resolution returns the record with
    timestamp 9 before the record with timestamp 5.  Without the verbatim
    line the same two records are returned in timestamp order. *)
Theorem verbatim_line_blocks_timestamp_order :
  exists (first last : JsValue) (db' db'' : DB),
    JSON_parse (Platform := Reference.runtime) (Sample.record "1" "9")
    = Some first
    /\ JSON_parse (Platform := Reference.runtime) (Sample.record "2" "5")
       = Some last
    /\ JSON_parse (Platform := Reference.runtime) "not json" = None
    /\ getProp first "timestamp" = Some (JNumber 9)
    /\ getProp last "timestamp" = Some (JNumber 5)
    /\ byTimestamp (P := Reference.runtime) first (JString "not json") = 0
    /\ byTimestamp (P := Reference.runtime) (JString "not json") last = 0
    /\ byTimestamp (P := Reference.runtime) first last = 4
    /\ resolveConflict (P := Reference.runtime)
         (Sample.withHistoryConflict
            (Sample.record "1" "9" ++ nl ++ "not json")
            (Sample.record "2" "5"))
         950 Sample.aliceKey 4 keep_both None "desktop"
       = Returned (db', Sample.record "1" "9" ++ nl ++ "not json" ++ nl
                        ++ Sample.record "2" "5")
    /\ resolveConflict (P := Reference.runtime)
         (Sample.withHistoryConflict (Sample.record "1" "9")
            (Sample.record "2" "5"))
         950 Sample.aliceKey 4 keep_both None "desktop"
       = Returned (db'', Sample.record "2" "5" ++ nl
                         ++ Sample.record "1" "9").
Proof.
  do 4 eexists. repeat split; vm_compute; reflexivity.
Qed.

(** The sort on four values in which the verbatim line stands between
    records: the first two form a descending run that is reversed, the
    verbatim line is inserted after them and the last record, compared
    with records only, goes to the front. *)
Lemma engine_sort_moves_a_record_past_a_verbatim_line :
  exists r9 r5 r1 : JsValue,
    JSON_parse (Platform := Reference.runtime) (Sample.record "1" "9")
    = Some r9
    /\ JSON_parse (Platform := Reference.runtime) (Sample.record "2" "5")
       = Some r5
    /\ JSON_parse (Platform := Reference.runtime) (Sample.record "3" "1")
       = Some r1
    /\ arraySort (Platform := Reference.runtime)
         (byTimestamp (P := Reference.runtime))
         [r9; r5; JString "not json"; r1]
       = [r1; r5; r9; JString "not json"]
    /\ mergeJSONL (P := Reference.runtime)
         (Sample.record "1" "9" ++ nl ++ Sample.record "2" "5" ++ nl
          ++ "not json" ++ nl ++ Sample.record "3" "1")
         EmptyString
       = Sample.record "3" "1" ++ nl ++ Sample.record "2" "5" ++ nl
         ++ Sample.record "1" "9" ++ nl ++ "not json".
Proof.
  do 3 eexists. repeat split; vm_compute; reflexivity.
Qed.

(* ================================================================= *)
(** * Further properties of the handlers *)

(** ** [pushSync]: the report, the conflict queue, the other accounts *)

Section PushProperties.
Context {P : Platform}.

Lemma pushFile_report (user : User) (d : string) (now : Z) (db : DB)
  (file : PushFile) :
  let r := snd (pushFile user d now db file) in
  r_filePath r = p_filePath file
  /\ (r_status r = error
      <-> storageLimit user < storageUsed user + byteLength (p_content file))
  /\ (r_status r = conflict <-> r_conflictId r <> None)
  /\ (r_status r = error <-> r_message r <> None).
Proof.
  unfold pushFile.
  destruct (storageLimit user <? storageUsed user + byteLength (p_content file))
    eqn:Eq.
  - apply Z.ltb_lt in Eq. simpl.
    split; [reflexivity|]. split; [tauto|].
    split; split; intros H; try discriminate; try reflexivity; now elim H.
  - apply Z.ltb_ge in Eq.
    destruct (byUserAndPath _ _ _) as [existing|].
    + destruct (String.eqb (f_contentHash existing) (p_contentHash file)).
      * simpl. split; [reflexivity|].
        split; [split; [discriminate | lia]|].
        split; split; intros H; try discriminate; now elim H.
      * simpl negb at 1. simpl andb.
        destruct (String.eqb (f_deviceId existing) d); simpl.
        -- split; [reflexivity|].
           split; [split; [discriminate | lia]|].
           split; split; intros H; try discriminate; now elim H.
        -- split; [reflexivity|].
           split; [split; [discriminate | lia]|].
           split; split; intros H; try discriminate; try reflexivity;
             now elim H.
    + simpl. split; [reflexivity|].
      split; [split; [discriminate | lia]|].
      split; split; intros H; try discriminate; now elim H.
Qed.

(** X1. A push that passes the credential check and the rate limiter
    returns: it answers every entry, in the order of the request, under the
    entry's path.  With no database operation failing, an entry is answered
    "error" exactly when the storage counter read before the loop plus the
    entry's size exceeds the limit, and only then carries a message; it
    carries a conflict id exactly when it is answered "conflict". *)
Theorem push_answers_every_entry_in_order :
  forall (db : DB) (now : Z) (limiter : nat -> LimitVerdict)
         (apiKey deviceId : string) (files : list PushFile) (user : User),
    validateApiKeyInternal db apiKey = Some user ->
    ok (limiter (u_id user)) = true ->
    exists (final : DB) (results : list PushResult),
      pushSync db now limiter apiKey deviceId files = Returned (final, results)
      /\ Forall2
           (fun file r =>
              r_filePath r = p_filePath file
              /\ (r_status r = error
                  <-> storageLimit user
                      < storageUsed user + byteLength (p_content file))
              /\ (r_status r = conflict <-> r_conflictId r <> None)
              /\ (r_status r = error <-> r_message r <> None))
           files results.
Proof.
  intros db now limiter apiKey deviceId files user Hvalid Hok.
  unfold pushSync. rewrite Hvalid, Hok. simpl negb. cbv iota.
  assert (Hloop : Forall2
           (fun file r =>
              r_filePath r = p_filePath file
              /\ (r_status r = error
                  <-> storageLimit user
                      < storageUsed user + byteLength (p_content file))
              /\ (r_status r = conflict <-> r_conflictId r <> None)
              /\ (r_status r = error <-> r_message r <> None))
           files (snd (pushLoop user deviceId now db files))).
  { clear. revert db. induction files as [|file files IH]; intros db; simpl.
    - constructor.
    - pose proof (pushFile_report user deviceId now db file) as Hr.
      destruct (pushFile user deviceId now db file) as [db1 r].
      specialize (IH db1).
      destruct (pushLoop user deviceId now db1 files) as [db2 rs].
      simpl in *. now constructor. }
  destruct (pushLoop user deviceId now db files) as [db1 results].
  eexists _, _. split; [reflexivity | exact Hloop].
Qed.

Lemma pushFile_conflicts (user : User) (d : string) (now : Z) (db : DB)
  (file : PushFile) :
  let db' := fst (pushFile user d now db file) in
  let r := snd (pushFile user d now db file) in
  (nextId db <= nextId db')%nat
  /\ exists added : list Conflict,
       syncConflicts db' = (syncConflicts db ++ added)%list
       /\ map (fun c => (c_filePath c, c_id c)) added = conflictOf r
       /\ (List.length added <= 1)%nat
       /\ Forall (fun c => (nextId db <= c_id c < nextId db')%nat
                           /\ c_userId c = u_id user
                           /\ c_resolvedAt c = None
                           /\ c_resolution c = None
                           /\ c_deviceBId c = d
                           /\ c_createdAt c = now) added.
Proof.
  unfold pushFile.
  destruct (storageLimit user <? storageUsed user + byteLength (p_content file)).
  { simpl. split; [lia|]. exists []. rewrite app_nil_r.
    split; [reflexivity|]. split; [reflexivity|].
    split; [simpl; lia | constructor]. }
  destruct (byUserAndPath _ _ _) as [existing|].
  - destruct (String.eqb (f_contentHash existing) (p_contentHash file)).
    { simpl. split; [lia|]. exists []. rewrite app_nil_r.
    split; [reflexivity|]. split; [reflexivity|].
    split; [simpl; lia | constructor]. }
    simpl negb at 1. simpl andb.
    destruct (String.eqb (f_deviceId existing) d); simpl negb; cbv iota;
      simpl fst; simpl snd.
    + split; [destruct (table _); simpl; lia|].
      exists []. unfold patchFile.
      split; [destruct (table _); simpl; now rewrite app_nil_r|].
      split; [reflexivity|]. split; [simpl; lia | constructor].
    + split; [simpl; lia|].
      eexists [_]. split; [reflexivity|].
      split; [reflexivity|]. split; [simpl; lia|].
      constructor; [|constructor]. simpl. repeat split; lia.
  - simpl fst; simpl snd.
    split; [destruct (table _); simpl; lia|].
    exists [].
    split; [destruct (table _); simpl; now rewrite app_nil_r|].
    split; [reflexivity|]. split; [simpl; lia | constructor].
Qed.

Lemma pushLoop_conflicts (user : User) (d : string) (now : Z)
  (files : list PushFile) (db : DB) :
  let db' := fst (pushLoop user d now db files) in
  let rs := snd (pushLoop user d now db files) in
  (nextId db <= nextId db')%nat
  /\ exists added : list Conflict,
       syncConflicts db' = (syncConflicts db ++ added)%list
       /\ map (fun c => (c_filePath c, c_id c)) added = flat_map conflictOf rs
       /\ Forall (fun c => (nextId db <= c_id c < nextId db')%nat
                           /\ c_userId c = u_id user
                           /\ c_resolvedAt c = None
                           /\ c_resolution c = None
                           /\ c_deviceBId c = d
                           /\ c_createdAt c = now) added
       /\ NoDup (map c_id added).
Proof.
  revert db. induction files as [|file files IH]; intros db; simpl.
  - split; [lia|]. exists []. rewrite app_nil_r.
    repeat split; constructor.
  - pose proof (pushFile_conflicts user d now db file)
      as (Hn1 & a1 & Hc1 & Hm1 & Hlen1 & Hall1).
    destruct (pushFile user d now db file) as [db1 r]. simpl in *.
    specialize (IH db1). destruct IH as (Hn2 & a2 & Hc2 & Hm2 & Hall2 & Hnd2).
    destruct (pushLoop user d now db1 files) as [db2 rs]. simpl in *.
    split; [lia|]. exists (a1 ++ a2)%list.
    split; [rewrite Hc2, Hc1; now rewrite app_assoc|].
    split; [rewrite map_app; congruence|].
    split.
    + apply Forall_app. split.
      * eapply Forall_impl; [|exact Hall1]. simpl. intros c H.
        repeat split; try tauto; lia.
      * eapply Forall_impl; [|exact Hall2]. simpl. intros c H.
        repeat split; try tauto; lia.
    + rewrite map_app. destruct a1 as [|c1 [|c1' a1]]; simpl in *.
      * exact Hnd2.
      * constructor; [|exact Hnd2].
        intros Hin. apply in_map_iff in Hin as (c2 & Hid & Hin).
        rewrite Forall_forall in Hall2. specialize (Hall2 c2 Hin).
        inversion Hall1; subst. lia.
      * lia.
Qed.

Lemma pushLoop_report (user : User) (d : string) (now : Z)
  (files : list PushFile) (db : DB) :
  Forall (fun r => r_status r = conflict <-> r_conflictId r <> None)
         (snd (pushLoop user d now db files)).
Proof.
  revert db. induction files as [|file files IH]; intros db; simpl.
  - constructor.
  - pose proof (pushFile_report user d now db file) as (_ & _ & Hr & _).
    destruct (pushFile user d now db file) as [db1 r].
    specialize (IH db1).
    destruct (pushLoop user d now db1 files) as [db2 rs].
    simpl in *. now constructor.
Qed.

Lemma conflictOf_count (rs : list PushResult) :
  Forall (fun r => r_status r = conflict <-> r_conflictId r <> None) rs ->
  List.length (flat_map conflictOf rs)
  = List.length (filter (fun r => match r_status r with
                                  | conflict => true
                                  | _ => false
                                  end) rs).
Proof.
  induction 1 as [|r rs Hr _ IH]; simpl; [reflexivity|].
  rewrite length_app, IH. unfold conflictOf.
  destruct (r_conflictId r) as [id|], (r_status r) eqn:E; simpl;
    try reflexivity.
  - exfalso. assert (H : success = conflict) by (apply Hr; discriminate).
    discriminate.
  - exfalso. assert (H : error = conflict) by (apply Hr; discriminate).
    discriminate.
  - exfalso. now apply (proj1 Hr).
Qed.

(** X2. A push never rewrites or removes a Conflict record: the conflict
    table after the push is the table before it followed by one new,
    unresolved record of the pushing user and device per entry answered
    "conflict", in the order of the answers, each under the id and the path
    of its answer. *)
Theorem push_only_appends_conflicts :
  forall (db : DB) (now : Z) (limiter : nat -> LimitVerdict)
         (apiKey deviceId : string) (files : list PushFile) (user : User)
         (final : DB) (results : list PushResult),
    validateApiKeyInternal db apiKey = Some user ->
    pushSync db now limiter apiKey deviceId files = Returned (final, results) ->
    exists added : list Conflict,
      syncConflicts final = (syncConflicts db ++ added)%list
      /\ map (fun c => (c_filePath c, c_id c)) added
         = flat_map conflictOf results
      /\ List.length added
         = List.length (filter (fun r => match r_status r with
                                         | conflict => true
                                         | _ => false
                                         end) results)
      /\ Forall (fun c => c_userId c = u_id user
                          /\ c_resolvedAt c = None
                          /\ c_resolution c = None
                          /\ c_deviceBId c = deviceId
                          /\ c_createdAt c = now) added.
Proof.
  intros db now limiter apiKey deviceId files user final results Hvalid Hrun.
  unfold pushSync in Hrun. rewrite Hvalid in Hrun.
  destruct (negb (ok (limiter (u_id user)))); [discriminate|].
  pose proof (pushLoop_conflicts user deviceId now files db)
    as (_ & added & Hc & Hm & Hall & _).
  pose proof (pushLoop_report user deviceId now files db) as Hrep.
  destruct (pushLoop user deviceId now db files) as [db1 rs].
  simpl in *. injection Hrun as <- <-.
  exists added. split; [exact Hc|]. split; [exact Hm|].
  split.
  - rewrite <- (conflictOf_count _ Hrep), <- Hm. now rewrite length_map.
  - eapply Forall_impl; [|exact Hall]. simpl. tauto.
Qed.

Lemma accounts_same (uid : nat) (db db' : DB) :
  apiKeys db' = apiKeys db -> users db' = users db -> sameAccounts uid db db'.
Proof.
  intros Hk Hu. split; [exact Hk|].
  exists (fun u => u). rewrite map_id. now repeat split.
Qed.

Lemma sameAccounts_trans (uid : nat) (a b c : DB) :
  sameAccounts uid a b -> sameAccounts uid b c -> sameAccounts uid a c.
Proof.
  intros (Hk1 & g1 & Hu1 & Hid1 & Hother1) (Hk2 & g2 & Hu2 & Hid2 & Hother2).
  split; [congruence|].
  exists (fun u => g2 (g1 u)).
  split; [rewrite Hu2, Hu1; apply map_map|].
  split.
  - intros u. now rewrite Hid2, Hid1.
  - intros u Hu. rewrite (Hother1 u Hu). now apply Hother2.
Qed.

Lemma patchUser_accounts (db : DB) (uid : nat) (f : User -> User) :
  (forall u, u_id (f u) = u_id u) ->
  sameAccounts uid db (patchUser db uid f).
Proof.
  intros Hf. split; [reflexivity|].
  exists (fun u => if Nat.eqb (u_id u) uid then f u else u).
  split; [reflexivity|]. split.
  - intros u. now destruct (Nat.eqb (u_id u) uid).
  - intros u Hu. apply Nat.eqb_neq in Hu. now rewrite Hu.
Qed.

Lemma pushFile_accounts (user : User) (d : string) (now : Z) (db : DB)
  (file : PushFile) :
  sameAccounts (u_id user) db (fst (pushFile user d now db file)).
Proof.
  unfold pushFile.
  destruct (storageLimit user <? storageUsed user + byteLength (p_content file)).
  { now apply accounts_same. }
  destruct (byUserAndPath _ _ _) as [existing|].
  - destruct (String.eqb (f_contentHash existing) (p_contentHash file)).
    { now apply accounts_same. }
    simpl negb at 1. simpl andb.
    destruct (String.eqb (f_deviceId existing) d); simpl negb; cbv iota;
      simpl fst.
    + unfold patchFile. apply accounts_same; now destruct (table _).
    + now apply accounts_same.
  - simpl fst.
    eapply sameAccounts_trans; [|now apply patchUser_accounts].
    apply accounts_same; now destruct (table _).
Qed.

Lemma pushLoop_accounts (user : User) (d : string) (now : Z)
  (files : list PushFile) (db : DB) :
  sameAccounts (u_id user) db (fst (pushLoop user d now db files)).
Proof.
  revert db. induction files as [|file files IH]; intros db; simpl.
  - now apply accounts_same.
  - pose proof (pushFile_accounts user d now db file) as H1.
    destruct (pushFile user d now db file) as [db1 r].
    specialize (IH db1).
    destruct (pushLoop user d now db1 files) as [db2 rs]. simpl in *.
    eapply sameAccounts_trans; eassumption.
Qed.

(** Across a change of the fields of one user, every credential resolves
    as before, to the same user id, and to the same document when the user
    is another one. *)
Lemma validate_sameAccounts (uid : nat) (db db' : DB) :
  sameAccounts uid db db' ->
  exists g : User -> User,
    (forall u, u_id (g u) = u_id u)
    /\ (forall u, u_id u <> uid -> g u = u)
    /\ (forall id, getUser db' id = option_map g (getUser db id))
    /\ forall apiKey,
         validateApiKeyInternal db' apiKey
         = option_map g (validateApiKeyInternal db apiKey).
Proof.
  intros (Hk & g & Hu & Hid & Hother).
  assert (Hget : forall id, getUser db' id = option_map g (getUser db id)).
  { intros id. unfold getUser. rewrite Hu. apply find_map_same.
    intros u. now rewrite Hid. }
  exists g. split; [exact Hid|]. split; [exact Hother|].
  split; [exact Hget|].
  intros apiKey. unfold validateApiKeyInternal. rewrite Hk.
  destruct (find _ (apiKeys db)) as [k|]; [|reflexivity].
  destruct (revoked k); [reflexivity | apply Hget].
Qed.

Lemma pushSync_accounts (db : DB) (now : Z) (limiter : nat -> LimitVerdict)
  (apiKey d : string) (files : list PushFile) (user : User) (final : DB)
  (results : list PushResult) :
  validateApiKeyInternal db apiKey = Some user ->
  pushSync db now limiter apiKey d files = Returned (final, results) ->
  sameAccounts (u_id user) db final
  /\ final = patchUser (fst (pushLoop user d now db files)) (u_id user)
               (setLastSyncAt now)
  /\ results = snd (pushLoop user d now db files).
Proof.
  intros Hvalid Hrun. unfold pushSync in Hrun. rewrite Hvalid in Hrun.
  destruct (negb (ok (limiter (u_id user)))); [discriminate|].
  pose proof (pushLoop_accounts user d now files db) as Hacc.
  destruct (pushLoop user d now db files) as [db1 rs]. simpl in *.
  injection Hrun as <- <-. split; [|now split].
  eapply sameAccounts_trans; [exact Hacc|].
  now apply patchUser_accounts.
Qed.

Lemma find_app_none {A : Type} (p : A -> bool) (l l' : list A) :
  find p l = None -> find p (l ++ l') = find p l'.
Proof.
  induction l as [|x l IH]; simpl; [reflexivity|].
  destruct (p x); [discriminate | exact IH].
Qed.

Lemma find_by_unique_id {A : Type} (idOf : A -> nat) (l : list A) (x : A) :
  NoDup (map idOf l) -> In x l ->
  find (fun y => Nat.eqb (idOf y) (idOf x)) l = Some x.
Proof.
  induction l as [|y l IH]; simpl; intros Hnd Hin; [contradiction|].
  inversion Hnd as [|? ? Hnotin Hrest]; subst.
  destruct Hin as [->|Hin].
  - now rewrite Nat.eqb_refl.
  - destruct (Nat.eqb (idOf y) (idOf x)) eqn:E.
    + apply Nat.eqb_eq in E. exfalso. apply Hnotin. rewrite E.
      now apply in_map.
    + now apply IH.
Qed.

(** X3. The conflict id in a push answer names a record that the conflict
    queries serve: after the push, [getConflict] under the same credential
    returns, for that id, a record of the pushing user with the path of the
    answer and the pushing device as side B, and [getConflicts] lists
    it. *)
Theorem pushed_conflict_can_be_fetched :
  forall (db : DB) (now : Z) (limiter : nat -> LimitVerdict)
         (apiKey deviceId : string) (files : list PushFile) (user : User)
         (final : DB) (results : list PushResult) (r : PushResult) (id : nat),
    conflictsKeyed db ->
    validateApiKeyInternal db apiKey = Some user ->
    pushSync db now limiter apiKey deviceId files = Returned (final, results) ->
    In r results ->
    r_conflictId r = Some id ->
    exists (c : Conflict) (listed : list Conflict),
      getConflict final apiKey id = Returned c
      /\ getConflicts final apiKey = Returned listed
      /\ In c listed
      /\ c_id c = id
      /\ c_userId c = u_id user
      /\ c_filePath c = r_filePath r
      /\ c_deviceBId c = deviceId
      /\ c_resolvedAt c = None.
Proof.
  intros db now limiter apiKey deviceId files user final results r id
         Hkeyed Hvalid Hrun Hr Hid.
  destruct (pushSync_accounts _ _ _ _ _ _ _ _ _ Hvalid Hrun)
    as (Hacc & Hfinal & Hresults).
  destruct (validate_sameAccounts _ _ _ Hacc) as (g & Hg & _ & _ & Hv).
  pose proof (pushLoop_conflicts user deviceId now files db)
    as (_ & added & Hc & Hm & Hall & Hnd).
  simpl in Hc, Hm, Hall. rewrite <- Hresults in Hm.
  assert (Hcf : syncConflicts final = (syncConflicts db ++ added)%list)
    by (rewrite Hfinal; exact Hc).
  assert (Hin : In (r_filePath r, id)
                   (map (fun c => (c_filePath c, c_id c)) added)).
  { rewrite Hm. apply in_flat_map. exists r. split; [exact Hr|].
    unfold conflictOf. rewrite Hid. now left. }
  apply in_map_iff in Hin as (c & [= Hpath Hcid] & Hcin).
  rewrite Forall_forall in Hall.
  destruct (Hall c Hcin) as (Hrange & Huser & Hopen & _ & Hdev & _).
  assert (Hfind : find (fun x => Nat.eqb (c_id x) id) (syncConflicts final)
                  = Some c).
  { rewrite Hcf, find_app_none.
    - subst id. now apply find_by_unique_id.
    - destruct (find _ (syncConflicts db)) as [c0|] eqn:E; [|reflexivity].
      apply find_some in E as [Hc0 E]. apply Nat.eqb_eq in E.
      specialize (Hkeyed c0 Hc0). lia. }
  exists c, (unresolvedOf final (u_id user)).
  unfold getConflict, getConflicts. rewrite Hv, Hvalid. simpl option_map.
  cbv iota. rewrite Hg, Hfind, Huser, Nat.eqb_refl. simpl negb. cbv iota.
  split; [reflexivity|]. split; [reflexivity|].
  split.
  - unfold unresolvedOf. apply filter_In. split.
    + rewrite Hcf. apply in_or_app. now right.
    + now rewrite Huser, Nat.eqb_refl, Hopen.
  - now repeat split.
Qed.

Lemma byUser_patchRows_other (rows : list SyncedFile) (id uid : nat)
  (g : SyncedFile -> SyncedFile) :
  (forall r, f_userId (g r) = f_userId r) ->
  (forall r, In r rows -> f_id r = id -> f_userId r <> uid) ->
  byUser (patchRows f_id id g rows) uid = byUser rows uid.
Proof.
  intros Hg. unfold byUser, patchRows.
  induction rows as [|r rows IH]; intros Hrows; simpl; [reflexivity|].
  rewrite IH by (intros r' Hr'; apply Hrows; now right).
  destruct (Nat.eqb (f_id r) id) eqn:E; [|reflexivity].
  apply Nat.eqb_eq in E.
  pose proof (Hrows r (or_introl eq_refl) E) as Hne.
  apply Nat.eqb_neq in Hne. now rewrite Hg, Hne.
Qed.

Lemma stored_is_a_row (db : DB) (uid : nat) (path : string) (row : SyncedFile) :
  stored db uid path = Some row ->
  In row (tableOf db (table (categorizeFile path)))
  /\ f_userId row = uid /\ f_filePath row = path.
Proof.
  unfold stored, byUserAndPath. intros H.
  apply find_some in H as [Hin H]. apply andb_prop in H as [Hu Hp].
  apply Nat.eqb_eq in Hu. apply String.eqb_eq in Hp. now repeat split.
Qed.

Lemma sameTable_eq (a b : TableName) : sameTable a b = true -> a = b.
Proof. now destruct a, b. Qed.

Lemma pushFile_other_rows (user : User) (d : string) (now : Z) (db : DB)
  (file : PushFile) (uid : nat) (t : TableName) :
  wellKeyed db -> uid <> u_id user ->
  byUser (tableOf (fst (pushFile user d now db file)) t) uid
  = byUser (tableOf db t) uid.
Proof.
  intros Hwf Hother.
  destruct (pushFile_effect user d now db file)
    as (_ & [(Htab & _ & _) | [(ex & Hfound & _ & Htab) | (_ & _ & Htab)]]);
    rewrite Htab; [reflexivity | |].
  - destruct (sameTable _ t) eqn:Esame; [|reflexivity].
    apply sameTable_eq in Esame. subst t.
    apply stored_is_a_row in Hfound as (Hin & Huser & _).
    apply byUser_patchRows_other; [reflexivity|].
    intros r Hr Hid.
    rewrite (NoDup_map_injective f_id _ r ex (proj1 (Hwf _)) Hr Hin Hid).
    congruence.
  - destruct (sameTable _ t); [|reflexivity].
    unfold byUser. rewrite filter_app. simpl.
    apply Nat.eqb_neq in Hother. rewrite Nat.eqb_sym in Hother.
    rewrite Hother. apply app_nil_r.
Qed.

Lemma pushLoop_wellKeyed (user : User) (d : string) (now : Z)
  (files : list PushFile) (db : DB) :
  wellKeyed db -> wellKeyed (fst (pushLoop user d now db files)).
Proof.
  revert db. induction files as [|file files IH]; intros db Hwf; simpl.
  - exact Hwf.
  - pose proof (pushFile_wellKeyed user d now db file Hwf) as H1.
    destruct (pushFile user d now db file) as [db1 r].
    specialize (IH db1 H1).
    now destruct (pushLoop user d now db1 files) as [db2 rs].
Qed.

Lemma pushLoop_other_rows (user : User) (d : string) (now : Z)
  (files : list PushFile) (db : DB) (uid : nat) (t : TableName) :
  wellKeyed db -> uid <> u_id user ->
  byUser (tableOf (fst (pushLoop user d now db files)) t) uid
  = byUser (tableOf db t) uid.
Proof.
  revert db. induction files as [|file files IH]; intros db Hwf Hother; simpl.
  - reflexivity.
  - pose proof (pushFile_wellKeyed user d now db file Hwf) as H1.
    pose proof (pushFile_other_rows user d now db file uid t Hwf Hother) as H2.
    destruct (pushFile user d now db file) as [db1 r].
    specialize (IH db1 H1 Hother).
    destruct (pushLoop user d now db1 files) as [db2 rs]. simpl in *.
    congruence.
Qed.

Lemma unresolvedOf_app_other (old added : list Conflict) (uid : nat) :
  Forall (fun c => c_userId c <> uid) added ->
  filter (fun c => Nat.eqb (c_userId c) uid
                   && match c_resolvedAt c with
                      | None => true
                      | Some _ => false
                      end) (old ++ added)
  = filter (fun c => Nat.eqb (c_userId c) uid
                     && match c_resolvedAt c with
                        | None => true
                        | Some _ => false
                        end) old.
Proof.
  intros Hall. rewrite filter_app.
  replace (filter _ added) with (@nil Conflict); [apply app_nil_r|].
  induction Hall as [|c added Hc _ IH]; simpl; [reflexivity|].
  apply Nat.eqb_neq in Hc. now rewrite Hc.
Qed.

(** X4. A push changes nothing that another user can observe: a
    credential of another user resolves to the same user document, and
    that user's pull, change feed and conflict list are what they were. *)
Theorem push_leaves_other_users_alone :
  forall (db : DB) (now : Z) (limiter : nat -> LimitVerdict)
         (apiKey deviceId : string) (files : list PushFile) (user : User)
         (final : DB) (results : list PushResult)
         (otherKey : string) (other : User),
    wellKeyed db ->
    validateApiKeyInternal db apiKey = Some user ->
    pushSync db now limiter apiKey deviceId files = Returned (final, results) ->
    validateApiKeyInternal db otherKey = Some other ->
    u_id other <> u_id user ->
    validateApiKeyInternal final otherKey = Some other
    /\ (forall d since,
          pullSync final otherKey d since = pullSync db otherKey d since)
    /\ (forall d,
          subscribeToChanges final otherKey d
          = subscribeToChanges db otherKey d)
    /\ getConflicts final otherKey = getConflicts db otherKey.
Proof.
  intros db now limiter apiKey deviceId files user final results otherKey
         other Hwf Hvalid Hrun Hov Hne.
  destruct (pushSync_accounts _ _ _ _ _ _ _ _ _ Hvalid Hrun)
    as (Hacc & Hfinal & _).
  destruct (validate_sameAccounts _ _ _ Hacc) as (g & _ & Hg & _ & Hv).
  assert (Hov' : validateApiKeyInternal final otherKey = Some other).
  { rewrite Hv, Hov. simpl. now rewrite (Hg other Hne). }
  assert (Hfiles : allFilesOf final (u_id other) = allFilesOf db (u_id other)).
  { unfold allFilesOf. rewrite Hfinal.
    change (configTable (patchUser ?x _ _)) with (tableOf x configFiles).
    change (sessionTable (patchUser ?x _ _)) with (tableOf x sessionFiles).
    now rewrite !pushLoop_other_rows. }
  assert (Hconf : unresolvedOf final (u_id other)
                  = unresolvedOf db (u_id other)).
  { pose proof (pushLoop_conflicts user deviceId now files db)
      as (_ & added & Hc & _ & Hall & _).
    unfold unresolvedOf. rewrite Hfinal. simpl in Hc |- *. rewrite Hc.
    apply unresolvedOf_app_other.
    eapply Forall_impl; [|exact Hall]. simpl. intros c H. intuition congruence. }
  split; [exact Hov'|].
  unfold pullSync, subscribeToChanges, getConflicts.
  rewrite Hov', Hov, Hfiles, Hconf. now repeat split.
Qed.

Lemma pushFile_keeps_absent (user : User) (d : string) (now : Z) (db : DB)
  (file : PushFile) (path : string) :
  p_filePath file <> path ->
  stored db (u_id user) path = None ->
  stored (fst (pushFile user d now db file)) (u_id user) path = None.
Proof.
  intros Hother Hnone. unfold stored at 1.
  destruct (pushFile_effect user d now db file)
    as (_ & [(Htab & _ & _) | [(ex & _ & _ & Htab) | (_ & _ & Htab)]]);
    rewrite Htab; try exact Hnone.
  - destruct (sameTable _ _); [|exact Hnone].
    unfold byUserAndPath, patchRows. rewrite find_map_same.
    + unfold stored, byUserAndPath in Hnone. now rewrite Hnone.
    + intros r. now destruct (Nat.eqb (f_id r) (f_id ex)).
  - destruct (sameTable _ _); [|exact Hnone].
    unfold byUserAndPath. rewrite find_app_none by exact Hnone.
    simpl. apply String.eqb_neq in Hother. rewrite Hother.
    now rewrite Bool.andb_false_r.
Qed.

Lemma pushLoop_keeps_absent (user : User) (d : string) (now : Z)
  (files : list PushFile) (db : DB) (path : string) :
  ~ In path (map p_filePath files) ->
  stored db (u_id user) path = None ->
  stored (fst (pushLoop user d now db files)) (u_id user) path = None.
Proof.
  revert db. induction files as [|file files IH]; intros db Hnot Hnone.
  - exact Hnone.
  - simpl.
    pose proof (pushFile_keeps_absent user d now db file path
                  ltac:(intros Heq; apply Hnot; left; exact Heq) Hnone) as H1.
    destruct (pushFile user d now db file) as [db1 r]. simpl in H1.
    specialize (IH db1 ltac:(intros Hin; apply Hnot; right; exact Hin) H1).
    now destruct (pushLoop user d now db1 files) as [db2 rs].
Qed.

Lemma stored_patchUser (db : DB) (uid : nat) (f : User -> User) (uid' : nat)
  (path : string) :
  stored (patchUser db uid f) uid' path = stored db uid' path.
Proof. unfold stored. now destruct (table _). Qed.

(** A stored entry whose last writer is another device reaches the pull of
    device [d]. *)
Lemma stored_row_is_pulled (db : DB) (apiKey d path : string)
  (since : option Z) (user : User) (row : SyncedFile) :
  validateApiKeyInternal db apiKey = Some user ->
  stored db (u_id user) path = Some row ->
  f_deviceId row <> d ->
  (forall t, since = Some t -> t < f_syncedAt row) ->
  exists files : list PulledFile,
    pullSync db apiKey d since = Returned files /\ In (pulled row) files.
Proof.
  intros Hvalid Hrow Hdev Hsince.
  unfold pullSync. rewrite Hvalid. eexists. split; [reflexivity|].
  apply in_map, filter_In. split.
  - apply stored_is_a_row in Hrow as (Hin & Huser & _).
    unfold allFilesOf, byUser. apply in_or_app.
    destruct (table _); [left | right]; apply filter_In;
      (split; [exact Hin | now apply Nat.eqb_eq]).
  - now apply pullFilter_true.
Qed.

(** What a push leaves stored for an entry after which the request holds
    no other entry of the same path. *)
Lemma pushSync_stored_after (db : DB) (now : Z) (limiter : nat -> LimitVerdict)
  (apiKey d : string) (pre post : list PushFile) (file : PushFile)
  (user : User) (row : SyncedFile) (r : PushResult) :
  wellKeyed db ->
  validateApiKeyInternal db apiKey = Some user ->
  ok (limiter (u_id user)) = true ->
  ~ In (p_filePath file) (map p_filePath post) ->
  let before := fst (pushLoop user d now db pre) in
  snd (pushFile user d now before file) = r ->
  stored (fst (pushFile user d now before file)) (u_id user) (p_filePath file)
  = Some row ->
  exists (final : DB) (results : list PushResult) (user' : User),
    pushSync db now limiter apiKey d (pre ++ file :: post)
    = Returned (final, results)
    /\ nth_error results (List.length pre) = Some r
    /\ validateApiKeyInternal final apiKey = Some user'
    /\ u_id user' = u_id user
    /\ stored final (u_id user) (p_filePath file) = Some row.
Proof.
  intros Hwf Hvalid Hok Hpost before Hr Hrow.
  destruct (pushSync db now limiter apiKey d (pre ++ file :: post))
    as [[final results]|e] eqn:Hrun.
  2:{ unfold pushSync in Hrun. rewrite Hvalid, Hok in Hrun. simpl in Hrun.
      destruct (pushLoop user d now db (pre ++ file :: post)); discriminate. }
  destruct (pushSync_accounts _ _ _ _ _ _ _ _ _ Hvalid Hrun)
    as (Hacc & Hfinal & Hresults).
  destruct (validate_sameAccounts _ _ _ Hacc) as (g & Hg & _ & _ & Hv).
  pose proof (pushLoop_length user d now db pre) as Hlen.
  pose proof (pushLoop_wellKeyed user d now pre db Hwf) as Hwf1.
  rewrite pushLoop_app in Hfinal, Hresults. fold before in Hwf1.
  subst before.
  destruct (pushLoop user d now db pre) as [db1 r1]. simpl fst in *.
  simpl snd in Hlen. simpl pushLoop in Hfinal, Hresults.
  pose proof (pushFile_wellKeyed user d now db1 file Hwf1) as Hwf2.
  pose proof (pushLoop_keeps_other_paths user d now post
                (fst (pushFile user d now db1 file)) (p_filePath file) row
                Hwf2 Hpost Hrow) as Hkept.
  destruct (pushFile user d now db1 file) as [db2 r2]. simpl fst in *.
  simpl snd in Hr. subst r2.
  destruct (pushLoop user d now db2 post) as [db3 r3]. simpl in *.
  exists final, results, (g user).
  split; [reflexivity|].
  split; [subst results; rewrite nth_error_app2 by lia;
          now rewrite Hlen, Nat.sub_diag|].
  split; [rewrite Hv, Hvalid; reflexivity|].
  split; [apply Hg|].
  subst final. now rewrite stored_patchUser.
Qed.

Lemma tableOf_patchUser (db : DB) (uid : nat) (f : User -> User)
  (t : TableName) :
  tableOf (patchUser db uid f) t = tableOf db t.
Proof. now destruct t. Qed.

Lemma tableOf_insertFile (db : DB) (T t : TableName) (mk : nat -> SyncedFile) :
  tableOf (insertFile db T mk) t
  = if sameTable T t then (tableOf db t ++ [mk (nextId db)])%list
    else tableOf db t.
Proof. now destruct T, t. Qed.

Lemma sameTable_refl (t : TableName) : sameTable t t = true.
Proof. now destruct t. Qed.

Lemma getUser_patchUser_same (db : DB) (uid : nat) (f : User -> User) :
  (forall u, u_id (f u) = u_id u) ->
  getUser (patchUser db uid f) uid = option_map f (getUser db uid).
Proof.
  intros Hf. unfold getUser, patchUser, patchRows. simpl.
  rewrite find_map_same.
  - destruct (find _ (users db)) as [u|] eqn:E; [|reflexivity].
    apply find_some in E as [_ E]. simpl. now rewrite E.
  - intros u. destruct (Nat.eqb (u_id u) uid) eqn:E; [|exact E].
    now rewrite Hf.
Qed.

(** X5. A new path pushed by device [d] within the quota is answered
    "success" and stored as version 1; that turn of the loop sets the
    user's storage counter to the counter read before the loop plus the
    size of the entry.  The file reaches every other device: a pull by a
    device other than [d], without a cursor or with a cursor before the
    time of the push, returns the path with the pushed content, hash and
    modification time, version 1, and [d] as its writer. *)
Theorem pushed_new_file_reaches_other_devices :
  forall (db : DB) (now : Z) (limiter : nat -> LimitVerdict)
         (apiKey deviceId : string) (pre post : list PushFile)
         (file : PushFile) (user : User),
    wellKeyed db ->
    validateApiKeyInternal db apiKey = Some user ->
    ok (limiter (u_id user)) = true ->
    ~ In (p_filePath file) (map p_filePath pre) ->
    ~ In (p_filePath file) (map p_filePath post) ->
    storageUsed user + byteLength (p_content file) <= storageLimit user ->
    stored db (u_id user) (p_filePath file) = None ->
    let before := fst (pushLoop user deviceId now db pre) in
    exists (after final : DB) (results : list PushResult) (id : nat),
      pushFile user deviceId now before file = (after, succeeded file)
      /\ getUser after (u_id user)
         = option_map
             (setStorageUsed (storageUsed user + byteLength (p_content file)))
             (getUser before (u_id user))
      /\ syncConflicts after = syncConflicts before
      /\ pushSync db now limiter apiKey deviceId (pre ++ file :: post)
         = Returned (final, results)
      /\ nth_error results (List.length pre) = Some (succeeded file)
      /\ forall (d : string) (since : option Z),
           d <> deviceId ->
           (forall t, since = Some t -> t < now) ->
           exists files : list PulledFile,
             pullSync final apiKey d since = Returned files
             /\ In (mkPulled id (p_filePath file) (p_content file)
                      (p_contentHash file) (p_lastModified file) 1 now
                      deviceId) files.
Proof.
  intros db now limiter apiKey deviceId pre post file user
         Hwf Hvalid Hok Hpre Hpost Hquota Hnone before.
  assert (Hnone1 : stored before (u_id user) (p_filePath file) = None)
    by now apply pushLoop_keeps_absent.
  set (row := newDocument user deviceId now (categorizeFile (p_filePath file))
                file (nextId before)).
  assert (Hstep : pushFile user deviceId now before file
                  = (patchUser
                       (insertFile before
                          (table (categorizeFile (p_filePath file)))
                          (newDocument user deviceId now
                             (categorizeFile (p_filePath file)) file))
                       (u_id user)
                       (setStorageUsed
                          (storageUsed user + byteLength (p_content file))),
                     succeeded file)).
  { unfold pushFile. rewrite (within_quota _ _ Hquota).
    unfold stored in Hnone1. now rewrite Hnone1. }
  destruct (pushSync_stored_after db now limiter apiKey deviceId pre post file
              user row (succeeded file) Hwf Hvalid Hok Hpost)
    as (final & results & user' & Hrun & Hnth & Hv & Hid & Hrow).
  { fold before. now rewrite Hstep. }
  { fold before. rewrite Hstep. simpl fst. rewrite stored_patchUser.
    unfold stored, byUserAndPath.
    rewrite tableOf_insertFile, sameTable_refl.
    apply find_app_new; [exact Hnone1|].
    simpl. now rewrite Nat.eqb_refl, String.eqb_refl. }
  eexists _, final, results, (nextId before).
  split; [exact Hstep|].
  split.
  { rewrite getUser_patchUser_same by reflexivity.
    unfold getUser. now destruct (table _). }
  split; [now destruct (table _)|].
  split; [exact Hrun|]. split; [exact Hnth|].
  intros d since Hd Hsince. rewrite <- Hid in Hrow.
  destruct (stored_row_is_pulled final apiKey d (p_filePath file) since user'
              row Hv Hrow) as (files & Hpull & Hin).
  - simpl. congruence.
  - exact Hsince.
  - exists files. split; [exact Hpull | exact Hin].
Qed.

(** X6. A changed file pushed within the quota by the device that last
    wrote the stored entry replaces it without a conflict: the answer is
    "success", no Conflict record is created and the user documents,
    storage counter included, stay as they were in that turn of the loop;
    the entry keeps its id, its version grows by one, and a pull by any
    other device, without a cursor or with a cursor before the time of the
    push, returns the pushed content under that version. *)
Theorem pushed_update_reaches_other_devices :
  forall (db : DB) (now : Z) (limiter : nat -> LimitVerdict)
         (apiKey deviceId : string) (pre post : list PushFile)
         (file : PushFile) (user : User) (existing : SyncedFile),
    wellKeyed db ->
    validateApiKeyInternal db apiKey = Some user ->
    ok (limiter (u_id user)) = true ->
    ~ In (p_filePath file) (map p_filePath pre) ->
    ~ In (p_filePath file) (map p_filePath post) ->
    storageUsed user + byteLength (p_content file) <= storageLimit user ->
    stored db (u_id user) (p_filePath file) = Some existing ->
    f_contentHash existing <> p_contentHash file ->
    f_deviceId existing = deviceId ->
    let before := fst (pushLoop user deviceId now db pre) in
    exists (after final : DB) (results : list PushResult),
      pushFile user deviceId now before file = (after, succeeded file)
      /\ syncConflicts after = syncConflicts before
      /\ users after = users before
      /\ pushSync db now limiter apiKey deviceId (pre ++ file :: post)
         = Returned (final, results)
      /\ nth_error results (List.length pre) = Some (succeeded file)
      /\ forall (d : string) (since : option Z),
           d <> deviceId ->
           (forall t, since = Some t -> t < now) ->
           exists files : list PulledFile,
             pullSync final apiKey d since = Returned files
             /\ In (mkPulled (f_id existing) (p_filePath file) (p_content file)
                      (p_contentHash file) (p_lastModified file)
                      (f_version existing + 1) now deviceId) files.
Proof.
  intros db now limiter apiKey deviceId pre post file user existing
         Hwf Hvalid Hok Hpre Hpost Hquota Hfound Hhash Hdev before.
  assert (Hfound1 : stored before (u_id user) (p_filePath file) = Some existing)
    by now apply pushLoop_keeps_other_paths.
  assert (Hstep : pushFile user deviceId now before file
                  = (patchFile before
                       (table (categorizeFile (p_filePath file)))
                       (f_id existing)
                       (overwrite deviceId now file existing),
                     succeeded file)).
  { unfold pushFile. rewrite (within_quota _ _ Hquota).
    unfold stored in Hfound1. rewrite Hfound1.
    apply String.eqb_neq in Hhash. apply String.eqb_eq in Hdev.
    now rewrite Hhash, Hdev. }
  set (row := overwrite deviceId now file existing existing).
  destruct (pushSync_stored_after db now limiter apiKey deviceId pre post file
              user row (succeeded file) Hwf Hvalid Hok Hpost)
    as (final & results & user' & Hrun & Hnth & Hv & Hid & Hrow).
  { fold before. now rewrite Hstep. }
  { fold before. rewrite Hstep. simpl fst.
    unfold stored, byUserAndPath, patchFile.
    rewrite tableOf_setTable, sameTable_refl.
    unfold patchRows. rewrite find_map_same.
    - unfold stored, byUserAndPath in Hfound1. rewrite Hfound1. simpl.
      now rewrite Nat.eqb_refl.
    - intros r. now destruct (Nat.eqb (f_id r) (f_id existing)). }
  eexists _, final, results.
  split; [exact Hstep|].
  split; [unfold patchFile; now destruct (table _)|].
  split; [unfold patchFile; now destruct (table _)|].
  split; [exact Hrun|]. split; [exact Hnth|].
  intros d since Hd Hsince. rewrite <- Hid in Hrow.
  destruct (stored_row_is_pulled final apiKey d (p_filePath file) since user'
              row Hv Hrow) as (files & Hpull & Hin).
  - simpl. congruence.
  - exact Hsince.
  - exists files. split; [exact Hpull|].
    apply stored_is_a_row in Hfound as (_ & _ & Hpath).
    unfold pulled, row in Hin. simpl in Hin. now rewrite Hpath in Hin.
Qed.

(** X7. A push that the rate limiter refuses throws before any entry is
    processed; the wait it reports is [retryAfter] in whole seconds, rounded
    up. *)
Theorem push_refused_by_rate_limiter :
  forall (db : DB) (now : Z) (limiter : nat -> LimitVerdict)
         (apiKey deviceId : string) (files : list PushFile) (user : User),
    validateApiKeyInternal db apiKey = Some user ->
    ok (limiter (u_id user)) = false ->
    exists seconds : Z,
      pushSync db now limiter apiKey deviceId files
      = Threw (RateLimitExceeded seconds)
      /\ 1000 * (seconds - 1) < retryAfter (limiter (u_id user))
         <= 1000 * seconds.
Proof.
  intros db now limiter apiKey deviceId files user Hvalid Hno.
  exists (ceilDiv1000 (retryAfter (limiter (u_id user)))).
  unfold pushSync. rewrite Hvalid, Hno. split; [reflexivity|].
  unfold ceilDiv1000.
  pose proof (Z.div_mod (- retryAfter (limiter (u_id user))) 1000
                ltac:(lia)) as Hdm.
  pose proof (Z.mod_pos_bound (- retryAfter (limiter (u_id user))) 1000
                ltac:(lia)) as Hb.
  lia.
Qed.

Lemma documentsAt_patchRows (rows : list SyncedFile) (id uid : nat)
  (path : string) (g : SyncedFile -> SyncedFile) :
  (forall r, f_userId (g r) = f_userId r) ->
  (forall r, f_filePath (g r) = f_filePath r) ->
  List.length (documentsAt (patchRows f_id id g rows) uid path)
  = List.length (documentsAt rows uid path).
Proof.
  intros Hu Hp. unfold documentsAt, patchRows.
  induction rows as [|r rows IH]; simpl; [reflexivity|].
  destruct (Nat.eqb (f_id r) id).
  - rewrite Hu, Hp. destruct (_ && _); simpl; now rewrite IH.
  - destruct (_ && _); simpl; now rewrite IH.
Qed.

Lemma documentsAt_absent (rows : list SyncedFile) (uid : nat) (path : string) :
  byUserAndPath rows uid path = None -> documentsAt rows uid path = [].
Proof.
  unfold byUserAndPath, documentsAt.
  induction rows as [|r rows IH]; simpl; [reflexivity|].
  destruct (_ && _); [discriminate | exact IH].
Qed.

Lemma documentsAt_insert (rows : list SyncedFile) (uid : nat) (path : string)
  (doc : SyncedFile) :
  byUserAndPath rows (f_userId doc) (f_filePath doc) = None ->
  (List.length (documentsAt rows uid path) <= 1)%nat ->
  (List.length (documentsAt (rows ++ [doc]) uid path) <= 1)%nat.
Proof.
  intros Hnone Hone. unfold documentsAt. rewrite filter_app, length_app.
  simpl.
  destruct (Nat.eqb (f_userId doc) uid && String.eqb (f_filePath doc) path)
    eqn:E; simpl.
  - apply andb_prop in E as [Eu Ep].
    apply Nat.eqb_eq in Eu. apply String.eqb_eq in Ep. subst uid path.
    apply documentsAt_absent in Hnone. unfold documentsAt in Hnone.
    rewrite Hnone. simpl. lia.
  - unfold documentsAt in Hone. lia.
Qed.

Lemma documentsAt_deleteRow (rows : list SyncedFile) (id uid : nat)
  (path : string) :
  (List.length (documentsAt (deleteRow id rows) uid path)
   <= List.length (documentsAt rows uid path))%nat.
Proof.
  unfold documentsAt, deleteRow.
  induction rows as [|r rows IH]; simpl; [lia|].
  destruct (negb (Nat.eqb (f_id r) id)); simpl;
    destruct (_ && _); simpl; lia.
Qed.

Lemma pushFile_onePerPath (user : User) (d : string) (now : Z) (db : DB)
  (file : PushFile) :
  onePerPath db -> onePerPath (fst (pushFile user d now db file)).
Proof.
  intros Hone t uid path.
  destruct (pushFile_effect user d now db file)
    as (_ & [(Htab & _ & _) | [(ex & _ & _ & Htab) | (Hnone & _ & Htab)]]);
    rewrite Htab; [apply Hone | |].
  - destruct (sameTable _ t); [|apply Hone].
    rewrite documentsAt_patchRows by reflexivity. apply Hone.
  - destruct (sameTable _ t) eqn:Esame; [|apply Hone].
    apply sameTable_eq in Esame. subst t.
    apply documentsAt_insert; [exact Hnone | apply Hone].
Qed.

Lemma pushLoop_onePerPath (user : User) (d : string) (now : Z)
  (files : list PushFile) (db : DB) :
  onePerPath db -> onePerPath (fst (pushLoop user d now db files)).
Proof.
  revert db. induction files as [|file files IH]; intros db Hone; simpl.
  - exact Hone.
  - pose proof (pushFile_onePerPath user d now db file Hone) as H1.
    destruct (pushFile user d now db file) as [db1 r].
    specialize (IH db1 H1).
    now destruct (pushLoop user d now db1 files) as [db2 rs].
Qed.

Lemma deleteEach_onePerPath (t : TableName) (files : list SyncedFile)
  (db : DB) :
  onePerPath db -> onePerPath (deleteEach t files db).
Proof.
  unfold deleteEach. revert db.
  induction files as [|file files IH]; intros db Hone; simpl.
  - exact Hone.
  - apply IH. intros t' uid path. unfold deleteFrom.
    rewrite tableOf_setTable. destruct (sameTable t t') eqn:E; [|apply Hone].
    apply sameTable_eq in E. subst t'.
    eapply Nat.le_trans; [apply documentsAt_deleteRow | apply Hone].
Qed.

(** X8. Every mutation that writes or removes catalog documents keeps the
    catalog free of duplicates: when no table holds two documents of one
    user for one path, none does after [pushSync], [resolveConflict],
    [deleteFile] or [clearAllFiles]. *)
Theorem mutations_keep_one_document_per_path :
  forall db : DB,
    onePerPath db ->
    (forall now limiter apiKey deviceId files final results,
       pushSync db now limiter apiKey deviceId files
       = Returned (final, results) ->
       onePerPath final)
    /\ (forall now apiKey conflictId resolution manualContent deviceId
               final content,
          resolveConflict db now apiKey conflictId resolution manualContent
            deviceId = Returned (final, content) ->
          onePerPath final)
    /\ (forall apiKey fileId final,
          deleteFile db apiKey fileId = Ok final -> onePerPath final)
    /\ (forall apiKey final deletedCount,
          clearAllFiles db apiKey = Returned (final, deletedCount) ->
          onePerPath final).
Proof.
  intros db Hone. split; [|split; [|split]].
  - intros now limiter apiKey deviceId files final results Hrun.
    unfold pushSync in Hrun.
    destruct (validateApiKeyInternal db apiKey) as [user|]; [|discriminate].
    destruct (negb (ok (limiter (u_id user)))); [discriminate|].
    pose proof (pushLoop_onePerPath user deviceId now files db Hone) as H.
    destruct (pushLoop user deviceId now db files) as [db1 rs].
    injection Hrun as <- <-. intros t uid path.
    rewrite tableOf_patchUser. apply H.
  - intros now apiKey conflictId resolution manualContent deviceId final
           content Hrun.
    unfold resolveConflict in Hrun.
    destruct (validateApiKeyInternal db apiKey) as [user|]; [|discriminate].
    destruct (find _ (syncConflicts db)) as [c|]; [|discriminate].
    destruct (negb (Nat.eqb (c_userId c) (u_id user))); [discriminate|].
    destruct (finalContentOf c resolution manualContent deviceId)
      as [finalContent|]; [|discriminate].
    injection Hrun as <- <-. intros t uid path.
    change (tableOf (patchConflict ?x _ _) t) with (tableOf x t).
    destruct (byUserAndPath _ _ _) as [existingFile|] eqn:Hfound.
    + unfold patchFile. rewrite tableOf_setTable.
      destruct (sameTable _ t); [|apply Hone].
      rewrite documentsAt_patchRows by reflexivity. apply Hone.
    + rewrite tableOf_insertFile.
      destruct (sameTable _ t) eqn:E; [|apply Hone].
      apply sameTable_eq in E. rewrite <- E.
      apply documentsAt_insert; [exact Hfound | apply Hone].
  - intros apiKey fileId final Hrun. unfold deleteFile in Hrun.
    destruct (validateApiKeyInternal db apiKey) as [user|]; [|discriminate].
    destruct (find _ (tableOf db (fst fileId))) as [file|]; [|discriminate].
    destruct (negb (Nat.eqb (f_userId file) (u_id user))); [discriminate|].
    injection Hrun as <-. intros t uid path. unfold deleteFrom.
    rewrite tableOf_setTable. rewrite !tableOf_patchUser.
    destruct (sameTable _ t); [|apply Hone].
    eapply Nat.le_trans; [apply documentsAt_deleteRow | apply Hone].
  - intros apiKey final deletedCount Hrun. unfold clearAllFiles in Hrun.
    destruct (validateApiKeyInternal db apiKey) as [user|]; [|discriminate].
    injection Hrun as <- _. intros t uid path.
    rewrite tableOf_patchUser.
    now apply deleteEach_onePerPath, deleteEach_onePerPath.
Qed.

End PushProperties.

(** ** An inventory pushed twice *)

Section RepeatedPush.
Context {P : Platform}.

Lemma byteLength_nonneg (s : string) : 0 <= byteLength s.
Proof. unfold byteLength. lia. Qed.

Lemma pushFile_answer (user : User) (d : string) (now : Z) (db : DB)
  (file : PushFile) :
  r_status (snd (pushFile user d now db file))
  = answerOf user d (stored db (u_id user) (p_filePath file)) file.
Proof.
  unfold pushFile, answerOf, stored.
  destruct (storageLimit user <? _); [reflexivity|].
  destruct (byUserAndPath _ _ _) as [existing|]; [|reflexivity].
  destruct (String.eqb (f_contentHash existing) _); [reflexivity|].
  simpl negb at 1. simpl andb.
  destruct (String.eqb (f_deviceId existing) d); reflexivity.
Qed.

Lemma pushFile_matching (user : User) (d : string) (now : Z) (db : DB)
  (file : PushFile) (existing : SyncedFile) :
  storageUsed user + byteLength (p_content file) <= storageLimit user ->
  stored db (u_id user) (p_filePath file) = Some existing ->
  f_contentHash existing = p_contentHash file ->
  pushFile user d now db file
  = (db, mkPushResult (p_filePath file) success None None).
Proof.
  intros Hq Hfound Hh. unfold pushFile. unfold stored in Hfound.
  rewrite (within_quota _ _ Hq), Hfound.
  apply String.eqb_eq in Hh. now rewrite Hh.
Qed.

Lemma pushFile_keeps_tables (user : User) (d : string) (now : Z) (db : DB)
  (file : PushFile) :
  r_status (snd (pushFile user d now db file)) <> success ->
  forall t, tableOf (fst (pushFile user d now db file)) t = tableOf db t.
Proof.
  unfold pushFile.
  destruct (storageLimit user <? _); [reflexivity|].
  destruct (byUserAndPath _ _ _) as [existing|].
  - destruct (String.eqb (f_contentHash existing) _); [reflexivity|].
    simpl negb at 1. simpl andb.
    destruct (String.eqb (f_deviceId existing) d); simpl.
    + intros H. now contradiction H.
    + intros _ t. now destruct t.
  - simpl. intros H. now contradiction H.
Qed.

Lemma pushFile_keeps_matching (user : User) (d : string) (now : Z) (db : DB)
  (file : PushFile) (existing : SyncedFile) :
  stored db (u_id user) (p_filePath file) = Some existing ->
  f_contentHash existing = p_contentHash file ->
  fst (pushFile user d now db file) = db.
Proof.
  intros Hfound Hh. unfold pushFile. unfold stored in Hfound.
  destruct (storageLimit user <? _); [reflexivity|].
  rewrite Hfound. apply String.eqb_eq in Hh. now rewrite Hh.
Qed.

Lemma pushLoop_keeps_stored (user : User) (d : string) (now : Z)
  (files : list PushFile) (db : DB) (path : string) :
  wellKeyed db -> ~ In path (map p_filePath files) ->
  stored (fst (pushLoop user d now db files)) (u_id user) path
  = stored db (u_id user) path.
Proof.
  intros Hwf Hnot.
  destruct (stored db (u_id user) path) as [row|] eqn:E.
  - now apply pushLoop_keeps_other_paths.
  - now apply pushLoop_keeps_absent.
Qed.

Lemma getUser_insertFile (db : DB) (t : TableName) (mk : nat -> SyncedFile)
  (uid : nat) :
  getUser (insertFile db t mk) uid = getUser db uid.
Proof. now destruct t. Qed.

Lemma pushFile_user_grows (user : User) (d : string) (now : Z) (db : DB)
  (file : PushFile) (u : User) :
  getUser db (u_id user) = Some u ->
  exists u',
    getUser (fst (pushFile user d now db file)) (u_id user) = Some u'
    /\ storageLimit u' = storageLimit u
    /\ (storageUsed u' = storageUsed u
        \/ storageUsed u' = storageUsed user + byteLength (p_content file)).
Proof.
  intros Hu. unfold pushFile.
  destruct (storageLimit user <? _); [exists u; auto|].
  destruct (byUserAndPath _ _ _) as [existing|].
  - destruct (String.eqb (f_contentHash existing) _); [exists u; auto|].
    simpl negb at 1. simpl andb.
    destruct (String.eqb (f_deviceId existing) d); simpl.
    + exists u. split; [|auto].
      now destruct (table (categorizeFile (p_filePath file))).
    + exists u. auto.
  - simpl fst. rewrite getUser_patchUser_same by reflexivity.
    rewrite getUser_insertFile, Hu. simpl.
    eexists. split; [reflexivity|]. split; [reflexivity|]. now right.
Qed.

Lemma pushLoop_user_grows (user : User) (d : string) (now : Z)
  (files : list PushFile) (db : DB) (u : User) :
  getUser db (u_id user) = Some u ->
  storageLimit u = storageLimit user ->
  storageUsed user <= storageUsed u ->
  exists u',
    getUser (fst (pushLoop user d now db files)) (u_id user) = Some u'
    /\ storageLimit u' = storageLimit user
    /\ storageUsed user <= storageUsed u'.
Proof.
  revert db u. induction files as [|file files IH]; intros db u Hu Hl Hs.
  - exists u. auto.
  - simpl.
    destruct (pushFile_user_grows user d now db file u Hu)
      as (u1 & Hu1 & Hl1 & Hs1).
    destruct (pushFile user d now db file) as [db1 r]. simpl in Hu1.
    destruct (IH db1 u1 Hu1) as (u' & Hu' & Hl' & Hs').
    + congruence.
    + pose proof (byteLength_nonneg (p_content file)). lia.
    + destruct (pushLoop user d now db1 files) as [db2 rs]. simpl in *.
      exists u'. auto.
Qed.

Lemma validate_getUser (db : DB) (apiKey : string) (user : User) :
  validateApiKeyInternal db apiKey = Some user ->
  getUser db (u_id user) = Some user.
Proof.
  intros Hvalid.
  destruct (validate_user_id _ _ _ Hvalid) as (k & Hk & Hid).
  unfold validateApiKeyInternal in Hvalid. rewrite Hk in Hvalid.
  destruct (revoked k); [discriminate|]. now rewrite Hid.
Qed.

Lemma wellKeyed_patchUser (db : DB) (uid : nat) (f : User -> User) :
  wellKeyed db -> wellKeyed (patchUser db uid f).
Proof. intros Hwf t. rewrite tableOf_patchUser. apply Hwf. Qed.

(** The user document that the next call reads after a push. *)
Lemma pushSync_next_user (db : DB) (now : Z) (limiter : nat -> LimitVerdict)
  (apiKey d : string) (files : list PushFile) (user user1 : User)
  (final : DB) (results : list PushResult) :
  validateApiKeyInternal db apiKey = Some user ->
  pushSync db now limiter apiKey d files = Returned (final, results) ->
  validateApiKeyInternal final apiKey = Some user1 ->
  u_id user1 = u_id user
  /\ storageLimit user1 = storageLimit user
  /\ storageUsed user <= storageUsed user1.
Proof.
  intros Hvalid Hrun Hvalid1.
  destruct (pushSync_accounts _ _ _ _ _ _ _ _ _ Hvalid Hrun)
    as (Hacc & Hfinal & _).
  destruct (validate_sameAccounts _ _ _ Hacc) as (g & Hg & _ & _ & Hv).
  pose proof (validate_getUser _ _ _ Hvalid1) as Hget1.
  rewrite Hv, Hvalid in Hvalid1. simpl in Hvalid1.
  assert (Hid : u_id user1 = u_id user)
    by (injection Hvalid1 as <-; apply Hg).
  split; [exact Hid|].
  destruct (pushLoop_user_grows user d now files db user
              (validate_getUser _ _ _ Hvalid) eq_refl ltac:(lia))
    as (u' & Hu' & Hl' & Hs').
  assert (Hget : getUser final (u_id user) = Some (setLastSyncAt now u')).
  { rewrite Hfinal, getUser_patchUser_same by reflexivity.
    now rewrite Hu'. }
  rewrite Hid, Hget in Hget1. injection Hget1 as <-.
  simpl. split; [exact Hl' | exact Hs'].
Qed.

(** One entry of a push: its answer and what is stored for its path when
    the push returns. *)
Lemma push_entry (db : DB) (now : Z) (limiter : nat -> LimitVerdict)
  (apiKey d : string) (pre post : list PushFile) (file : PushFile)
  (user : User) :
  wellKeyed db ->
  validateApiKeyInternal db apiKey = Some user ->
  ok (limiter (u_id user)) = true ->
  ~ In (p_filePath file) (map p_filePath pre) ->
  ~ In (p_filePath file) (map p_filePath post) ->
  let before := fst (pushLoop user d now db pre) in
  exists (final : DB) (results : list PushResult),
    pushSync db now limiter apiKey d (pre ++ file :: post)
    = Returned (final, results)
    /\ nth_error results (List.length pre)
       = Some (snd (pushFile user d now before file))
    /\ stored before (u_id user) (p_filePath file)
       = stored db (u_id user) (p_filePath file)
    /\ stored final (u_id user) (p_filePath file)
       = stored (fst (pushFile user d now before file)) (u_id user)
           (p_filePath file)
    /\ wellKeyed final.
Proof.
  intros Hwf Hvalid Hok Hpre Hpost before.
  pose proof (pushLoop_length user d now db pre) as Hlen.
  pose proof (pushLoop_wellKeyed user d now pre db Hwf) as Hwf1.
  pose proof (pushLoop_keeps_stored user d now pre db _ Hwf Hpre) as Hsame.
  fold before in Hwf1, Hsame.
  pose proof (pushFile_wellKeyed user d now before file Hwf1) as Hwf2.
  pose proof (pushLoop_keeps_stored user d now post _ _ Hwf2 Hpost) as Hkept.
  pose proof (pushLoop_wellKeyed user d now post _ Hwf2) as Hwf3.
  unfold pushSync. rewrite Hvalid, Hok. simpl negb. cbv iota.
  rewrite pushLoop_app. subst before.
  destruct (pushLoop user d now db pre) as [db1 r1]. simpl fst in *.
  simpl snd in Hlen. simpl pushLoop.
  destruct (pushFile user d now db1 file) as [db2 r2]. simpl fst in *.
  destruct (pushLoop user d now db2 post) as [db3 r3]. simpl fst in *.
  eexists _, _. split; [reflexivity|].
  split; [rewrite nth_error_app2 by lia; now rewrite Hlen, Nat.sub_diag|].
  split; [exact Hsame|].
  split; [now rewrite stored_patchUser|].
  now apply wellKeyed_patchUser.
Qed.

Lemma NoDup_paths_apart (pre post : list PushFile) (file : PushFile) :
  NoDup (map p_filePath (pre ++ file :: post)) ->
  ~ In (p_filePath file) (map p_filePath pre)
  /\ ~ In (p_filePath file) (map p_filePath post).
Proof.
  rewrite map_app. simpl. intros Hnd.
  apply NoDup_remove_2 in Hnd. rewrite in_app_iff in Hnd. tauto.
Qed.

Lemma answerOf_cases (user : User) (d : string) (found : option SyncedFile)
  (file : PushFile) :
  (answerOf user d found file = error
   /\ storageLimit user < storageUsed user + byteLength (p_content file))
  \/ (storageUsed user + byteLength (p_content file) <= storageLimit user
      /\ (answerOf user d found file = success
          \/ answerOf user d found file = conflict
             /\ exists existing,
                  found = Some existing
                  /\ f_contentHash existing <> p_contentHash file
                  /\ f_deviceId existing <> d)).
Proof.
  unfold answerOf.
  destruct (storageLimit user <? _) eqn:Eq.
  - left. split; [reflexivity | now apply Z.ltb_lt].
  - right. split; [now apply Z.ltb_ge|].
    destruct found as [existing|]; [|now left].
    destruct (String.eqb (f_contentHash existing) _) eqn:Eh; [now left|].
    destruct (String.eqb (f_deviceId existing) d) eqn:Ed; [now left|].
    right. split; [reflexivity|]. exists existing.
    split; [reflexivity|].
    split; [now apply String.eqb_neq | now apply String.eqb_neq].
Qed.

(** One entry of an inventory of distinct paths that is pushed twice in a
    row. *)
Lemma second_push_entry (db db1 : DB) (now1 now2 : Z)
  (limiter : nat -> LimitVerdict) (apiKey d : string)
  (pre post : list PushFile) (file : PushFile)
  (results1 : list PushResult) (user1 : User) (r1 : PushResult) :
  wellKeyed db ->
  NoDup (map p_filePath (pre ++ file :: post)) ->
  pushSync db now1 limiter apiKey d (pre ++ file :: post)
  = Returned (db1, results1) ->
  nth_error results1 (List.length pre) = Some r1 ->
  validateApiKeyInternal db1 apiKey = Some user1 ->
  ok (limiter (u_id user1)) = true ->
  exists (db2 : DB) (results2 : list PushResult) (r2 : PushResult),
    pushSync db1 now2 limiter apiKey d (pre ++ file :: post)
    = Returned (db2, results2)
    /\ nth_error results2 (List.length pre) = Some r2
    /\ (r_status r1 = success ->
        exists row,
          stored db1 (u_id user1) (p_filePath file) = Some row
          /\ f_contentHash row = p_contentHash file
          /\ stored db2 (u_id user1) (p_filePath file) = Some row
          /\ (storageUsed user1 + byteLength (p_content file)
              <= storageLimit user1 ->
              r2 = mkPushResult (p_filePath file) success None None)
          /\ (storageLimit user1
              < storageUsed user1 + byteLength (p_content file) ->
              r_status r2 = error))
    /\ (r_status r1 = error -> r_status r2 = error)
    /\ (r_status r1 = conflict ->
        storageUsed user1 + byteLength (p_content file)
        <= storageLimit user1 ->
        r_status r2 = conflict
        /\ exists added : list Conflict,
             syncConflicts db2 = (syncConflicts db1 ++ added)%list
             /\ added <> []).
Proof.
  intros Hwf Hnd Hfirst Hr1 Hvalid1 Hok1.
  destruct (NoDup_paths_apart _ _ _ Hnd) as [Hpre Hpost].
  destruct (validateApiKeyInternal db apiKey) as [user|] eqn:Hvalid;
    [|unfold pushSync in Hfirst; rewrite Hvalid in Hfirst; discriminate].
  assert (Hok : ok (limiter (u_id user)) = true).
  { unfold pushSync in Hfirst. rewrite Hvalid in Hfirst.
    destruct (ok (limiter (u_id user))); [reflexivity | discriminate]. }
  destruct (pushSync_next_user _ _ _ _ _ _ _ _ _ _ Hvalid Hfirst Hvalid1)
    as (Hid & Hlimit & Hused).
  destruct (push_entry db now1 limiter apiKey d pre post file user
              Hwf Hvalid Hok Hpre Hpost)
    as (final & results & Hrun & Hnth & Hbefore & Hafter & Hwf1).
  rewrite Hfirst in Hrun. injection Hrun as <- <-.
  rewrite Hr1 in Hnth. injection Hnth as Hr1eq.
  pose proof (pushFile_answer user d now1
                (fst (pushLoop user d now1 db pre)) file) as Hans1.
  rewrite <- Hr1eq, Hbefore in Hans1.
  destruct (push_entry db1 now2 limiter apiKey d pre post file user1
              Hwf1 Hvalid1 Hok1 Hpre Hpost)
    as (db2 & results2 & Hrun2 & Hnth2 & Hbefore2 & Hafter2 & _).
  set (before2 := fst (pushLoop user1 d now2 db1 pre)) in *.
  pose proof (pushFile_answer user1 d now2 before2 file) as Hans2.
  rewrite Hbefore2 in Hans2.
  exists db2, results2, (snd (pushFile user1 d now2 before2 file)).
  split; [exact Hrun2|]. split; [exact Hnth2|].
  rewrite Hid in *.
  split; [|split].
  - intros Hsucc.
    destruct (pushFile_success_is_stored user d now1
                (fst (pushLoop user d now1 db pre)) file)
      as (row & Hrow & Hh).
    { now rewrite <- Hr1eq. }
    rewrite <- Hafter in Hrow.
    exists row. split; [exact Hrow|]. split; [exact Hh|].
    rewrite Hrow in Hbefore2.
    assert (Hb2 : stored before2 (u_id user1) (p_filePath file) = Some row)
      by now rewrite Hid.
    split.
    + rewrite Hafter2, <- Hid.
      rewrite (pushFile_keeps_matching user1 d now2 before2 file row Hb2 Hh).
      exact Hb2.
    + split.
      * intros Hq.
        now rewrite (pushFile_matching user1 d now2 before2 file row Hq Hb2 Hh).
      * intros Hq. rewrite Hans2. unfold answerOf.
        apply Z.ltb_lt in Hq. now rewrite Hq.
  - intros Herr. rewrite Hans2.
    destruct (answerOf_cases user d
                (stored db (u_id user) (p_filePath file)) file)
      as [[_ Hq]|[_ [H|[H _]]]]; try congruence.
    unfold answerOf.
    assert (Hq1 : (storageLimit user1
                   <? storageUsed user1 + byteLength (p_content file)) = true)
      by (apply Z.ltb_lt; lia).
    now rewrite Hq1.
  - intros Hconf Hq.
    destruct (answerOf_cases user d
                (stored db (u_id user) (p_filePath file)) file)
      as [[H _]|[_ [H|[_ (existing & Hfound & Hh & Hd)]]]]; try congruence.
    assert (Hkept : stored db1 (u_id user) (p_filePath file) = Some existing).
    { rewrite Hafter. unfold stored.
      rewrite pushFile_keeps_tables by (rewrite <- Hr1eq; congruence).
      fold (stored (fst (pushLoop user d now1 db pre)) (u_id user)
              (p_filePath file)).
      now rewrite Hbefore. }
    assert (Hagain : r_status (snd (pushFile user1 d now2 before2 file))
                     = conflict).
    { rewrite Hans2, Hkept. unfold answerOf.
      rewrite (within_quota _ _ Hq).
      apply String.eqb_neq in Hh, Hd. now rewrite Hh, Hd. }
    split; [exact Hagain|].
    destruct (pushSync_accounts _ _ _ _ _ _ _ _ _ Hvalid1 Hrun2)
      as (_ & Hdb2 & Hres2).
    destruct (pushLoop_conflicts user1 d now2 (pre ++ file :: post) db1)
      as (_ & added & Happ & Hmap & _).
    exists added. split; [now rewrite Hdb2|].
    intros ->. simpl in Hmap. symmetry in Hmap.
    rewrite <- Hres2 in Hmap.
    apply nth_error_In in Hnth2.
    pose proof (pushLoop_report user1 d now2 (pre ++ file :: post) db1)
      as Hreport.
    rewrite <- Hres2 in Hreport.
    pose proof (proj1 (Forall_forall _ _) Hreport _ Hnth2) as Hid2.
    apply Hid2 in Hagain.
    assert (Hin : In (r_filePath (snd (pushFile user1 d now2 before2 file)),
                      match r_conflictId
                              (snd (pushFile user1 d now2 before2 file)) with
                      | Some id => id
                      | None => 0%nat
                      end)
                     (flat_map conflictOf results2)).
    { apply in_flat_map. eexists. split; [exact Hnth2|].
      unfold conflictOf.
      destruct (r_conflictId (snd (pushFile user1 d now2 before2 file)));
        [now left | now contradiction Hagain]. }
    rewrite Hmap in Hin. contradiction.
Qed.

Lemma Forall_by_position {A B : Type} (Q : B -> Prop) (files : list A)
  (results : list B) :
  List.length results = List.length files ->
  (forall pre file post r,
     files = (pre ++ file :: post)%list ->
     nth_error results (List.length pre) = Some r -> Q r) ->
  Forall Q results.
Proof.
  intros Hlen Hat. apply Forall_forall. intros r Hin.
  apply In_nth_error in Hin as [n Hn].
  assert (Hlt : (n < List.length files)%nat).
  { rewrite <- Hlen. apply nth_error_Some. congruence. }
  destruct (nth_error files n) as [file|] eqn:Ef;
    [|apply nth_error_None in Ef; lia].
  apply nth_error_split in Ef as (pre & post & -> & <-).
  now apply (Hat pre file post).
Qed.

Lemma no_conflict_answers (rs : list PushResult) :
  Forall (fun r => r_status r = conflict <-> r_conflictId r <> None) rs ->
  Forall (fun r => r_status r <> conflict) rs ->
  flat_map conflictOf rs = [].
Proof.
  induction rs as [|r rs IH]; intros Hrep Hno; [reflexivity|].
  inversion Hrep as [|? ? Hr Hrs]; subst.
  inversion Hno as [|? ? Hn Hns]; subst.
  simpl. rewrite (IH Hrs Hns), app_nil_r.
  unfold conflictOf. destruct (r_conflictId r) eqn:E; [|reflexivity].
  exfalso. apply Hn, Hr. discriminate.
Qed.

(** C4, as the code has it. (1) In any push, an entry whose path no other
    entry of the push carries, that passes the quota check and carries the
    content hash of the stored entry for its path, is answered "success";
    its turn of the loop changes nothing, and the stored entry is the same
    document when the push returns.  (2) When every entry of a push is of this kind, the
    push creates no Conflict record and changes no catalog entry: it only
    stamps the last sync time of the user.  (3) When an inventory of
    distinct paths is pushed twice in a row by one device, an entry that
    the first push answered "success" is stored with the pushed hash and
    the second push leaves that document as it is; the second answer is
    "success" if the entry passes the quota check of the second push and
    "error" if not.  An entry answered "error" is answered "error" again,
    and an entry answered "conflict" is answered "conflict" again if it
    passes the quota check; the second push then adds Conflict records to
    those it found.  (4) When the first push answered no entry
    with "conflict", the second push answers none with "conflict" and
    creates no Conflict record; when the first push answered every entry
    with "success" and every entry passes the quota check of the second
    push, every answer is "success" and both catalog tables are left as
    they were. *)
Theorem repeated_push_is_noop_within_quota :
  (forall (db : DB) (now : Z) (limiter : nat -> LimitVerdict)
          (apiKey deviceId : string) (pre post : list PushFile)
          (file : PushFile) (user : User) (existing : SyncedFile),
     wellKeyed db ->
     validateApiKeyInternal db apiKey = Some user ->
     ok (limiter (u_id user)) = true ->
     ~ In (p_filePath file) (map p_filePath pre) ->
     ~ In (p_filePath file) (map p_filePath post) ->
     storageUsed user + byteLength (p_content file) <= storageLimit user ->
     stored db (u_id user) (p_filePath file) = Some existing ->
     f_contentHash existing = p_contentHash file ->
     let before := fst (pushLoop user deviceId now db pre) in
     exists (final : DB) (results : list PushResult),
       pushFile user deviceId now before file
       = (before, mkPushResult (p_filePath file) success None None)
       /\ pushSync db now limiter apiKey deviceId (pre ++ file :: post)
          = Returned (final, results)
       /\ nth_error results (List.length pre)
          = Some (mkPushResult (p_filePath file) success None None)
       /\ stored final (u_id user) (p_filePath file) = Some existing)
  /\ (forall (db : DB) (now : Z) (limiter : nat -> LimitVerdict)
             (apiKey deviceId : string) (files : list PushFile) (user : User),
        validateApiKeyInternal db apiKey = Some user ->
        ok (limiter (u_id user)) = true ->
        (forall file, In file files ->
           storageUsed user + byteLength (p_content file) <= storageLimit user
           /\ exists existing,
                stored db (u_id user) (p_filePath file) = Some existing
                /\ f_contentHash existing = p_contentHash file) ->
        exists final : DB,
          pushSync db now limiter apiKey deviceId files
          = Returned
              (final,
               map (fun file =>
                      mkPushResult (p_filePath file) success None None) files)
          /\ final = patchUser db (u_id user) (setLastSyncAt now)
          /\ syncConflicts final = syncConflicts db
          /\ configTable final = configTable db
          /\ sessionTable final = sessionTable db)
  /\ (forall (db db1 : DB) (now1 now2 : Z) (limiter : nat -> LimitVerdict)
             (apiKey deviceId : string) (pre post : list PushFile)
             (file : PushFile) (results1 : list PushResult) (user1 : User)
             (r1 : PushResult),
        wellKeyed db ->
        NoDup (map p_filePath (pre ++ file :: post)) ->
        pushSync db now1 limiter apiKey deviceId (pre ++ file :: post)
        = Returned (db1, results1) ->
        nth_error results1 (List.length pre) = Some r1 ->
        validateApiKeyInternal db1 apiKey = Some user1 ->
        ok (limiter (u_id user1)) = true ->
        exists (db2 : DB) (results2 : list PushResult) (r2 : PushResult),
          pushSync db1 now2 limiter apiKey deviceId (pre ++ file :: post)
          = Returned (db2, results2)
          /\ nth_error results2 (List.length pre) = Some r2
          /\ (r_status r1 = success ->
              exists row,
                stored db1 (u_id user1) (p_filePath file) = Some row
                /\ f_contentHash row = p_contentHash file
                /\ stored db2 (u_id user1) (p_filePath file) = Some row
                /\ (storageUsed user1 + byteLength (p_content file)
                    <= storageLimit user1 ->
                    r2 = mkPushResult (p_filePath file) success None None)
                /\ (storageLimit user1
                    < storageUsed user1 + byteLength (p_content file) ->
                    r_status r2 = error))
          /\ (r_status r1 = error -> r_status r2 = error)
          /\ (r_status r1 = conflict ->
              storageUsed user1 + byteLength (p_content file)
              <= storageLimit user1 ->
              r_status r2 = conflict
              /\ exists added : list Conflict,
                   syncConflicts db2 = (syncConflicts db1 ++ added)%list
                   /\ added <> []))
  /\ (forall (db db1 : DB) (now1 now2 : Z) (limiter : nat -> LimitVerdict)
             (apiKey deviceId : string) (files : list PushFile)
             (results1 : list PushResult) (user1 : User),
        wellKeyed db ->
        NoDup (map p_filePath files) ->
        pushSync db now1 limiter apiKey deviceId files
        = Returned (db1, results1) ->
        Forall (fun r => r_status r <> conflict) results1 ->
        validateApiKeyInternal db1 apiKey = Some user1 ->
        ok (limiter (u_id user1)) = true ->
        exists (db2 : DB) (results2 : list PushResult),
          pushSync db1 now2 limiter apiKey deviceId files
          = Returned (db2, results2)
          /\ Forall (fun r => r_status r <> conflict) results2
          /\ syncConflicts db2 = syncConflicts db1
          /\ (Forall (fun r => r_status r = success) results1 ->
              (forall file, In file files ->
                 storageUsed user1 + byteLength (p_content file)
                 <= storageLimit user1) ->
              results2
              = map (fun file =>
                       mkPushResult (p_filePath file) success None None) files
              /\ configTable db2 = configTable db1
              /\ sessionTable db2 = sessionTable db1)).
Proof.
  split; [|split; [|split]].
  - intros db now limiter apiKey deviceId pre post file user existing
           Hwf Hvalid Hok Hpre Hpost Hq Hfound Hh before.
    destruct (push_entry db now limiter apiKey deviceId pre post file user
                Hwf Hvalid Hok Hpre Hpost)
      as (final & results & Hrun & Hnth & Hbefore & Hafter & _).
    fold before in Hnth, Hbefore, Hafter.
    rewrite Hfound in Hbefore.
    pose proof (pushFile_matching user deviceId now before file existing
                  Hq Hbefore Hh) as Hturn.
    rewrite Hturn in Hnth, Hafter. simpl in Hnth, Hafter.
    exists final, results.
    split; [exact Hturn|]. split; [exact Hrun|]. split; [exact Hnth|].
    now rewrite Hafter.
  - intros db now limiter apiKey deviceId files user Hvalid Hok Hall.
    eexists. unfold pushSync. rewrite Hvalid, Hok. simpl negb. cbv iota.
    rewrite (pushLoop_noop _ _ _ _ _ Hall). repeat split.
  - intros db db1 now1 now2 limiter apiKey deviceId pre post file results1
           user1 r1.
    apply second_push_entry.
  - intros db db1 now1 now2 limiter apiKey deviceId files results1 user1
           Hwf Hnd Hfirst Hno Hvalid1 Hok1.
    destruct (pushSync db1 now2 limiter apiKey deviceId files)
      as [[db2 results2]|e] eqn:Hrun2.
    2:{ unfold pushSync in Hrun2. rewrite Hvalid1, Hok1 in Hrun2.
        simpl in Hrun2.
        destruct (pushLoop user1 deviceId now2 db1 files); discriminate. }
    exists db2, results2. split; [reflexivity|].
    destruct (validateApiKeyInternal db apiKey) as [user|] eqn:Hvalid;
      [|unfold pushSync in Hfirst; rewrite Hvalid in Hfirst; discriminate].
    destruct (pushSync_accounts _ _ _ _ _ _ _ _ _ Hvalid Hfirst)
      as (_ & Hdb1 & Hres1).
    destruct (pushSync_accounts _ _ _ _ _ _ _ _ _ Hvalid1 Hrun2)
      as (_ & Hdb2 & Hres2).
    assert (Hquiet : Forall (fun r => r_status r <> conflict) results2).
    { apply (Forall_by_position _ files).
      - rewrite Hres2. apply pushLoop_length.
      - intros pre file post r2 -> Hr2.
        destruct (nth_error results1 (List.length pre)) as [r1|] eqn:Hr1.
        2:{ apply nth_error_None in Hr1.
            rewrite Hres1, pushLoop_length, length_app in Hr1.
            simpl in Hr1. lia. }
        destruct (second_push_entry db db1 now1 now2 limiter apiKey deviceId
                    pre post file results1 user1 r1
                    Hwf Hnd Hfirst Hr1 Hvalid1 Hok1)
          as (db2' & results2' & r2' & Hrun2' & Hr2' & Hsucc & Herr & _).
        rewrite Hrun2 in Hrun2'. injection Hrun2' as <- <-.
        rewrite Hr2 in Hr2'. injection Hr2' as <-.
        assert (Hr1no : r_status r1 <> conflict).
        { apply nth_error_In in Hr1.
          exact (proj1 (Forall_forall _ _) Hno r1 Hr1). }
        destruct (r_status r1) eqn:E1.
        + destruct (Hsucc eq_refl) as (row & _ & _ & _ & Hin & Hout).
          destruct (Z_le_gt_dec
                      (storageUsed user1 + byteLength (p_content file))
                      (storageLimit user1)) as [Hq|Hq].
          * rewrite (Hin Hq). discriminate.
          * rewrite (Hout ltac:(lia)). discriminate.
        + now contradiction Hr1no.
        + rewrite (Herr eq_refl). discriminate. }
    split; [exact Hquiet|].
    split.
    { destruct (pushLoop_conflicts user1 deviceId now2 files db1)
        as (_ & added & Happ & Hmap & _).
      rewrite <- Hres2 in Hmap.
      rewrite (no_conflict_answers results2) in Hmap.
      - apply map_eq_nil in Hmap. subst added.
        rewrite app_nil_r in Happ. now rewrite Hdb2.
      - rewrite Hres2. apply pushLoop_report.
      - exact Hquiet. }
    intros Hsucc Hquota.
    pose proof (pushLoop_success_is_stored user deviceId now1 files db Hwf Hnd)
      as Hstored.
    rewrite <- Hres1 in Hstored. specialize (Hstored Hsucc).
    destruct (pushSync_next_user _ _ _ _ _ _ _ _ _ _ Hvalid Hfirst Hvalid1)
      as (Hid & _ & _).
    assert (Hloop : pushLoop user1 deviceId now2 db1 files
                    = (db1, map succeeded files)).
    { apply pushLoop_noop. intros file Hin. split; [now apply Hquota|].
      rewrite Hid. destruct (Hstored file Hin) as (row & Hrow & Hh).
      exists row. split; [|exact Hh].
      now rewrite Hdb1, stored_patchUser. }
    rewrite Hloop in Hdb2, Hres2. simpl in Hdb2, Hres2.
    subst db2 results2. repeat split.
Qed.

End RepeatedPush.

(** C4 fails in two ways.  At the quota: a file of 6 bytes is pushed twice
    by a user with a limit of 10 bytes; the first push stores it, in the
    second the hash equals the stored hash and the outcome is "error".
    At a conflict: the desktop pushes twice another content for the note
    that the laptop wrote; both pushes answer "conflict", and the second
    push adds the Conflict record 5 to the record 4 of the first. *)
Lemma second_push_rejected_or_in_conflict_again :
  (pushSync (P := Reference.runtime) Sample.smallCatalog 500 Sample.allow
     Sample.aliceKey "laptop" [Sample.sixBytes]
   = Returned (Sample.afterFirstPush,
               [mkPushResult "CLAUDE.md" success None None])
   /\ option_map f_contentHash (stored Sample.afterFirstPush 1 "CLAUDE.md")
      = Some (p_contentHash Sample.sixBytes)
   /\ pushSync (P := Reference.runtime) Sample.afterFirstPush 600 Sample.allow
        Sample.aliceKey "laptop" [Sample.sixBytes]
      = Returned
          (mkDB [mkUser 1 6 10 600] [Sample.keyOfAlice]
                (configTable Sample.afterFirstPush) [] [] 3,
           [mkPushResult "CLAUDE.md" error None
              (Some "Storage quota exceeded")]))
  /\ (pushSync (P := Reference.runtime) Sample.twoFiles 600 Sample.allow
        Sample.aliceKey "desktop" [Sample.noteX "b" "hash-b"]
      = Returned
          (mkDB [mkUser 1 3 100 600] [Sample.keyOfAlice]
                [Sample.noteByLaptop] [Sample.todoByDesktop]
                [mkConflict 4 1 "CLAUDE.md" "laptop" "desktop" "a" "b" 600
                   None None] 5,
           [mkPushResult "CLAUDE.md" conflict (Some 4%nat) None])
      /\ pushSync (P := Reference.runtime)
           (mkDB [mkUser 1 3 100 600] [Sample.keyOfAlice]
                 [Sample.noteByLaptop] [Sample.todoByDesktop]
                 [mkConflict 4 1 "CLAUDE.md" "laptop" "desktop" "a" "b" 600
                    None None] 5)
           700 Sample.allow Sample.aliceKey "desktop"
           [Sample.noteX "b" "hash-b"]
         = Returned
             (mkDB [mkUser 1 3 100 700] [Sample.keyOfAlice]
                   [Sample.noteByLaptop] [Sample.todoByDesktop]
                   [mkConflict 4 1 "CLAUDE.md" "laptop" "desktop" "a" "b"
                      600 None None;
                    mkConflict 5 1 "CLAUDE.md" "laptop" "desktop" "a" "b"
                      700 None None] 6,
              [mkPushResult "CLAUDE.md" conflict (Some 5%nat) None])).
Proof. repeat split. Qed.

(** C4 at [Sample.twoFiles]: the desktop pushes [Cases.mixedPush] twice,
    at 600 and at 700.  The todo carries the stored hash and is left as it
    is by the first push; the new file [b.md] is stored by the first push
    and left as it is by the second, which answers "success" for it; the
    note is in conflict both times, and the second push adds the Conflict
    record 6 to the record 4.  And the laptop pushes its note twice into
    an empty catalog: the second push creates no Conflict record. *)
Lemma repeated_push_is_noop_within_quota_witness :
  pushSync (P := Reference.runtime) Sample.twoFiles 600 Sample.allow
    Sample.aliceKey "desktop" Cases.mixedPush
  = Returned
      (Cases.afterMixedPush,
       [mkPushResult "CLAUDE.md" conflict (Some 4%nat) None;
        mkPushResult "todos/s1-agent.json" success None None;
        mkPushResult "b.md" success None None])
  /\ (exists (final : DB) (results : list PushResult),
        pushSync (P := Reference.runtime) Sample.twoFiles 600 Sample.allow
          Sample.aliceKey "desktop" Cases.mixedPush
        = Returned (final, results)
        /\ nth_error results 1
           = Some (mkPushResult "todos/s1-agent.json" success None None)
        /\ stored final 1 "todos/s1-agent.json" = Some Sample.todoByDesktop)
  /\ (exists (db2 : DB) (results2 : list PushResult),
        pushSync (P := Reference.runtime) Cases.afterMixedPush 700
          Sample.allow Sample.aliceKey "desktop" Cases.mixedPush
        = Returned (db2, results2)
        /\ nth_error results2 2
           = Some (mkPushResult "b.md" success None None)
        /\ stored Cases.afterMixedPush 1 "b.md" = Some Cases.noteOfDesktop
        /\ stored db2 1 "b.md" = Some Cases.noteOfDesktop)
  /\ pushSync (P := Reference.runtime) Cases.afterMixedPush 700
       Sample.allow Sample.aliceKey "desktop" Cases.mixedPush
     = Returned
         (mkDB [mkUser 1 5 100 700] [Sample.keyOfAlice]
               [Sample.noteByLaptop; Cases.noteOfDesktop]
               [Sample.todoByDesktop]
               [mkConflict 4 1 "CLAUDE.md" "laptop" "desktop" "a" "b" 600
                  None None;
                mkConflict 6 1 "CLAUDE.md" "laptop" "desktop" "a" "b" 700
                  None None] 7,
          [mkPushResult "CLAUDE.md" conflict (Some 6%nat) None;
           mkPushResult "todos/s1-agent.json" success None None;
           mkPushResult "b.md" success None None])
  /\ (exists (db2 : DB) (results2 : list PushResult) (r2 : PushResult)
             (added : list Conflict),
        pushSync (P := Reference.runtime) Cases.afterMixedPush 700
          Sample.allow Sample.aliceKey "desktop" Cases.mixedPush
        = Returned (db2, results2)
        /\ nth_error results2 0 = Some r2
        /\ r_status r2 = conflict
        /\ syncConflicts db2
           = (syncConflicts Cases.afterMixedPush ++ added)%list
        /\ added <> [])
  /\ (exists (db2 : DB) (results2 : list PushResult),
        pushSync (P := Reference.runtime) Sample.emptyCatalog 500 Sample.allow
          Sample.aliceKey "laptop" [Sample.noteX "a" "hash-a"]
        = Returned (Sample.afterNote,
                    [mkPushResult "CLAUDE.md" success None None])
        /\ pushSync (P := Reference.runtime) Sample.afterNote 600
             Sample.allow Sample.aliceKey "laptop"
             [Sample.noteX "a" "hash-a"]
           = Returned (db2, results2)
        /\ results2 = [mkPushResult "CLAUDE.md" success None None]
        /\ syncConflicts db2 = []
        /\ configTable db2 = configTable Sample.afterNote
        /\ sessionTable db2 = []).
Proof.
  assert (Hkeyed : wellKeyed Sample.twoFiles).
  { intros []; simpl;
      (split; [repeat constructor; simpl; intuition discriminate
              | intros r [<-|[]]; simpl; lia]). }
  assert (Hfirst : pushSync (P := Reference.runtime) Sample.twoFiles 600
                     Sample.allow Sample.aliceKey "desktop" Cases.mixedPush
                   = Returned
                       (Cases.afterMixedPush,
                        [mkPushResult "CLAUDE.md" conflict (Some 4%nat) None;
                         mkPushResult "todos/s1-agent.json" success None None;
                         mkPushResult "b.md" success None None]))
    by reflexivity.
  split; [exact Hfirst|]. split; [|split; [|split; [reflexivity|split]]].
  - destruct (proj1 (repeated_push_is_noop_within_quota
                       (P := Reference.runtime))
                Sample.twoFiles 600 Sample.allow Sample.aliceKey "desktop"
                [Sample.noteX "b" "hash-b"]
                [mkPushFile "b.md" "xy" "hash-xy" 30]
                (mkPushFile "todos/s1-agent.json" "[]" "hash-t" 20)
                (mkUser 1 3 100 0) Sample.todoByDesktop)
      as (final & results & _ & Hrun & Hnth & Hkept);
      try reflexivity.
    + exact Hkeyed.
    + simpl. intuition discriminate.
    + simpl. intuition discriminate.
    + vm_compute. discriminate.
    + exists final, results.
      split; [exact Hrun|]. split; [exact Hnth | exact Hkept].
  - destruct (proj1 (proj2 (proj2 (repeated_push_is_noop_within_quota
                                     (P := Reference.runtime))))
                Sample.twoFiles Cases.afterMixedPush 600 700 Sample.allow
                Sample.aliceKey "desktop"
                [Sample.noteX "b" "hash-b";
                 mkPushFile "todos/s1-agent.json" "[]" "hash-t" 20]
                [] (mkPushFile "b.md" "xy" "hash-xy" 30)
                [mkPushResult "CLAUDE.md" conflict (Some 4%nat) None;
                 mkPushResult "todos/s1-agent.json" success None None;
                 mkPushResult "b.md" success None None]
                (mkUser 1 5 100 600)
                (mkPushResult "b.md" success None None))
      as (db2 & results2 & r2 & Hrun & Hnth & Hsucc & _);
      try reflexivity.
    + exact Hkeyed.
    + repeat constructor; simpl; intuition discriminate.
    + destruct (Hsucc eq_refl) as (row & Hrow & _ & Hkept & Hin & _).
      assert (Hrow' : stored Cases.afterMixedPush 1 "b.md"
                      = Some Cases.noteOfDesktop) by reflexivity.
      simpl u_id in Hrow, Hkept. simpl p_filePath in Hrow, Hkept.
      rewrite Hrow' in Hrow. injection Hrow as <-.
      exists db2, results2.
      split; [exact Hrun|].
      rewrite (Hin ltac:(vm_compute; discriminate)) in Hnth.
      split; [exact Hnth|].
      split; [exact Hrow' | exact Hkept].
  - destruct (proj1 (proj2 (proj2 (repeated_push_is_noop_within_quota
                                     (P := Reference.runtime))))
                Sample.twoFiles Cases.afterMixedPush 600 700 Sample.allow
                Sample.aliceKey "desktop" []
                [mkPushFile "todos/s1-agent.json" "[]" "hash-t" 20;
                 mkPushFile "b.md" "xy" "hash-xy" 30]
                (Sample.noteX "b" "hash-b")
                [mkPushResult "CLAUDE.md" conflict (Some 4%nat) None;
                 mkPushResult "todos/s1-agent.json" success None None;
                 mkPushResult "b.md" success None None]
                (mkUser 1 5 100 600)
                (mkPushResult "CLAUDE.md" conflict (Some 4%nat) None))
      as (db2 & results2 & r2 & Hrun & Hnth & _ & _ & Hagain);
      try reflexivity.
    + exact Hkeyed.
    + repeat constructor; simpl; intuition discriminate.
    + destruct (Hagain eq_refl ltac:(vm_compute; discriminate))
        as (Hstatus & added & Happ & Hnew).
      exists db2, results2, r2, added.
      split; [exact Hrun|]. split; [exact Hnth|]. split; [exact Hstatus|].
      split; [exact Happ | exact Hnew].
  - assert (Hnote : pushSync (P := Reference.runtime) Sample.emptyCatalog 500
                      Sample.allow Sample.aliceKey "laptop"
                      [Sample.noteX "a" "hash-a"]
                    = Returned (Sample.afterNote,
                                [mkPushResult "CLAUDE.md" success None None]))
      by reflexivity.
    destruct (proj2 (proj2 (proj2 (repeated_push_is_noop_within_quota
                                     (P := Reference.runtime))))
                Sample.emptyCatalog Sample.afterNote 500 600 Sample.allow
                Sample.aliceKey "laptop" [Sample.noteX "a" "hash-a"]
                [mkPushResult "CLAUDE.md" success None None]
                (mkUser 1 1 100 500))
      as (db2 & results2 & Hrun & _ & Hquiet & Hall);
      try reflexivity.
    + intros []; (split; [constructor | intros r []]).
    + repeat constructor. intros [].
    + repeat constructor. discriminate.
    + destruct Hall as (Hres & Hconfig & Hsession).
      * repeat constructor.
      * intros file [<-|[]]. vm_compute. discriminate.
      * exists db2, results2.
        split; [exact Hnote|]. split; [exact Hrun|]. split; [exact Hres|].
        split; [exact Hquiet|]. split; [exact Hconfig | exact Hsession].
Defined.

(** ** [deleteFile] and [clearAllFiles] *)

Section MaintenanceProperties.
Context {P : Platform}.

Lemma filter_map_swap {A B : Type} (f : A -> B) (q : B -> bool) (l : list A) :
  filter q (map f l) = map f (filter (fun x => q (f x)) l).
Proof.
  induction l as [|x l IH]; simpl; [reflexivity|].
  destruct (q (f x)); simpl; now rewrite IH.
Qed.

Lemma filter_filter_swap {A : Type} (p q : A -> bool) (l : list A) :
  filter p (filter q l) = filter q (filter p l).
Proof.
  induction l as [|x l IH]; simpl; [reflexivity|].
  destruct (p x) eqn:Ep, (q x) eqn:Eq; simpl; rewrite ?Ep, ?Eq, IH;
    reflexivity.
Qed.

Lemma filter_all {A : Type} (p : A -> bool) (l : list A) :
  (forall x, In x l -> p x = true) -> filter p l = l.
Proof.
  induction l as [|x l IH]; simpl; intros H; [reflexivity|].
  rewrite (H x (or_introl eq_refl)), IH; [reflexivity|].
  intros y Hy. apply H. now right.
Qed.

Lemma filter_none {A : Type} (p : A -> bool) (l : list A) :
  (forall x, In x l -> p x = false) -> filter p l = [].
Proof.
  induction l as [|x l IH]; simpl; intros H; [reflexivity|].
  rewrite (H x (or_introl eq_refl)). apply IH.
  intros y Hy. apply H. now right.
Qed.

Lemma NoDup_app_apart {A : Type} (l1 l2 : list A) (x : A) :
  NoDup (l1 ++ l2) -> In x l1 -> In x l2 -> False.
Proof.
  induction l1 as [|y l1 IH]; simpl; intros Hnd H1 H2; [contradiction|].
  inversion Hnd as [|? ? Hnotin Hrest]; subst.
  destruct H1 as [->|H1].
  - apply Hnotin, in_or_app. now right.
  - now apply IH.
Qed.

Lemma uniqueIds_other_table (db : DB) (t t' : TableName) (a b : SyncedFile) :
  uniqueIds db -> In a (tableOf db t) -> In b (tableOf db t') ->
  f_id a = f_id b -> t = t'.
Proof.
  unfold uniqueIds. rewrite map_app. intros Hnd Ha Hb Hid.
  apply (in_map f_id) in Ha, Hb.
  destruct t, t'; try reflexivity; simpl in Ha, Hb; exfalso.
  - eapply NoDup_app_apart; [exact Hnd | exact Ha | now rewrite Hid].
  - eapply NoDup_app_apart; [exact Hnd | exact Hb | now rewrite <- Hid].
Qed.

(** The documents of a user after [ctx.db.delete] of one document. *)
Lemma allFilesOf_deleteFrom (db : DB) (t : TableName) (file : SyncedFile)
  (uid : nat) :
  uniqueIds db -> In file (tableOf db t) ->
  allFilesOf (deleteFrom db t (f_id file)) uid
  = filter (fun r => negb (Nat.eqb (f_id r) (f_id file))) (allFilesOf db uid).
Proof.
  intros Huniq Hin. unfold allFilesOf, deleteFrom, byUser, deleteRow.
  rewrite filter_app.
  assert (Hkeep : forall t', t' <> t ->
            filter (fun r => negb (Nat.eqb (f_id r) (f_id file)))
                   (filter (fun r => Nat.eqb (f_userId r) uid) (tableOf db t'))
            = filter (fun r => Nat.eqb (f_userId r) uid) (tableOf db t')).
  { intros t' Hne. apply filter_all. intros r Hr.
    apply filter_In in Hr as [Hr _].
    apply Bool.negb_true_iff, Nat.eqb_neq. intros Hid. apply Hne.
    exact (uniqueIds_other_table db t' t r file Huniq Hr Hin Hid). }
  destruct t; simpl.
  - pose proof (Hkeep sessionFiles ltac:(discriminate)) as H. simpl in H.
    rewrite H. f_equal. apply filter_filter_swap.
  - pose proof (Hkeep configFiles ltac:(discriminate)) as H. simpl in H.
    rewrite H. f_equal. apply filter_filter_swap.
Qed.

(** X9. [deleteFile] removes the named document of the caller and nothing
    else: it lowers the caller's storage counter by the byte length of the
    document, not below zero, leaves the conflict table alone, and every
    later pull returns what it returned before without that document. *)
Theorem deleted_file_is_no_longer_pulled :
  forall (db : DB) (apiKey : string) (fileId : FileId) (user : User)
         (final : DB),
    uniqueIds db ->
    validateApiKeyInternal db apiKey = Some user ->
    deleteFile db apiKey fileId = Ok final ->
    exists file : SyncedFile,
      In file (tableOf db (fst fileId))
      /\ f_id file = snd fileId
      /\ f_userId file = u_id user
      /\ getUser final (u_id user)
         = option_map
             (setStorageUsed
                (Z.max 0 (storageUsed user - byteLength (f_content file))))
             (getUser db (u_id user))
      /\ syncConflicts final = syncConflicts db
      /\ forall (d : string) (since : option Z) (files : list PulledFile),
           pullSync db apiKey d since = Returned files ->
           pullSync final apiKey d since
           = Returned (filter (fun p => negb (Nat.eqb (pl_id p) (snd fileId)))
                              files).
Proof.
  intros db apiKey [t id] user final Huniq Hvalid Hrun.
  unfold deleteFile in Hrun. rewrite Hvalid in Hrun. simpl fst in *.
  simpl snd in *.
  destruct (find _ (tableOf db t)) as [file|] eqn:Hfind; [|discriminate].
  destruct (negb (Nat.eqb (f_userId file) (u_id user))) eqn:Eown;
    [discriminate|].
  apply Bool.negb_false_iff, Nat.eqb_eq in Eown.
  apply find_some in Hfind as [Hin Hid]. apply Nat.eqb_eq in Hid.
  injection Hrun as <-.
  set (f := setStorageUsed
              (Z.max 0 (storageUsed user - byteLength (f_content file)))).
  assert (Hacc : sameAccounts (u_id user) db
                   (deleteFrom (patchUser db (u_id user) f) t id)).
  { eapply sameAccounts_trans; [now apply (patchUser_accounts db _ f)|].
    apply accounts_same; now destruct t. }
  destruct (validate_sameAccounts _ _ _ Hacc) as (g & Hg & _ & _ & Hv).
  exists file. split; [exact Hin|]. split; [exact Hid|]. split; [exact Eown|].
  split.
  { fold f.
    rewrite <- (getUser_patchUser_same db (u_id user) f) by reflexivity.
    unfold getUser. now destruct t. }
  split; [now destruct t|].
  intros d since files Hpull.
  unfold pullSync in *. rewrite Hv, Hvalid in *. simpl option_map. cbv iota.
  injection Hpull as <-. f_equal. rewrite Hg.
  assert (Hfiles : allFilesOf (deleteFrom (patchUser db (u_id user) f) t id)
                     (u_id user)
                   = filter (fun r => negb (Nat.eqb (f_id r) id))
                            (allFilesOf db (u_id user))).
  { rewrite <- Hid.
    apply (allFilesOf_deleteFrom (patchUser db (u_id user) f) t file);
      [exact Huniq | now rewrite tableOf_patchUser]. }
  rewrite Hfiles, filter_map_swap. f_equal. apply filter_filter_swap.
Qed.

(** X10. A user cannot delete what is not theirs: when no document with
    the given id in the given table belongs to the caller, [deleteFile]
    throws "File not found or unauthorized", the same answer for a missing
    document and for a document of another user. *)
Theorem delete_refuses_missing_or_foreign_file :
  forall (db : DB) (apiKey : string) (fileId : FileId) (user : User),
    validateApiKeyInternal db apiKey = Some user ->
    (forall file, In file (tableOf db (fst fileId)) ->
       f_id file = snd fileId -> f_userId file <> u_id user) ->
    deleteFile db apiKey fileId = Error "File not found or unauthorized".
Proof.
  intros db apiKey fileId user Hvalid Hforeign.
  unfold deleteFile. rewrite Hvalid.
  destruct (find _ (tableOf db (fst fileId))) as [file|] eqn:Hfind;
    [|reflexivity].
  apply find_some in Hfind as [Hin Hid]. apply Nat.eqb_eq in Hid.
  specialize (Hforeign file Hin Hid). apply Nat.eqb_neq in Hforeign.
  now rewrite Hforeign.
Qed.

Lemma filter_filter_and {A : Type} (p q : A -> bool) (l : list A) :
  filter p (filter q l) = filter (fun x => q x && p x) l.
Proof.
  induction l as [|x l IH]; simpl; [reflexivity|].
  destruct (q x); simpl; [destruct (p x)|]; now rewrite IH.
Qed.

Lemma tableOf_deleteEach (t t' : TableName) (files : list SyncedFile)
  (db : DB) :
  tableOf (deleteEach t files db) t'
  = if sameTable t t'
    then filter (fun r => negb (existsb (fun f => Nat.eqb (f_id r) (f_id f))
                                        files))
                (tableOf db t')
    else tableOf db t'.
Proof.
  unfold deleteEach. revert db.
  induction files as [|file files IH]; intros db; simpl.
  - destruct (sameTable t t'); [|reflexivity].
    symmetry. now apply filter_all.
  - rewrite IH. unfold deleteFrom. rewrite tableOf_setTable.
    destruct (sameTable t t') eqn:E; [|reflexivity].
    apply sameTable_eq in E. subst t'.
    unfold deleteRow. rewrite filter_filter_and.
    apply filter_ext. intros r.
    now destruct (Nat.eqb (f_id r) (f_id file)).
Qed.

Lemma deleteEach_accounts (t : TableName) (files : list SyncedFile) (db : DB) :
  users (deleteEach t files db) = users db
  /\ apiKeys (deleteEach t files db) = apiKeys db
  /\ syncConflicts (deleteEach t files db) = syncConflicts db.
Proof.
  unfold deleteEach. revert db.
  induction files as [|file files IH]; intros db; simpl.
  - now repeat split.
  - destruct (IH (deleteFrom db t (f_id file))) as (-> & -> & ->).
    now destruct t.
Qed.

(** Deleting by id the documents of one user removes the documents of that
    user and no other, when ids are unique in the table. *)
Lemma delete_own_rows (rows : list SyncedFile) (uid : nat) :
  NoDup (map f_id rows) ->
  filter (fun r => negb (existsb (fun f => Nat.eqb (f_id r) (f_id f))
                                 (byUser rows uid))) rows
  = filter (fun r => negb (Nat.eqb (f_userId r) uid)) rows.
Proof.
  intros Hnd.
  assert (H : forall r, In r rows ->
            existsb (fun f => Nat.eqb (f_id r) (f_id f)) (byUser rows uid)
            = Nat.eqb (f_userId r) uid).
  { intros r Hr. destruct (Nat.eqb (f_userId r) uid) eqn:E.
    - apply existsb_exists. exists r. split; [|apply Nat.eqb_refl].
      apply filter_In. now split.
    - destruct (existsb _ _) eqn:Ex; [|reflexivity].
      apply existsb_exists in Ex as (f & Hf & Hid).
      apply filter_In in Hf as [Hf Hu]. apply Nat.eqb_eq in Hid.
      rewrite (NoDup_map_injective f_id rows r f Hnd Hr Hf Hid) in E.
      congruence. }
  induction rows as [|r rows IH]; [reflexivity|].
  assert (Hext : forall x, In x (r :: rows) ->
            negb (existsb (fun f => Nat.eqb (f_id x) (f_id f))
                          (byUser (r :: rows) uid))
            = negb (Nat.eqb (f_userId x) uid))
    by (intros x Hx; now rewrite H).
  clear IH H. revert Hext. generalize (byUser (r :: rows) uid).
  generalize (r :: rows). clear.
  intros l own. induction l as [|x l IH]; intros Hext; simpl; [reflexivity|].
  rewrite (Hext x (or_introl eq_refl)), IH; [reflexivity|].
  intros y Hy. apply Hext. now right.
Qed.

(** X11. [clearAllFiles] deletes every catalog document of the caller and
    no document of anyone else, reports how many it deleted, and resets the
    caller's storage counter to zero; the conflict table stays as it was.
    Afterwards a pull returns nothing and the change feed shows no
    file. *)
Theorem clear_removes_exactly_the_callers_files :
  forall (db : DB) (apiKey : string) (user : User),
    wellKeyed db ->
    validateApiKeyInternal db apiKey = Some user ->
    exists final : DB,
      clearAllFiles db apiKey
      = Returned (final, List.length (allFilesOf db (u_id user)))
      /\ (forall t,
            tableOf final t
            = filter (fun r => negb (Nat.eqb (f_userId r) (u_id user)))
                     (tableOf db t))
      /\ (forall other, other <> u_id user ->
            allFilesOf final other = allFilesOf db other)
      /\ getUser final (u_id user)
         = option_map (setStorageUsed 0) (getUser db (u_id user))
      /\ syncConflicts final = syncConflicts db
      /\ (forall d since, pullSync final apiKey d since = Returned [])
      /\ (forall d, exists notices,
            subscribeToChanges final apiKey d = Returned ([], notices)).
Proof.
  intros db apiKey user Hwf Hvalid.
  unfold clearAllFiles. rewrite Hvalid.
  set (db1 := deleteEach configFiles (byUser (configTable db) (u_id user)) db).
  set (db2 := deleteEach sessionFiles (byUser (sessionTable db) (u_id user))
                db1).
  set (final := patchUser db2 (u_id user) (setStorageUsed 0)).
  assert (Htab : forall t,
            tableOf final t
            = filter (fun r => negb (Nat.eqb (f_userId r) (u_id user)))
                     (tableOf db t)).
  { intros t. unfold final. rewrite tableOf_patchUser.
    unfold db2. rewrite tableOf_deleteEach.
    unfold db1. rewrite tableOf_deleteEach.
    destruct t; simpl sameTable; cbv iota.
    - apply (delete_own_rows (configTable db)), (proj1 (Hwf configFiles)).
    - apply (delete_own_rows (sessionTable db)), (proj1 (Hwf sessionFiles)). }
  destruct (deleteEach_accounts configFiles
              (byUser (configTable db) (u_id user)) db) as (Hu1 & Hk1 & Hc1).
  destruct (deleteEach_accounts sessionFiles
              (byUser (sessionTable db) (u_id user)) db1) as (Hu2 & Hk2 & Hc2).
  fold db1 in Hu1, Hk1, Hc1. fold db2 in Hu2, Hk2, Hc2.
  assert (Hacc : sameAccounts (u_id user) db final).
  { eapply sameAccounts_trans; [|now apply patchUser_accounts].
    apply accounts_same; congruence. }
  destruct (validate_sameAccounts _ _ _ Hacc) as (g & Hg & _ & _ & Hv).
  assert (Hown : allFilesOf final (u_id user) = []).
  { unfold allFilesOf, byUser.
    change (configTable final) with (tableOf final configFiles).
    change (sessionTable final) with (tableOf final sessionFiles).
    rewrite !Htab, !filter_filter_and.
    rewrite !filter_none; [reflexivity| |];
      intros r _; now destruct (Nat.eqb (f_userId r) (u_id user)). }
  exists final. split; [unfold allFilesOf; now rewrite length_app|].
  split; [exact Htab|].
  split.
  { intros other Hother. unfold allFilesOf, byUser.
    change (configTable final) with (tableOf final configFiles).
    change (sessionTable final) with (tableOf final sessionFiles).
    rewrite !Htab, !filter_filter_and. simpl tableOf.
    f_equal; apply filter_ext; intros r;
      destruct (Nat.eqb (f_userId r) other) eqn:E;
      destruct (Nat.eqb (f_userId r) (u_id user)) eqn:E';
      try reflexivity;
      apply Nat.eqb_eq in E, E'; congruence. }
  split.
  { unfold final. rewrite getUser_patchUser_same by reflexivity.
    unfold getUser. now rewrite Hu2, Hu1. }
  split; [simpl; congruence|].
  split.
  - intros d since. unfold pullSync. rewrite Hv, Hvalid. simpl option_map.
    cbv iota. now rewrite Hg, Hown.
  - intros d. unfold subscribeToChanges. rewrite Hv, Hvalid.
    simpl option_map. cbv iota. rewrite Hg, Hown. simpl.
    eexists. reflexivity.
Qed.

End MaintenanceProperties.

(** ** [resolveConflict] and the conflict queries *)

Section ResolutionProperties.
Context {P : Platform}.

Lemma unresolved_after_resolution (cs : list Conflict) (uid id : nat)
  (now : Z) (resolution : Resolution) :
  filter (fun c => Nat.eqb (c_userId c) uid
                   && match c_resolvedAt c with
                      | None => true
                      | Some _ => false
                      end)
         (patchRows c_id id (markResolved now resolution) cs)
  = filter (fun c => negb (Nat.eqb (c_id c) id))
      (filter (fun c => Nat.eqb (c_userId c) uid
                        && match c_resolvedAt c with
                           | None => true
                           | Some _ => false
                           end) cs).
Proof.
  unfold patchRows. induction cs as [|c cs IH]; simpl; [reflexivity|].
  rewrite IH. destruct (Nat.eqb (c_id c) id) eqn:E.
  - simpl. rewrite Bool.andb_false_r.
    destruct (_ && _); simpl; now rewrite ?E.
  - destruct (_ && _); simpl; now rewrite ?E.
Qed.

(** What a resolution that returns has done: the conflict is the caller's,
    the content is the one the [switch] chose, and the database is the old
    one with that content written under the path, in the table chosen by
    the config patterns, and the conflict marked. *)
Lemma resolveConflict_effect (db : DB) (now : Z) (apiKey : string)
  (conflictId : nat) (resolution : Resolution) (manualContent : option string)
  (d : string) (user : User) (final : DB) (content : string) :
  validateApiKeyInternal db apiKey = Some user ->
  resolveConflict db now apiKey conflictId resolution manualContent d
  = Returned (final, content) ->
  exists (c : Conflict) (row : SyncedFile),
    find (fun c => Nat.eqb (c_id c) conflictId) (syncConflicts db) = Some c
    /\ c_userId c = u_id user
    /\ finalContentOf c resolution manualContent d = Some content
    /\ users final = users db
    /\ apiKeys final = apiKeys db
    /\ syncConflicts final
       = patchRows c_id conflictId (markResolved now resolution)
           (syncConflicts db)
    /\ let T := if isConfigPath (c_filePath c) then configFiles
                else sessionFiles in
       (forall t, sameTable T t = false -> tableOf final t = tableOf db t)
       /\ byUserAndPath (tableOf final T) (u_id user) (c_filePath c) = Some row
       /\ f_content row = content
       /\ f_contentHash row = computeHash content
       /\ f_deviceId row = d
       /\ f_syncedAt row = now
       /\ f_version row
          = match byUserAndPath (tableOf db T) (u_id user) (c_filePath c) with
            | Some existingFile => f_version existingFile + 1
            | None => 1
            end.
Proof.
  intros Hvalid Hrun. unfold resolveConflict in Hrun. rewrite Hvalid in Hrun.
  destruct (find _ (syncConflicts db)) as [c|] eqn:Hfind; [|discriminate].
  destruct (negb (Nat.eqb (c_userId c) (u_id user))) eqn:Eown; [discriminate|].
  apply Bool.negb_false_iff, Nat.eqb_eq in Eown.
  destruct (finalContentOf c resolution manualContent d) as [finalContent|]
    eqn:Hcontent; [|discriminate].
  cbv zeta in Hrun.
  remember (if isConfigPath (c_filePath c) then configFiles else sessionFiles)
    as T eqn:HT.
  destruct (byUserAndPath (tableOf db T) (u_id user) (c_filePath c))
    as [existingFile|] eqn:Hfound;
    injection Hrun as <- <-.
  - eexists c, _. split; [reflexivity|]. split; [exact Eown|].
    split; [exact Hcontent|].
    split; [unfold patchFile; now destruct T|].
    split; [unfold patchFile; now destruct T|].
    split; [unfold patchFile; now destruct T|].
    rewrite <- HT. cbv zeta.
    split.
    { intros t Ht.
      change (tableOf (patchConflict ?x _ _) t) with (tableOf x t).
      unfold patchFile. now rewrite tableOf_setTable, Ht. }
    split.
    { change (tableOf (patchConflict ?x _ _) T) with (tableOf x T).
      unfold patchFile. rewrite tableOf_setTable, sameTable_refl.
      unfold byUserAndPath, patchRows. rewrite find_map_same.
      - unfold byUserAndPath in Hfound. rewrite Hfound. simpl.
        rewrite Nat.eqb_refl. reflexivity.
      - intros r. now destruct (Nat.eqb (f_id r) (f_id existingFile)). }
    rewrite Hfound. now repeat split.
  - eexists c, _. split; [reflexivity|]. split; [exact Eown|].
    split; [exact Hcontent|].
    split; [now destruct T|]. split; [now destruct T|].
    split; [now destruct T|].
    rewrite <- HT. cbv zeta.
    split.
    { intros t Ht.
      change (tableOf (patchConflict ?x _ _) t) with (tableOf x t).
      now rewrite tableOf_insertFile, Ht. }
    split.
    { change (tableOf (patchConflict ?x _ _) T) with (tableOf x T).
      rewrite tableOf_insertFile, sameTable_refl.
      unfold byUserAndPath. apply find_app_new; [exact Hfound|].
      simpl. now rewrite Nat.eqb_refl, String.eqb_refl. }
    rewrite Hfound. now repeat split.
Qed.

(** X12. A resolution that returns takes the conflict out of the queue and
    keeps it on record: [getConflicts] afterwards lists what it listed
    before without that conflict, and [getConflict] returns the record with
    the time and the kind of the resolution, its two contents kept. *)
Theorem resolved_conflict_leaves_the_queue :
  forall (db : DB) (now : Z) (apiKey : string) (conflictId : nat)
         (resolution : Resolution) (manualContent : option string)
         (deviceId : string) (user : User) (final : DB) (content : string),
    validateApiKeyInternal db apiKey = Some user ->
    resolveConflict db now apiKey conflictId resolution manualContent deviceId
    = Returned (final, content) ->
    exists c : Conflict,
      getConflict db apiKey conflictId = Returned c
      /\ getConflict final apiKey conflictId
         = Returned (markResolved now resolution c)
      /\ forall listed : list Conflict,
           getConflicts db apiKey = Returned listed ->
           getConflicts final apiKey
           = Returned (filter (fun x => negb (Nat.eqb (c_id x) conflictId))
                              listed).
Proof.
  intros db now apiKey conflictId resolution manualContent deviceId user final
         content Hvalid Hrun.
  destruct (resolveConflict_effect _ _ _ _ _ _ _ _ _ _ Hvalid Hrun)
    as (c & row & Hfind & Hown & _ & Hu & Hk & Hc & _).
  assert (Hv : validateApiKeyInternal final apiKey = Some user).
  { unfold validateApiKeyInternal, getUser in *. now rewrite Hk, Hu. }
  exists c. unfold getConflict, getConflicts. rewrite Hv, Hvalid.
  rewrite Hfind, Hown, Nat.eqb_refl. simpl negb. cbv iota.
  split; [reflexivity|]. split.
  - rewrite Hc. unfold patchRows. rewrite find_map_same.
    + rewrite Hfind. simpl. apply find_some in Hfind as [_ Hid].
      rewrite Hid. simpl. now rewrite Hown, Nat.eqb_refl.
    + intros x. destruct (Nat.eqb (c_id x) conflictId) eqn:E; simpl;
        now rewrite E.
  - intros listed [= <-]. f_equal. unfold unresolvedOf. rewrite Hc.
    apply unresolved_after_resolution.
Qed.

Lemma getConflict_found (db : DB) (apiKey : string) (conflictId : nat)
  (c : Conflict) :
  getConflict db apiKey conflictId = Returned c ->
  find (fun c => Nat.eqb (c_id c) conflictId) (syncConflicts db) = Some c.
Proof.
  unfold getConflict.
  destruct (validateApiKeyInternal db apiKey); [|discriminate].
  destruct (find _ (syncConflicts db)) as [c0|]; [|discriminate].
  destruct (negb _); [discriminate|]. now intros [= ->].
Qed.

(** X13. For a path that [pushSync] and [resolveConflict] file in the same
    table (a config pattern, or a path under [todos/] or [session-env/]),
    the resolved content becomes the stored entry of the path, under the
    hash of that content and the resolving device, its version one above
    the entry it replaces.  A later push of that content under its hash,
    by any device and within the quota, is answered "success" and changes
    nothing but the time of the last sync. *)
Theorem resolution_is_what_later_pushes_meet :
  forall (db : DB) (now : Z) (apiKey : string) (conflictId : nat)
         (resolution : Resolution) (manualContent : option string)
         (deviceId : string) (user : User) (final : DB) (content : string)
         (c : Conflict),
    validateApiKeyInternal db apiKey = Some user ->
    getConflict db apiKey conflictId = Returned c ->
    resolveConflict db now apiKey conflictId resolution manualContent deviceId
    = Returned (final, content) ->
    isConfigPath (c_filePath c) = true
    \/ startsWith (c_filePath c) "todos/" = true
    \/ startsWith (c_filePath c) "session-env/" = true ->
    (exists row : SyncedFile,
       stored final (u_id user) (c_filePath c) = Some row
       /\ f_content row = content
       /\ f_contentHash row = computeHash content
       /\ f_deviceId row = deviceId
       /\ f_syncedAt row = now
       /\ f_version row
          = match stored db (u_id user) (c_filePath c) with
            | Some existingFile => f_version existingFile + 1
            | None => 1
            end)
    /\ forall (later : Z) (limiter : nat -> LimitVerdict) (d : string)
              (lastModified : Z),
         ok (limiter (u_id user)) = true ->
         storageUsed user + byteLength content <= storageLimit user ->
         pushSync final later limiter apiKey d
           [mkPushFile (c_filePath c) content (computeHash content)
              lastModified]
         = Returned (patchUser final (u_id user) (setLastSyncAt later),
                     [mkPushResult (c_filePath c) success None None]).
Proof.
  intros db now apiKey conflictId resolution manualContent deviceId user final
         content c Hvalid Hget Hrun Hpath.
  apply getConflict_found in Hget.
  destruct (resolveConflict_effect _ _ _ _ _ _ _ _ _ _ Hvalid Hrun)
    as (c' & row & Hfind & _ & _ & Hu & Hk & _ & Hrow).
  rewrite Hget in Hfind. injection Hfind as <-. cbv zeta in Hrow.
  assert (HT : table (categorizeFile (c_filePath c))
               = if isConfigPath (c_filePath c) then configFiles
                 else sessionFiles).
  { unfold categorizeFile.
    destruct (isConfigPath (c_filePath c)); [reflexivity|].
    destruct Hpath as [H|[H|H]]; [discriminate | now rewrite H |].
    rewrite H. now destruct (startsWith (c_filePath c) "todos/"). }
  rewrite <- HT in Hrow.
  destruct Hrow as (_ & Hstored & Hcontent & Hhash & Hdev & Hat & Hversion).
  assert (Hv : validateApiKeyInternal final apiKey = Some user).
  { unfold validateApiKeyInternal, getUser in *. now rewrite Hk, Hu. }
  split.
  - exists row. unfold stored. now repeat split.
  - intros later limiter d lastModified Hok Hquota.
    unfold pushSync. rewrite Hv, Hok. simpl negb. cbv iota.
    rewrite (pushLoop_noop user d later
               [mkPushFile (c_filePath c) content (computeHash content)
                  lastModified] final); [reflexivity|].
    intros file [<-|[]]. simpl. split; [exact Hquota|].
    exists row. split; [exact Hstored | exact Hhash].
Qed.

(** X14. A path that matches no config pattern and lies under neither
    [todos/] nor [session-env/] is filed by [pushSync] in [configFiles]
    and by [resolveConflict] in [sessionFiles].  Resolving a conflict over
    such a path writes the resolved content to a [sessionFiles] document
    and leaves [configFiles] as it was: the entry that pushes are compared
    with is still the one the conflict arose on, so a push of the resolved
    content by a device other than its writer is answered "conflict"
    again. *)
Theorem resolution_outside_the_patterns_is_filed_apart :
  forall (db : DB) (now : Z) (apiKey : string) (conflictId : nat)
         (resolution : Resolution) (manualContent : option string)
         (deviceId : string) (user : User) (final : DB) (content : string)
         (c : Conflict),
    validateApiKeyInternal db apiKey = Some user ->
    getConflict db apiKey conflictId = Returned c ->
    resolveConflict db now apiKey conflictId resolution manualContent deviceId
    = Returned (final, content) ->
    isConfigPath (c_filePath c) = false ->
    startsWith (c_filePath c) "todos/" = false ->
    startsWith (c_filePath c) "session-env/" = false ->
    table (categorizeFile (c_filePath c)) = configFiles
    /\ configTable final = configTable db
    /\ stored final (u_id user) (c_filePath c)
       = stored db (u_id user) (c_filePath c)
    /\ (exists row : SyncedFile,
          byUserAndPath (sessionTable final) (u_id user) (c_filePath c)
          = Some row
          /\ f_content row = content
          /\ f_contentHash row = computeHash content)
    /\ forall (existing : SyncedFile) (later : Z) (d : string)
              (lastModified : Z),
         stored db (u_id user) (c_filePath c) = Some existing ->
         f_contentHash existing <> computeHash content ->
         f_deviceId existing <> d ->
         storageUsed user + byteLength content <= storageLimit user ->
         snd (pushFile user d later final
                (mkPushFile (c_filePath c) content (computeHash content)
                   lastModified))
         = mkPushResult (c_filePath c) conflict (Some (nextId final)) None.
Proof.
  intros db now apiKey conflictId resolution manualContent deviceId user final
         content c Hvalid Hget Hrun Hconfig Htodos Henv.
  apply getConflict_found in Hget.
  destruct (resolveConflict_effect _ _ _ _ _ _ _ _ _ _ Hvalid Hrun)
    as (c' & row & Hfind & _ & _ & _ & _ & _ & Hrow).
  rewrite Hget in Hfind. injection Hfind as <-. cbv zeta in Hrow.
  rewrite Hconfig in Hrow.
  destruct Hrow as (Hother & Hstored & Hcontent & Hhash & _).
  assert (HT : table (categorizeFile (c_filePath c)) = configFiles).
  { unfold categorizeFile. now rewrite Hconfig, Htodos, Henv. }
  assert (Hsame : stored final (u_id user) (c_filePath c)
                  = stored db (u_id user) (c_filePath c)).
  { unfold stored. rewrite HT. now rewrite (Hother configFiles eq_refl). }
  split; [exact HT|].
  split; [exact (Hother configFiles eq_refl)|].
  split; [exact Hsame|].
  split; [exists row; now repeat split|].
  intros existing later d lastModified Hfound Hneq Hdev Hquota.
  unfold pushFile. simpl p_filePath. simpl p_content. simpl p_contentHash.
  rewrite (proj2 (Z.ltb_ge _ _) Hquota).
  rewrite <- Hsame in Hfound. unfold stored in Hfound. rewrite Hfound.
  apply String.eqb_neq in Hneq, Hdev. now rewrite Hneq, Hdev.
Qed.

End ResolutionProperties.

(** ** [subscribeToChanges] *)

Section FeedProperties.
Context {P : Platform}.

(** X15. Under a valid credential the change feed of device [d] shows, of
    the rows of the two catalog tables that belong to the user and were
    last written by another device, the (up to) 20 with the latest
    [syncedAt], newest first, none older than one it leaves out.  Each
    entry carries the id, path, hash, modification time, version and
    device id of its row and no content, and the full record of that row
    is among what a pull by [d] without a cursor returns.  Its conflict
    notices are, in order, the records that [getConflicts] lists: the
    conflicts of the user that are not resolved. *)
Theorem change_feed_shows_the_twenty_newest :
  forall (db : DB) (apiKey d : string) (user : User),
    validateApiKeyInternal db apiKey = Some user ->
    let others :=
      filter (fun f => Nat.eqb (f_userId f) (u_id user)
                       && negb (String.eqb (f_deviceId f) d))
             (configTable db ++ sessionTable db) in
    exists (shown hidden : list SyncedFile) (listed : list Conflict)
           (pulledFiles : list PulledFile),
      subscribeToChanges db apiKey d
      = Returned
          (map (fun file => mkChanged (f_id file) (f_filePath file)
                  (f_contentHash file) (f_lastModified file) (f_version file)
                  (f_deviceId file)) shown,
           map (fun c => mkNotice (c_id c) (c_filePath c) (c_deviceAId c)
                  (c_deviceBId c) (c_createdAt c)) listed)
      /\ getConflicts db apiKey = Returned listed
      /\ (forall c, In c listed <->
            In c (syncConflicts db) /\ c_userId c = u_id user
            /\ c_resolvedAt c = None)
      /\ pullSync db apiKey d None = Returned pulledFiles
      /\ Permutation others (shown ++ hidden)
      /\ List.length shown = Nat.min 20 (List.length others)
      /\ StronglySorted (descending f_syncedAt) shown
      /\ (forall x y, In x shown -> In y hidden ->
            f_syncedAt y <= f_syncedAt x)
      /\ (forall x, In x shown ->
            In (mkPulled (f_id x) (f_filePath x) (f_content x)
                  (f_contentHash x) (f_lastModified x) (f_version x)
                  (f_syncedAt x) (f_deviceId x)) pulledFiles).
Proof.
  intros db apiKey d user Hvalid others.
  assert (Hothers : others
                    = filter (fun f => negb (String.eqb (f_deviceId f) d))
                             (allFilesOf db (u_id user))).
  { unfold others, allFilesOf, byUser.
    now rewrite <- filter_app, filter_filter_and. }
  set (sorted := jsSort (fun a b => f_syncedAt b - f_syncedAt a) others).
  destruct (newest_first_split f_syncedAt 20 others)
    as (Hperm & Hlen & Hsorted & Hdom).
  fold sorted in Hperm, Hlen, Hsorted, Hdom.
  exists (firstn 20 sorted), (skipn 20 sorted), (unresolvedOf db (u_id user)).
  eexists.
  unfold subscribeToChanges, getConflicts, pullSync. rewrite Hvalid.
  split; [unfold sorted; rewrite Hothers; reflexivity|].
  split; [reflexivity|].
  split.
  { intros c. unfold unresolvedOf. rewrite filter_In, andb_true_iff, Nat.eqb_eq.
    destruct (c_resolvedAt c); intuition congruence. }
  split; [reflexivity|].
  split; [exact Hperm|]. split; [exact Hlen|]. split; [exact Hsorted|].
  split; [exact Hdom|].
  intros x Hx.
  apply (in_map pulled).
  assert (Hin : In x others).
  { eapply Permutation_in; [apply Permutation_sym, Hperm|].
    apply in_or_app. now left. }
  rewrite Hothers in Hin.
  apply filter_In in Hin as [Hall Hdev]. apply filter_In. split; [exact Hall|].
  unfold pullFilter.
  now destruct (String.eqb (f_deviceId x) d).
Qed.

End FeedProperties.

(** ** [generateApiKey] and [createApiKey] *)

Section KeyProperties.
Context {P : Platform}.

Lemma hexValue_hexDigit (n : N) : (n < 16)%N -> hexValue (hexDigit n) = n.
Proof.
  intros Hn. destruct n as [|p]; [reflexivity|].
  do 4 (destruct p as [p|p|]; try reflexivity; try lia).
Qed.

Lemma hexByte_injective (a b : Byte.byte) : hexByte a = hexByte b -> a = b.
Proof.
  unfold hexByte. intros [= H1 H2].
  pose proof (Byte.to_N_bounded a) as Ha.
  pose proof (Byte.to_N_bounded b) as Hb.
  apply (f_equal hexValue) in H1, H2.
  rewrite !hexValue_hexDigit in H1, H2;
    try (apply N.mod_lt; discriminate);
    try (apply N.Div0.div_lt_upper_bound; lia).
  assert (Hn : Byte.to_N a = Byte.to_N b).
  { rewrite (N.div_mod (Byte.to_N a) 16), (N.div_mod (Byte.to_N b) 16)
      by discriminate.
    now rewrite H1, H2. }
  apply (f_equal Byte.of_N) in Hn. rewrite !Byte.of_to_N in Hn.
  now injection Hn.
Qed.

Lemma concat_hexByte (b : Byte.byte) (rest : list Byte.byte) :
  String.concat EmptyString (map hexByte (b :: rest))
  = (hexByte b ++ String.concat EmptyString (map hexByte rest))%string.
Proof.
  destruct rest as [|b' rest]; simpl; reflexivity.
Qed.

(** X16. The key that [generateApiKey] builds is the prefix [ccsk_]
    followed by two characters per random byte, and it determines the
    bytes: different draws give different keys. *)
Theorem generated_key_encodes_its_bytes :
  forall randomBytes : list Byte.byte,
    String.length (generateApiKey randomBytes)
    = (5 + 2 * List.length randomBytes)%nat
    /\ startsWith (generateApiKey randomBytes) "ccsk_" = true
    /\ forall otherBytes : list Byte.byte,
         generateApiKey otherBytes = generateApiKey randomBytes ->
         otherBytes = randomBytes.
Proof.
  intros randomBytes. unfold generateApiKey. split; [|split].
  - simpl. do 5 f_equal.
    induction randomBytes as [|b rest IH]; [reflexivity|].
    rewrite concat_hexByte. simpl. rewrite IH. simpl. lia.
  - unfold startsWith. simpl.
    now destruct (String.concat EmptyString (map hexByte randomBytes)).
  - intros otherBytes H. simpl in H. injection H as H.
    revert otherBytes H.
    induction randomBytes as [|b rest IH]; intros [|b' rest'] H.
    + reflexivity.
    + rewrite concat_hexByte in H. discriminate.
    + rewrite concat_hexByte in H. discriminate.
    + rewrite !concat_hexByte in H. unfold hexByte at 1 3 in H. simpl in H.
      injection H as H1 H2 H.
      f_equal; [|now apply IH].
      apply hexByte_injective. unfold hexByte. now rewrite H1, H2.
Qed.

(** X17. [createApiKey] for an existing user returns a key under which
    that user is authenticated from then on, provided the hash of the new
    key is not the hash of a key already on record; every credential that
    resolved to a user before resolves to the same user afterwards, and
    the catalog and the conflicts are untouched.  For a user id that does
    not exist it throws "User not found". *)
Theorem issued_key_authenticates :
  forall (db : DB) (userId : nat) (randomBytes : list Byte.byte),
    (forall k, In k (apiKeys db) ->
       k_keyHash k <> hashApiKey (generateApiKey randomBytes)) ->
    match getUser db userId with
    | None => createApiKey db userId randomBytes = Error "User not found"
    | Some user =>
        exists (db' : DB) (id : nat),
          createApiKey db userId randomBytes
          = Ok (db', mkIssued id (generateApiKey randomBytes)
                       (String.substring 0 12 (generateApiKey randomBytes)))
          /\ u_id user = userId
          /\ validateApiKeyInternal db' (generateApiKey randomBytes)
             = Some user
          /\ (forall apiKey known,
                validateApiKeyInternal db apiKey = Some known ->
                validateApiKeyInternal db' apiKey = Some known)
          /\ (forall t, tableOf db' t = tableOf db t)
          /\ syncConflicts db' = syncConflicts db
    end.
Proof.
  intros db userId randomBytes Hfresh.
  unfold createApiKey.
  destruct (getUser db userId) as [user|] eqn:Huser; [|reflexivity].
  eexists _, _. split; [reflexivity|].
  split.
  { unfold getUser in Huser. apply find_some in Huser as [_ H].
    now apply Nat.eqb_eq. }
  split.
  { unfold validateApiKeyInternal. simpl apiKeys.
    rewrite find_app_none.
    - simpl. rewrite String.eqb_refl. exact Huser.
    - destruct (find _ (apiKeys db)) as [k|] eqn:E; [|reflexivity].
      apply find_some in E as [Hk E]. apply String.eqb_eq in E.
      now elim (Hfresh k Hk). }
  split.
  { intros apiKey known. unfold validateApiKeyInternal. simpl apiKeys.
    destruct (find _ (apiKeys db)) as [k|] eqn:E; [|discriminate].
    now rewrite (find_app_found _ _ _ _ E). }
  split; [now intros []|reflexivity].
Qed.

End KeyProperties.

(** ** The inventory scan on any tree *)

Section ScanProperties.
Context {P : Platform}.

Lemma Node_induction (Q : Node -> Prop) :
  (forall content mtime, Q (File content mtime)) ->
  (forall mtime entries,
     Forall (fun e => Q (snd e)) entries -> Q (Dir mtime entries)) ->
  forall n, Q n.
Proof.
  intros HF HD. fix IH 1. intros [content mtime|mtime entries].
  - apply HF.
  - apply HD. induction entries as [|e entries IHe]; constructor.
    + apply IH.
    + exact IHe.
Qed.

Lemma extends_trans (r1 r2 : list PushFile) (o : Outcome (list PushFile)) :
  extends r1 (Returned r2) -> extends r2 o -> extends r1 o.
Proof.
  intros (a1 & -> & H1). destruct o as [out|e]; simpl; [|tauto].
  intros (a2 & -> & H2). exists (a1 ++ a2)%list.
  split; [now rewrite app_assoc | now apply Forall_app].
Qed.

Lemma extends_refl (results : list PushFile) :
  extends results (Returned results).
Proof. exists []. split; [now rewrite app_nil_r | constructor]. Qed.

Lemma extends_one (results : list PushFile) (path content : string)
  (mtime : Z) :
  extends results (Returned (results ++ [scanned path content mtime])%list).
Proof. eexists. split; [reflexivity|]. now repeat constructor. Qed.

Lemma processFiles_extends (children : list (string * (Node * Visit)))
  (relativePath : string) (dirName : option string) (names : list string)
  (results : list PushFile) :
  (forall name node recurse, In (name, (node, recurse)) children ->
     forall rel nm res, extends res (recurse rel nm res)) ->
  extends results (processFiles children relativePath dirName names results).
Proof.
  intros Hchildren. unfold processFiles.
  assert (Hthrow : forall names e,
            fold_left
              (fun acc file =>
                 match acc with
                 | Threw e => Threw e
                 | Returned results =>
                     let relPath := pathJoin relativePath file in
                     match assoc file children with
                     | None => Threw FsError
                     | Some (Dir _ _, recurse) =>
                         recurse relPath (Some file) results
                     | Some (File content mtime, _) =>
                         if shouldSyncFile file dirName then
                           match content with
                           | Some c =>
                               Returned (results ++ [scanned relPath c mtime])%list
                           | None => Threw FsError
                           end
                         else Returned results
                     end
                 end) names (Threw e) = Threw e).
  { clear. induction names as [|n names IH]; intros e; simpl; [reflexivity|].
    apply IH. }
  revert results. induction names as [|name names IH]; intros results; simpl.
  - apply extends_refl.
  - destruct (assoc name children) as [[node recurse]|] eqn:Hassoc.
    + assert (Hin : In (name, (node, recurse)) children).
      { clear - Hassoc. induction children as [|[n v] rest IHc]; simpl in *;
          [discriminate|].
        destruct (String.eqb n name) eqn:E.
        - apply String.eqb_eq in E. injection Hassoc as <-. subst. now left.
        - right. now apply IHc. }
      destruct node as [content mtime|mtime entries].
      * destruct (shouldSyncFile name dirName).
        -- destruct content as [c|].
           ++ eapply extends_trans; [apply extends_one | apply IH].
           ++ rewrite Hthrow. reflexivity.
        -- apply IH.
      * pose proof (Hchildren _ _ _ Hin (pathJoin relativePath name)
                      (Some name) results) as Hstep.
        destruct (recurse _ _ results) as [out|e].
        -- eapply extends_trans; [exact Hstep | apply IH].
        -- rewrite Hthrow. exact Hstep.
    + rewrite Hthrow. reflexivity.
Qed.

Lemma traverseDir_extends (n : Node) :
  forall rel name results, extends results (traverseDir n rel name results).
Proof.
  induction n as [content mtime|mtime entries IH] using Node_induction;
    intros rel name results.
  - reflexivity.
  - assert (Hchildren : forall nm node recurse,
              In (nm, (node, recurse))
                 (map (fun e => (fst e, (snd e, traverseDir (snd e)))) entries) ->
              forall rel nm' res, extends res (recurse rel nm' res)).
    { intros nm node recurse Hin. apply in_map_iff in Hin as (e & [= _ _ <-] & He).
      rewrite Forall_forall in IH. exact (IH e He). }
    cbn -[has getRecentFiles getRecentSessions processFiles pushSessions
          String.eqb].
    destruct name as [d|].
    + destruct (negb (String.eqb d EmptyString) && has EXCLUDED_DIRS d).
      { apply extends_refl. }
      destruct (String.eqb d "projects").
      { rewrite pushSessions_appends. eexists. split; [reflexivity|].
        apply Forall_forall. intros f Hf.
        apply in_flat_map in Hf as (s & _ & Hf). unfold scannedSession in Hf.
        destruct (fullPath s) as [[c|] m|]; try contradiction.
        destruct Hf as [<-|[]]. reflexivity. }
      now apply processFiles_extends.
    + now apply processFiles_extends.
Qed.

(** X18. Whatever the tree under the sync root, every record that
    [readLocalFiles] returns carries the hash of the content it carries:
    the hash that [pushSync] stores and compares without recomputing
    it. *)
Theorem scan_records_carry_the_hash_of_their_content :
  forall (root : option Node) (files : list PushFile),
    readLocalFiles root = Returned files ->
    Forall (fun f => p_contentHash f = computeHash (p_content f)) files.
Proof.
  intros [root|] files Hscan; simpl in Hscan.
  - pose proof (traverseDir_extends root EmptyString None []) as H.
    rewrite Hscan in H. destruct H as (added & -> & Hall). exact Hall.
  - injection Hscan as <-. constructor.
Qed.

Lemma processFiles_cons (children : list (string * (Node * Visit)))
  (relativePath : string) (dirName : option string) (name : string)
  (names : list string) (results : list PushFile) :
  processFiles children relativePath dirName (name :: names) results
  = match processFiles children relativePath dirName [name] results with
    | Returned out => processFiles children relativePath dirName names out
    | Threw e => Threw e
    end.
Proof.
  unfold processFiles. simpl.
  match goal with
  | |- fold_left ?f names ?first = _ => destruct first as [out|e]
  end; [reflexivity|].
  induction names as [|n names IH]; simpl; [reflexivity | exact IH].
Qed.

Lemma processFiles_unreadable (children : list (string * (Node * Visit)))
  (relativePath : string) (dirName : option string) (name : string)
  (m : Z) (recurse : Visit) (names : list string) :
  (forall nm node visit, In (nm, (node, visit)) children ->
     forall rel nm' res, extends res (visit rel nm' res)) ->
  assoc name children = Some (File None m, recurse) ->
  shouldSyncFile name dirName = true ->
  In name names ->
  forall results,
    processFiles children relativePath dirName names results = Threw FsError.
Proof.
  intros Hchildren Hassoc Hsync.
  induction names as [|n names IH]; intros Hin results; [contradiction|].
  rewrite processFiles_cons.
  pose proof (processFiles_extends children relativePath dirName [n] results
                Hchildren) as Hfirst.
  destruct (String.eqb n name) eqn:E.
  - apply String.eqb_eq in E. subst n.
    unfold processFiles at 1. simpl. now rewrite Hassoc, Hsync.
  - apply String.eqb_neq in E.
    destruct Hin as [Heq|Hin]; [contradiction|].
    destruct (processFiles children relativePath dirName [n] results)
      as [out|e].
    + now apply IH.
    + simpl in Hfirst. now subst e.
Qed.

(** X19. The scan reads an eligible file outside [projects] without a
    [try]: when the sync root holds a file that is eligible at root level
    and cannot be read, [readLocalFiles] throws, whatever else the tree
    holds, and returns no inventory at all. *)
Theorem unreadable_file_aborts_the_scan :
  forall (mtime : Z) (entries : list (string * Node)) (name : string)
         (m : Z),
    NoDup (map fst entries) ->
    In (name, File None m) entries ->
    shouldSyncFile name None = true ->
    readLocalFiles (Some (Dir mtime entries)) = Threw FsError.
Proof.
  intros mtime entries name m Hnd Hin Hsync. simpl.
  apply (processFiles_unreadable _ _ _ name m (traverseDir (File None m))).
  - intros nm node visit H. apply in_map_iff in H as (e & [= _ _ <-] & _).
    apply traverseDir_extends.
  - exact (assoc_map_entry (fun e => (snd e, traverseDir (snd e)))
             entries name _ Hnd Hin).
  - exact Hsync.
  - apply in_map_iff. now exists (name, File None m).
Qed.

Lemma processFiles_same (c1 c2 : list (string * (Node * Visit)))
  (relativePath : string) (dirName : option string) (names : list string) :
  (forall file results,
     processFiles c1 relativePath dirName [file] results
     = processFiles c2 relativePath dirName [file] results) ->
  forall results,
    processFiles c1 relativePath dirName names results
    = processFiles c2 relativePath dirName names results.
Proof.
  intros Hsame. induction names as [|n names IH]; intros results.
  - reflexivity.
  - rewrite (processFiles_cons c1), (processFiles_cons c2), Hsame.
    destruct (processFiles c2 relativePath dirName [n] results);
      [apply IH | reflexivity].
Qed.

Lemma traverseDir_excluded (mtime : Z) (entries : list (string * Node))
  (rel d : string) (results : list PushFile) :
  has EXCLUDED_DIRS d = true ->
  traverseDir (Dir mtime entries) rel (Some d) results = Returned results.
Proof.
  intros Hex.
  cbn -[has getRecentFiles getRecentSessions processFiles pushSessions
        String.eqb].
  destruct (String.eqb d EmptyString) eqn:E.
  - apply String.eqb_eq in E. subst d. discriminate.
  - now rewrite Hex.
Qed.

Lemma traverseDir_root (mtime : Z) (entries : list (string * Node))
  (rel : string) (results : list PushFile) :
  traverseDir (Dir mtime entries) rel None results
  = processFiles (map (fun e => (fst e, (snd e, traverseDir (snd e)))) entries)
      rel None (map fst entries) results.
Proof. reflexivity. Qed.

(** X28. What lies inside [debug], [file-history], [shell-snapshots],
    [local] or [statsig] at the sync root never reaches the inventory: the
    scan of two roots that differ only inside such a directory gives the
    same outcome. *)
Theorem excluded_directories_are_never_read :
  forall (mtime : Z) (pre post : list (string * Node)) (name : string)
         (m1 m2 : Z) (inside1 inside2 : list (string * Node)),
    has EXCLUDED_DIRS name = true ->
    readLocalFiles (Some (Dir mtime (pre ++ (name, Dir m1 inside1) :: post)))
    = readLocalFiles (Some (Dir mtime (pre ++ (name, Dir m2 inside2) :: post))).
Proof.
  intros mtime pre post name m1 m2 inside1 inside2 Hex.
  unfold readLocalFiles. rewrite !traverseDir_root.
  rewrite !map_app, !map_cons. cbn [fst snd].
  apply processFiles_same. intros file results.
  unfold processFiles. cbn [fold_left].
  induction pre as [|[n0 node0] pre IH]; cbn [map app assoc fst snd].
  - destruct (String.eqb name file) eqn:E; [|reflexivity].
    apply String.eqb_eq in E. subst file.
    now rewrite !traverseDir_excluded.
  - destruct (String.eqb n0 file); [reflexivity | exact IH].
Qed.

End ScanProperties.

(** ** The window of a limited directory *)

Section WindowProperties.
Context {P : Platform}.







End WindowProperties.




(** ** The scheduler and the realtime callback *)

Lemma setAdd_spec (x : string) (s : list string) (y : string) :
  In y (Scheduler.setAdd x s) <-> In y s \/ y = x.
Proof.
  unfold Scheduler.setAdd.
  destruct (existsb (String.eqb x) s) eqn:E.
  - split; [tauto|]. intros [H| ->]; [exact H|].
    apply existsb_exists in E as (z & Hz & Ez).
    apply String.eqb_eq in Ez. now subst z.
  - rewrite in_app_iff. simpl. intuition.
Qed.

Lemma setAdd_NoDup (x : string) (s : list string) :
  NoDup s -> NoDup (Scheduler.setAdd x s).
Proof.
  intros Hnd. unfold Scheduler.setAdd.
  destruct (existsb (String.eqb x) s) eqn:E; [exact Hnd|].
  eapply Permutation_NoDup; [apply Permutation_cons_append|].
  constructor; [|exact Hnd].
  intros Hin. apply Bool.not_true_iff_false in E. apply E.
  apply existsb_exists. exists x. split; [exact Hin | apply String.eqb_refl].
Qed.

(** X20. A burst of file changes, with no timer firing in between, leaves
    exactly one debounce timeout armed, 5 s after the last change: every
    [queueChange] clears the timeout of the one before.  The burst begins no
    sync and arms no retry; the pending set gains the changed paths, each
    once. *)
Theorem burst_of_changes_arms_one_debounce :
  forall (e : Scheduler.SyncEngine) (changes : list (Z * string))
         (now : Z) (filePath : string),
    exists e' : Scheduler.SyncEngine,
      Scheduler.run e
        (map (fun c => Scheduler.FileChanged (fst c) (snd c))
             (changes ++ [(now, filePath)]))
      = Some e'
      /\ Scheduler.debounceTimer e' = Some (now + 5000)
      /\ Scheduler.retryTimers e' = Scheduler.retryTimers e
      /\ Scheduler.started e' = Scheduler.started e
      /\ Scheduler.isSyncing e' = Scheduler.isSyncing e
      /\ Scheduler.lastSyncTime e' = Scheduler.lastSyncTime e
      /\ (forall p, In p (Scheduler.pendingChanges e')
                    <-> In p (Scheduler.pendingChanges e)
                        \/ In p (map snd changes) \/ p = filePath)
      /\ (NoDup (Scheduler.pendingChanges e) ->
          NoDup (Scheduler.pendingChanges e')).
Proof.
  intros e changes. revert e.
  induction changes as [|[t p0] changes IH]; intros e now filePath.
  - eexists. split; [reflexivity|]. simpl.
    repeat split; try reflexivity.
    + intros H. apply setAdd_spec in H. tauto.
    + intros H. apply setAdd_spec. tauto.
    + apply setAdd_NoDup.
  - destruct (IH (Scheduler.queueChange t p0 e) now filePath)
      as (e' & Hrun & Hd & Hr & Hs & Hsync & Hlast & Hpending & Hnd).
    exists e'. split; [exact Hrun|]. split; [exact Hd|].
    split; [exact Hr|]. split; [exact Hs|]. split; [exact Hsync|].
    split; [exact Hlast|]. split.
    + intros p. rewrite Hpending. simpl. rewrite setAdd_spec.
      intuition congruence.
    + intros H. apply Hnd. simpl. now apply setAdd_NoDup.
Qed.

Lemma takeDue_last (now : Z) (timers : list Z) (deadline : Z) :
  deadline <= now ->
  exists rest, Scheduler.takeDue now (timers ++ [deadline]) = Some rest.
Proof.
  intros Hdue. induction timers as [|d timers IH]; simpl.
  - apply Z.leb_le in Hdue. rewrite Hdue. now exists [].
  - destruct (d <=? now); [now eexists|].
    destruct IH as (rest & ->). now eexists.
Qed.

(** X21. A debounced request that comes before 30 s have passed since the
    last sync begins no sync; it arms one retry for 100 ms after the end of
    the interval.  When that deadline is reached, with no sync completed or
    running meanwhile, a retry fires and the sync begins. *)
Theorem early_request_is_retried_after_the_interval :
  forall (e : Scheduler.SyncEngine) (deadline now : Z),
    Scheduler.debounceTimer e = Some deadline ->
    deadline <= now ->
    now - Scheduler.lastSyncTime e < 30000 ->
    Scheduler.isSyncing e = false ->
    exists e1 e2 : Scheduler.SyncEngine,
      Scheduler.step e (Scheduler.DebounceFired now) = Some e1
      /\ Scheduler.started e1 = Scheduler.started e
      /\ Scheduler.isSyncing e1 = false
      /\ Scheduler.debounceTimer e1 = None
      /\ Scheduler.retryTimers e1
         = (Scheduler.retryTimers e ++ [Scheduler.lastSyncTime e + 30100])%list
      /\ Scheduler.step e1
           (Scheduler.RetryFired (Scheduler.lastSyncTime e + 30100))
         = Some e2
      /\ Scheduler.started e2 = S (Scheduler.started e)
      /\ Scheduler.isSyncing e2 = true
      /\ List.length (Scheduler.retryTimers e2)
         = List.length (Scheduler.retryTimers e).
Proof.
  intros e deadline now Hd Hdue Hearly Hidle.
  assert (Hstep : Scheduler.step e (Scheduler.DebounceFired now)
                  = Some (Scheduler.mkEngine (Scheduler.lastSyncTime e)
                            (Scheduler.pendingChanges e) None
                            (Scheduler.retryTimers e
                             ++ [Scheduler.lastSyncTime e + 30100])
                            (Scheduler.isSyncing e) (Scheduler.inFlight e)
                            (Scheduler.started e))).
  { simpl. rewrite Hd. apply Z.leb_le in Hdue. rewrite Hdue.
    unfold Scheduler.trySync, Scheduler.MIN_INTERVAL_MS.
    cbn [Scheduler.lastSyncTime Scheduler.isSyncing Scheduler.pendingChanges
         Scheduler.debounceTimer Scheduler.retryTimers Scheduler.inFlight
         Scheduler.started].
    apply Z.ltb_lt in Hearly. rewrite Hearly.
    replace (now + (30000 - (now - Scheduler.lastSyncTime e) + 100))
      with (Scheduler.lastSyncTime e + 30100) by lia.
    reflexivity. }
  destruct (takeDue_last (Scheduler.lastSyncTime e + 30100)
              (Scheduler.retryTimers e) (Scheduler.lastSyncTime e + 30100)
              ltac:(lia)) as (rest & Hrest).
  assert (Hlen : List.length rest = List.length (Scheduler.retryTimers e)).
  { clear - Hrest. revert rest Hrest.
    generalize (Scheduler.lastSyncTime e + 30100).
    induction (Scheduler.retryTimers e) as [|d timers IH];
      intros z rest; simpl.
    - rewrite Z.leb_refl. now intros [= <-].
    - destruct (d <=? z).
      + intros [= <-]. rewrite length_app. simpl. lia.
      + destruct (Scheduler.takeDue z (timers ++ [z])) as [rest'|] eqn:E;
          [|discriminate].
        intros [= <-]. simpl. f_equal. now apply (IH z). }
  eexists _, _. split; [exact Hstep|].
  split; [reflexivity|]. split; [exact Hidle|]. split; [reflexivity|].
  split; [reflexivity|].
  split.
  { simpl. rewrite Hrest. unfold Scheduler.trySync, Scheduler.MIN_INTERVAL_MS.
    cbn [Scheduler.lastSyncTime Scheduler.isSyncing Scheduler.pendingChanges
         Scheduler.debounceTimer Scheduler.retryTimers Scheduler.inFlight
         Scheduler.started].
    replace (Scheduler.lastSyncTime e + 30100 - Scheduler.lastSyncTime e
             <? 30000) with false by (symmetry; apply Z.ltb_ge; lia).
    rewrite Hidle. reflexivity. }
  split; [reflexivity|]. split; [reflexivity | exact Hlen].
Qed.

(** X22. A sync begins only from an idle engine, and an automatic one only
    when at least 30 s have passed since the last successful sync: a step
    that begins a sync is a manual request, or a debounce or retry timeout
    firing no earlier than that, and the flag [isSyncing] was off. *)
Theorem sync_begins_only_when_idle_and_due :
  forall (e e' : Scheduler.SyncEngine) (ev : Scheduler.Event),
    Scheduler.step e ev = Some e' ->
    Scheduler.started e' <> Scheduler.started e ->
    Scheduler.isSyncing e = false
    /\ Scheduler.isSyncing e' = true
    /\ Scheduler.started e' = S (Scheduler.started e)
    /\ match ev with
       | Scheduler.DebounceFired now | Scheduler.RetryFired now =>
           30000 <= now - Scheduler.lastSyncTime e
       | Scheduler.ForceRequested => True
       | _ => False
       end.
Proof.
  intros e e' ev Hstep Hbegan.
  assert (Htry : forall now e0,
            Scheduler.started (Scheduler.trySync now e0)
            <> Scheduler.started e0 ->
            Scheduler.isSyncing e0 = false
            /\ Scheduler.isSyncing (Scheduler.trySync now e0) = true
            /\ Scheduler.started (Scheduler.trySync now e0)
               = S (Scheduler.started e0)
            /\ 30000 <= now - Scheduler.lastSyncTime e0).
  { clear. intros now e0. unfold Scheduler.trySync, Scheduler.MIN_INTERVAL_MS.
    destruct (now - Scheduler.lastSyncTime e0 <? 30000) eqn:E;
      [simpl; congruence|].
    apply Z.ltb_ge in E.
    destruct (Scheduler.isSyncing e0); [congruence|]. now repeat split. }
  destruct ev as [now path|now|now|now ok|]; simpl in Hstep.
  - injection Hstep as <-. now elim Hbegan.
  - destruct (Scheduler.debounceTimer e) as [d|]; [|discriminate].
    destruct (d <=? now); [|discriminate]. injection Hstep as <-.
    exact (Htry _ _ Hbegan).
  - destruct (Scheduler.takeDue now (Scheduler.retryTimers e)) as [rest|];
      [|discriminate].
    injection Hstep as <-. exact (Htry _ _ Hbegan).
  - destruct (Scheduler.inFlight e); [discriminate|].
    injection Hstep as <-. now elim Hbegan.
  - injection Hstep as <-. unfold Scheduler.forceSync in *.
    destruct (Scheduler.isSyncing e); [now elim Hbegan|]. now repeat split.
Qed.

Lemma addAll_has (files : list ChangedFile) (seen : list string) (y : string) :
  Realtime.setHas (Realtime.addAll seen files) y
  = Realtime.setHas seen y
    || existsb (fun f => String.eqb y (ch_contentHash f)) files.
Proof.
  unfold Realtime.addAll. revert seen.
  induction files as [|f files IH]; intros seen; simpl.
  - now rewrite Bool.orb_false_r.
  - rewrite IH. rewrite Bool.orb_assoc. f_equal.
    unfold Realtime.setHas, Scheduler.setAdd.
    destruct (existsb (String.eqb (ch_contentHash f)) seen) eqn:E.
    + destruct (String.eqb y (ch_contentHash f)) eqn:Ey;
        [|now rewrite Bool.orb_false_r].
      apply String.eqb_eq in Ey. subst y. now rewrite E.
    + rewrite existsb_app. simpl. now rewrite Bool.orb_false_r.
Qed.

(** X23. The realtime callback pulls when the engine is idle and the
    snapshot shows a content hash it has not recorded, and only then; it
    then records every hash of the snapshot, so that a later snapshot that
    shows only hashes of this one triggers no pull.  While a sync runs, a
    snapshot triggers no pull and records nothing.  The conflicts of every
    snapshot are reported to [onConflict], in order, whether or not a pull
    is triggered. *)
Theorem snapshot_is_pulled_once :
  forall (busy : bool) (seen : list string) (files : list ChangedFile)
         (conflicts : list ConflictNotice),
    let reaction := Realtime.onUpdate busy seen files conflicts in
    (Realtime.pulls reaction = true
     <-> busy = false
         /\ exists f, In f files
                      /\ Realtime.setHas seen (ch_contentHash f) = false)
    /\ (Realtime.pulls reaction = false ->
        Realtime.lastSeenFiles reaction = seen)
    /\ (Realtime.pulls reaction = true ->
        forall (busy' : bool) (files' : list ChangedFile)
               (conflicts' : list ConflictNotice),
          (forall f', In f' files' ->
             exists f, In f files /\ ch_contentHash f = ch_contentHash f') ->
          Realtime.pulls
            (Realtime.onUpdate busy' (Realtime.lastSeenFiles reaction)
               files' conflicts') = false)
    /\ Realtime.notified reaction
       = map (fun c => (n_filePath c, n_id c)) conflicts.
Proof.
  intros busy seen files conflicts reaction. subst reaction.
  unfold Realtime.onUpdate. simpl.
  set (newFiles := filter (fun f => negb (Realtime.setHas seen (ch_contentHash f)))
                          files).
  assert (Hnew : negb (Nat.eqb (List.length newFiles) 0) = true
                 <-> exists f, In f files
                               /\ Realtime.setHas seen (ch_contentHash f) = false).
  { split.
    - destruct newFiles as [|f rest] eqn:E; [discriminate|]. intros _.
      assert (Hin : In f newFiles) by (rewrite E; now left).
      apply filter_In in Hin as [Hin Hf]. exists f.
      split; [exact Hin | now apply Bool.negb_true_iff].
    - intros (f & Hin & Hf).
      assert (H : In f newFiles)
        by (apply filter_In; split; [exact Hin | now rewrite Hf]).
      now destruct newFiles. }
  split; [|split; [|split]].
  - rewrite Bool.andb_true_iff, Hnew, Bool.negb_true_iff. tauto.
  - intros H. now rewrite H.
  - intros H busy' files' conflicts' Hsub. rewrite H.
    replace (filter _ files') with (@nil ChangedFile); [reflexivity|].
    symmetry. apply filter_none. intros f' Hf'.
    apply Bool.negb_false_iff. rewrite addAll_has.
    destruct (Hsub f' Hf') as (f & Hin & Hhash).
    apply Bool.orb_true_iff. right. apply existsb_exists.
    exists f. split; [exact Hin|]. rewrite Hhash. apply String.eqb_refl.
  - reflexivity.
Qed.

(** ** Edge cases of the resolver and of the credential check *)

Section ResolverEdges.
Context {P : Platform}.

Lemma mapSet_grows_by_one (m : JsMap) (k v : JsValue) :
  (List.length (mapSet m k v) <= S (List.length m))%nat
  /\ forall v', In v' (mapValues (mapSet m k v)) ->
       v' = v \/ In v' (mapValues m).
Proof.
  unfold mapValues. induction m as [|[k0 v0] m [IHlen IHin]]; simpl.
  - split; [lia|]. intros v' [<-|[]]. now left.
  - destruct (sameValueZero k0 k); simpl.
    + split; [lia|]. intros v' [<-|H]; [now left | right; now right].
    + split; [lia|]. intros v' [<-|H]; [right; now left|].
      destruct (IHin v' H) as [->|H']; [now left | right; now right].
Qed.

Lemma fold_addLine_from_lines (lines : list string) (m : JsMap) :
  let m' := fold_left addLine lines m in
  (List.length m' <= List.length m + List.length lines)%nat
  /\ forall v, In v (mapValues m') ->
       In v (mapValues m)
       \/ exists line, In line lines
                       /\ (v = JString line \/ JSON_parse line = Some v).
Proof.
  revert m. induction lines as [|line lines IH]; intros m; simpl.
  - split; [lia|]. intros v H. now left.
  - destruct (IH (addLine m line)) as (Hlen & Hin).
    assert (Hstep : (List.length (addLine m line) <= S (List.length m))%nat
                    /\ forall v, In v (mapValues (addLine m line)) ->
                         In v (mapValues m) \/ v = JString line
                         \/ JSON_parse line = Some v).
    { destruct (addLine_cases m line) as [->|(obj & Hparse & [->| ->])].
      - destruct (mapSet_grows_by_one m (JString line) (JString line))
          as (H1 & H2).
        split; [exact H1|]. intros v Hv.
        destruct (H2 v Hv) as [->|H]; tauto.
      - split; [lia|]. intros v Hv. now left.
      - destruct (mapSet_grows_by_one m (identityOf obj line) obj)
          as (H1 & H2).
        split; [exact H1|]. intros v Hv.
        destruct (H2 v Hv) as [->|H]; tauto. }
    destruct Hstep as (Hlen1 & Hin1).
    split; [lia|].
    intros v Hv. destruct (Hin v Hv) as [H|(l & Hl & H)].
    + destruct (Hin1 v H) as [H'|H']; [now left|].
      right. exists line. split; [now left | exact H'].
    + right. exists l. split; [now right | exact H].
Qed.

(** X24. Whatever the two contents, the merge of line records invents
    nothing: its output is the join of the renderings of items that are
    each an input line kept verbatim or the parse of an input line, and
    there are no more of them than non-empty input lines. *)
Theorem merged_lines_come_from_the_inputs :
  forall contentA contentB : string,
    let lines := (nonEmptyLines contentA ++ nonEmptyLines contentB)%list in
    exists items : list JsValue,
      mergeJSONL contentA contentB = join nl (map renderItem items)
      /\ (List.length items <= List.length lines)%nat
      /\ Forall (fun item =>
                   exists line, In line lines
                                /\ (item = JString line
                                    \/ JSON_parse line = Some item)) items.
Proof.
  intros contentA contentB lines.
  destruct (fold_addLine_from_lines lines []) as (Hlen & Hin).
  eexists. split; [reflexivity|].
  split.
  - rewrite <- (Permutation_length (arraySort_rearranges byTimestamp _)).
    unfold mapValues. rewrite length_map.
    fold lines. simpl in Hlen. exact Hlen.
  - apply Forall_forall. intros item Hitem.
    assert (H : In item (mapValues (fold_left addLine lines [])))
      by (eapply Permutation_in;
          [apply Permutation_sym, arraySort_rearranges | exact Hitem]).
    destruct (Hin item H) as [[]|H']. exact H'.
Qed.

(** X25. A manual resolution needs content that is not empty: without
    content, or with the empty string, [resolveConflict] throws and changes
    nothing, so a conflict cannot be resolved to an empty file this way;
    with any other content the resolution returns exactly that content. *)
Theorem manual_resolution_needs_content :
  forall (db : DB) (now : Z) (apiKey : string) (conflictId : nat)
         (deviceId : string) (c : Conflict),
    getConflict db apiKey conflictId = Returned c ->
    resolveConflict db now apiKey conflictId manual None deviceId
    = Threw ManualContentRequired
    /\ resolveConflict db now apiKey conflictId manual (Some EmptyString)
         deviceId
       = Threw ManualContentRequired
    /\ forall content : string,
         content <> EmptyString ->
         exists final : DB,
           resolveConflict db now apiKey conflictId manual (Some content)
             deviceId
           = Returned (final, content).
Proof.
  intros db now apiKey conflictId deviceId c Hget.
  unfold getConflict in Hget. unfold resolveConflict.
  destruct (validateApiKeyInternal db apiKey) as [user|]; [|discriminate].
  destruct (find _ (syncConflicts db)) as [c0|]; [|discriminate].
  destruct (negb (Nat.eqb (c_userId c0) (u_id user))); [discriminate|].
  split; [reflexivity|]. split; [reflexivity|].
  intros content Hcontent. simpl finalContentOf.
  destruct content as [|ch rest]; [now elim Hcontent|].
  eexists. reflexivity.
Qed.

(** X26. No handler but the change feed serves a revoked key: when the
    first key record with the hash of the credential carries a revocation
    time, [pushSync], [pullSync], [deleteFile], [clearAllFiles],
    [getConflicts], [getConflict] and [resolveConflict] throw the
    authentication error, and [subscribeToChanges] returns the empty
    snapshot. *)
Theorem revoked_key_is_refused_everywhere :
  forall (db : DB) (apiKey : string) (k : ApiKeyRecord) (revokedAt : Z),
    find (fun k => String.eqb (k_keyHash k) (hashApiKey apiKey)) (apiKeys db)
    = Some k ->
    k_revokedAt k = Some revokedAt ->
    revokedAt <> 0 ->
    (forall now limiter d files,
       pushSync db now limiter apiKey d files = Threw InvalidApiKey)
    /\ (forall d since, pullSync db apiKey d since = Threw InvalidApiKey)
    /\ (forall fileId, deleteFile db apiKey fileId = Error "Invalid API key")
    /\ clearAllFiles db apiKey = Threw InvalidApiKey
    /\ getConflicts db apiKey = Threw InvalidApiKey
    /\ (forall id, getConflict db apiKey id = Threw InvalidApiKey)
    /\ (forall now id resolution manualContent d,
          resolveConflict db now apiKey id resolution manualContent d
          = Threw InvalidApiKey)
    /\ (forall d, subscribeToChanges db apiKey d = Returned ([], [])).
Proof.
  intros db apiKey k revokedAt Hfind Hrevoked Hnonzero.
  assert (Hv : validateApiKeyInternal db apiKey = None).
  { unfold validateApiKeyInternal, revoked. rewrite Hfind, Hrevoked.
    apply Z.eqb_neq in Hnonzero. now rewrite Hnonzero. }
  unfold pushSync, pullSync, deleteFile, clearAllFiles, getConflicts,
    getConflict, resolveConflict, subscribeToChanges.
  rewrite Hv. now repeat split.
Qed.

End ResolverEdges.

(** ** The engine's reading of a push *)

Section EngineProperties.
Context {P : Platform}.

Lemma statuses_partition (results : list PushResult) :
  (Engine.uploaded results + List.length (Engine.conflicts results)
   + Engine.errors results)%nat
  = List.length results.
Proof.
  unfold Engine.uploaded, Engine.conflicts, Engine.errors, Engine.hasStatus.
  induction results as [|r results IH]; simpl; [reflexivity|].
  destruct (r_status r); simpl; lia.
Qed.

Lemma notified_are_the_conflicts (results : list PushResult) :
  Forall (fun r => r_status r = conflict <-> r_conflictId r <> None) results ->
  Engine.notifiedConflicts results = flat_map conflictOf results
  /\ List.length (Engine.notifiedConflicts results)
     = List.length (Engine.conflicts results).
Proof.
  unfold Engine.notifiedConflicts, Engine.conflicts, Engine.hasStatus.
  induction 1 as [|r results Hr _ [IH1 IH2]]; simpl; [now split|].
  unfold conflictOf at 1.
  destruct (r_status r) eqn:Es; simpl.
  - destruct (r_conflictId r) as [id|] eqn:Ei; [|now split].
    assert (H : success = conflict) by (apply Hr; discriminate).
    discriminate.
  - destruct (r_conflictId r) as [id|] eqn:Ei.
    + simpl. split; [now rewrite IH1 | now rewrite IH2].
    + exfalso. now apply (proj1 Hr).
  - destruct (r_conflictId r) as [id|] eqn:Ei; [|now split].
    assert (H : error = conflict) by (apply Hr; discriminate).
    discriminate.
Qed.

(** X27. What [performSync] reads off a push accounts for every local
    file exactly once: the uploaded, conflicting and failed entries add up
    to the number of files pushed.  Every Conflict record that the push
    created is reported to [onConflict], once and in order, under its path
    and id, and nothing else is. *)
Theorem sync_result_accounts_for_every_file :
  forall (db : DB) (now : Z) (limiter : nat -> LimitVerdict)
         (apiKey deviceId : string) (files : list PushFile) (user : User)
         (final : DB) (results : list PushResult),
    validateApiKeyInternal db apiKey = Some user ->
    pushSync db now limiter apiKey deviceId files = Returned (final, results) ->
    (Engine.uploaded results + List.length (Engine.conflicts results)
     + Engine.errors results)%nat
    = List.length files
    /\ List.length (Engine.notifiedConflicts results)
       = List.length (Engine.conflicts results)
    /\ exists added : list Conflict,
         syncConflicts final = (syncConflicts db ++ added)%list
         /\ Engine.notifiedConflicts results
            = map (fun c => (c_filePath c, c_id c)) added.
Proof.
  intros db now limiter apiKey deviceId files user final results Hvalid Hrun.
  destruct (pushSync_accounts _ _ _ _ _ _ _ _ _ Hvalid Hrun)
    as (_ & Hfinal & Hresults).
  pose proof (pushLoop_report user deviceId now files db) as Hrep.
  pose proof (pushLoop_length user deviceId now db files) as Hlen.
  pose proof (pushLoop_conflicts user deviceId now files db)
    as (_ & added & Hc & Hm & _).
  rewrite <- Hresults in Hrep, Hlen. simpl in Hc, Hm.
  rewrite <- Hresults in Hm.
  destruct (notified_are_the_conflicts results Hrep) as (Hn1 & Hn2).
  split; [rewrite statuses_partition; exact Hlen|].
  split; [exact Hn2|].
  exists added. split; [rewrite Hfinal; exact Hc|].
  now rewrite Hn1, Hm.
Qed.

End EngineProperties.

(** ** [categorizeFile] on session paths *)

Lemma append_empty (s : string) : (s ++ EmptyString)%string = s.
Proof. induction s as [|c s IH]; simpl; [reflexivity | now rewrite IH]. Qed.

Lemma append_shift (cur : string) (c : ascii) (rest : string) :
  ((cur ++ String c EmptyString) ++ rest)%string
  = (cur ++ String c rest)%string.
Proof. induction cur as [|x cur IH]; simpl; [reflexivity | now rewrite IH]. Qed.

Lemma lacks_app (c : ascii) (a b : string) :
  lacks c (a ++ b) = lacks c a && lacks c b.
Proof.
  induction a as [|x a IH]; simpl; [reflexivity|].
  rewrite IH. now rewrite Bool.andb_assoc.
Qed.

(** The first piece of [s.split(sep)] ends at the first separator. *)
Lemma split_acc_segment (sep : ascii) (a b cur : string) :
  lacks sep a = true ->
  split_acc sep (a ++ String sep b) cur
  = (cur ++ a)%string :: split_acc sep b EmptyString.
Proof.
  revert cur. induction a as [|c a IH]; intros cur Hlacks; simpl.
  - now rewrite Ascii.eqb_refl, append_empty.
  - simpl in Hlacks. apply andb_prop in Hlacks as [Hc Ha].
    apply Bool.negb_true_iff in Hc. rewrite Hc, IH by exact Ha.
    now rewrite append_shift.
Qed.

Lemma split_acc_whole (sep : ascii) (a cur : string) :
  lacks sep a = true -> split_acc sep a cur = [(cur ++ a)%string].
Proof.
  revert cur. induction a as [|c a IH]; intros cur Hlacks; simpl.
  - now rewrite append_empty.
  - simpl in Hlacks. apply andb_prop in Hlacks as [Hc Ha].
    apply Bool.negb_true_iff in Hc. rewrite Hc, IH by exact Ha.
    now rewrite append_shift.
Qed.

(** X30. A todo file [todos/<session>-<rest>] that matches no config
    pattern is filed in [sessionFiles] as a todo of the session named
    before the first dash, and a file [session-env/<session>/<rest>] as a
    session-env file of the session named by its directory; the document
    that a push inserts for such a path carries that session and type. *)
Theorem session_files_are_filed_under_their_session :
  forall (session rest : string),
    session <> EmptyString ->
    lacks slash session = true ->
    (forall (user : User) (d : string) (now : Z) (file : PushFile) (id : nat),
       let path := ("todos/" ++ session ++ "-" ++ rest)%string in
       lacks dash session = true ->
       lacks slash rest = true ->
       isConfigPath path = false ->
       categorizeFile path
       = mkCategory sessionFiles (Some session) (Some todo)
       /\ f_session (newDocument user d now (categorizeFile path) file id)
          = Some (session, todo))
    /\ (forall (user : User) (d : string) (now : Z) (file : PushFile)
               (id : nat),
          let path := ("session-env/" ++ session ++ "/" ++ rest)%string in
          isConfigPath path = false ->
          categorizeFile path
          = mkCategory sessionFiles (Some session) (Some session_env)
          /\ f_session (newDocument user d now (categorizeFile path) file id)
             = Some (session, session_env)).
Proof.
  intros session rest Hnonempty Hslash.
  assert (Hor : orElse session "unknown" = session)
    by (destruct session; [now elim Hnonempty | reflexivity]).
  split.
  - intros user d now file id path Hdash Hrest Hconfig.
    assert (Hid : todoSessionId path = session).
    { unfold todoSessionId, split, path.
      change ("todos/" ++ session ++ "-" ++ rest)%string
        with ("todos" ++ String slash (session ++ String dash rest))%string.
      rewrite split_acc_segment by reflexivity.
      rewrite split_acc_whole.
      - simpl nth_error. unfold split.
        rewrite split_acc_segment by exact Hdash. simpl hd. exact Hor.
      - rewrite lacks_app. simpl. now rewrite Hslash, Hrest. }
    assert (Hcat : categorizeFile path
                   = mkCategory sessionFiles (Some session) (Some todo)).
    { unfold categorizeFile. rewrite Hconfig, Hid.
      replace (startsWith path "todos/") with true; [reflexivity|].
      unfold startsWith, path. simpl.
      now destruct (session ++ _)%string. }
    split; [exact Hcat|]. rewrite Hcat. simpl. now rewrite Hor.
  - intros user d now file id path Hconfig.
    assert (Hid : envSessionId path = session).
    { unfold envSessionId, split, path.
      change ("session-env/" ++ session ++ "/" ++ rest)%string
        with ("session-env" ++ String slash (session ++ String slash rest))%string.
      rewrite split_acc_segment by reflexivity.
      rewrite split_acc_segment by exact Hslash.
      simpl nth_error. exact Hor. }
    assert (Hcat : categorizeFile path
                   = mkCategory sessionFiles (Some session)
                       (Some session_env)).
    { unfold categorizeFile. rewrite Hconfig, Hid.
      replace (startsWith path "todos/") with false by reflexivity.
      replace (startsWith path "session-env/") with true; [reflexivity|].
      unfold startsWith, path. simpl.
      now destruct (session ++ _)%string. }
    split; [exact Hcat|]. rewrite Hcat. simpl. now rewrite Hor.
Qed.

(* ================================================================= *)
(** * Worked cases of the further properties *)

(** X1 at the push of two entries by the desktop into [Sample.twoFiles]. *)
Lemma push_answers_every_entry_in_order_witness :
  exists (final : DB) (results : list PushResult),
    pushSync (P := Reference.runtime) Sample.twoFiles 600 Sample.allow
      Sample.aliceKey "desktop" Cases.conflictingPush
    = Returned (final, results)
    /\ Forall2
         (fun file r =>
            r_filePath r = p_filePath file
            /\ (r_status r = error
                <-> storageLimit Cases.alice
                    < storageUsed Cases.alice + byteLength (p_content file))
            /\ (r_status r = conflict <-> r_conflictId r <> None)
            /\ (r_status r = error <-> r_message r <> None))
         Cases.conflictingPush results.
Proof.
  exact (push_answers_every_entry_in_order (P := Reference.runtime)
           Sample.twoFiles 600 Sample.allow Sample.aliceKey "desktop"
           Cases.conflictingPush Cases.alice eq_refl eq_refl).
Defined.

(** X2 at the same push: one record is appended for the one answer
    "conflict". *)
Lemma push_only_appends_conflicts_witness :
  exists added : list Conflict,
    syncConflicts Cases.afterPush
    = (syncConflicts Sample.twoFiles ++ added)%list
    /\ map (fun c => (c_filePath c, c_id c)) added
       = flat_map conflictOf (Cases.pushAnswers 4)
    /\ List.length added
       = List.length (filter (fun r => match r_status r with
                                       | conflict => true
                                       | _ => false
                                       end) (Cases.pushAnswers 4))
    /\ Forall (fun c => c_userId c = u_id Cases.alice
                        /\ c_resolvedAt c = None
                        /\ c_resolution c = None
                        /\ c_deviceBId c = "desktop"
                        /\ c_createdAt c = 600) added.
Proof.
  exact (push_only_appends_conflicts (P := Reference.runtime)
           Sample.twoFiles 600 Sample.allow Sample.aliceKey "desktop"
           Cases.conflictingPush Cases.alice Cases.afterPush
           (Cases.pushAnswers 4) eq_refl eq_refl).
Defined.

(** X3 at the same push: the conflict id 4 of the answer is served by the
    conflict queries. *)
Lemma pushed_conflict_can_be_fetched_witness :
  exists (c : Conflict) (listed : list Conflict),
    getConflict (P := Reference.runtime) Cases.afterPush Sample.aliceKey 4
    = Returned c
    /\ getConflicts (P := Reference.runtime) Cases.afterPush Sample.aliceKey
       = Returned listed
    /\ In c listed
    /\ c_id c = 4%nat
    /\ c_userId c = u_id Cases.alice
    /\ c_filePath c = "CLAUDE.md"
    /\ c_deviceBId c = "desktop"
    /\ c_resolvedAt c = None.
Proof.
  exact (pushed_conflict_can_be_fetched (P := Reference.runtime)
           Sample.twoFiles 600 Sample.allow Sample.aliceKey "desktop"
           Cases.conflictingPush Cases.alice Cases.afterPush
           (Cases.pushAnswers 4)
           (mkPushResult "CLAUDE.md" conflict (Some 4%nat) None) 4
           ltac:(intros c []) eq_refl eq_refl ltac:(now left) eq_refl).
Defined.

(** X4 at two users: the push of the first changes nothing that the
    second observes. *)
Lemma push_leaves_other_users_alone_witness :
  validateApiKeyInternal (P := Reference.runtime) Cases.afterPushTwoUsers
    Cases.bobKey = Some Cases.bob
  /\ (forall d since,
        pullSync (P := Reference.runtime) Cases.afterPushTwoUsers
          Cases.bobKey d since
        = pullSync (P := Reference.runtime) Cases.twoUsers Cases.bobKey d
            since)
  /\ (forall d,
        subscribeToChanges (P := Reference.runtime) Cases.afterPushTwoUsers
          Cases.bobKey d
        = subscribeToChanges (P := Reference.runtime) Cases.twoUsers
            Cases.bobKey d)
  /\ getConflicts (P := Reference.runtime) Cases.afterPushTwoUsers
       Cases.bobKey
     = getConflicts (P := Reference.runtime) Cases.twoUsers Cases.bobKey.
Proof.
  refine (push_leaves_other_users_alone (P := Reference.runtime)
            Cases.twoUsers 600 Sample.allow Sample.aliceKey "desktop"
            Cases.conflictingPush Cases.alice Cases.afterPushTwoUsers
            (Cases.pushAnswers 7) Cases.bobKey Cases.bob
            _ eq_refl eq_refl eq_refl ltac:(discriminate)).
  intros []; simpl.
  - split; [repeat constructor; simpl; intuition discriminate|].
    intros r [<-|[<-|[]]]; simpl; lia.
  - split; [repeat constructor; simpl; intuition discriminate|].
    intros r [<-|[]]; simpl; lia.
Defined.

(** X5 at an empty catalog: the laptop pushes a note, and any other
    device pulls it. *)
Lemma pushed_new_file_reaches_other_devices_witness :
  exists (after final : DB) (results : list PushResult) (id : nat),
    pushFile (mkUser 1 0 100 0) "laptop" 500 Sample.emptyCatalog
      (Sample.noteX "a" "hash-a")
    = (after, succeeded (Sample.noteX "a" "hash-a"))
    /\ getUser after 1
       = option_map (setStorageUsed (0 + byteLength "a"))
           (getUser Sample.emptyCatalog 1)
    /\ syncConflicts after = []
    /\ pushSync (P := Reference.runtime) Sample.emptyCatalog 500 Sample.allow
         Sample.aliceKey "laptop" [Sample.noteX "a" "hash-a"]
       = Returned (final, results)
    /\ nth_error results 0 = Some (succeeded (Sample.noteX "a" "hash-a"))
    /\ forall (d : string) (since : option Z),
         d <> "laptop" ->
         (forall t, since = Some t -> t < 500) ->
         exists files : list PulledFile,
           pullSync (P := Reference.runtime) final Sample.aliceKey d since
           = Returned files
           /\ In (mkPulled id "CLAUDE.md" "a" "hash-a" 10 1 500 "laptop")
                 files.
Proof.
  refine (pushed_new_file_reaches_other_devices (P := Reference.runtime)
            Sample.emptyCatalog 500 Sample.allow Sample.aliceKey "laptop"
            [] [] (Sample.noteX "a" "hash-a") (mkUser 1 0 100 0)
            _ eq_refl eq_refl ltac:(intros []) ltac:(intros [])
            ltac:(vm_compute; discriminate) eq_refl).
  intros []; (split; [constructor | intros r []]).
Defined.

(** X6 at [Sample.twoFiles]: the laptop pushes a new content for its own
    note. *)
Lemma pushed_update_reaches_other_devices_witness :
  exists (after final : DB) (results : list PushResult),
    pushFile Cases.alice "laptop" 600 Sample.twoFiles
      (Sample.noteX "a2" "hash-a2")
    = (after, succeeded (Sample.noteX "a2" "hash-a2"))
    /\ syncConflicts after = []
    /\ users after = [Cases.alice]
    /\ pushSync (P := Reference.runtime) Sample.twoFiles 600 Sample.allow
         Sample.aliceKey "laptop" [Sample.noteX "a2" "hash-a2"]
       = Returned (final, results)
    /\ nth_error results 0 = Some (succeeded (Sample.noteX "a2" "hash-a2"))
    /\ forall (d : string) (since : option Z),
         d <> "laptop" ->
         (forall t, since = Some t -> t < 600) ->
         exists files : list PulledFile,
           pullSync (P := Reference.runtime) final Sample.aliceKey d since
           = Returned files
           /\ In (mkPulled 2 "CLAUDE.md" "a2" "hash-a2" 10 (1 + 1) 600
                    "laptop") files.
Proof.
  refine (pushed_update_reaches_other_devices (P := Reference.runtime)
            Sample.twoFiles 600 Sample.allow Sample.aliceKey "laptop"
            [] [] (Sample.noteX "a2" "hash-a2") Cases.alice
            Sample.noteByLaptop
            _ eq_refl eq_refl ltac:(intros []) ltac:(intros [])
            ltac:(vm_compute; discriminate) eq_refl ltac:(discriminate)
            eq_refl).
  intros []; simpl.
  - split; [repeat constructor; simpl; intuition discriminate|].
    intros r [<-|[]]; simpl; lia.
  - split; [repeat constructor; simpl; intuition discriminate|].
    intros r [<-|[]]; simpl; lia.
Defined.

(** X7 at a limiter that asks to wait 2500 ms: the push reports 3 s. *)
Lemma push_refused_by_rate_limiter_witness :
  exists seconds : Z,
    pushSync (P := Reference.runtime) Sample.twoFiles 600 Cases.deny
      Sample.aliceKey "desktop" Cases.conflictingPush
    = Threw (RateLimitExceeded seconds)
    /\ 1000 * (seconds - 1) < 2500 <= 1000 * seconds.
Proof.
  exact (push_refused_by_rate_limiter (P := Reference.runtime)
           Sample.twoFiles 600 Cases.deny Sample.aliceKey "desktop"
           Cases.conflictingPush Cases.alice eq_refl eq_refl).
Defined.

(** X8 at [Sample.twoFiles], which holds one document per path. *)
Lemma mutations_keep_one_document_per_path_witness :
  (forall now limiter apiKey deviceId files final results,
     pushSync (P := Reference.runtime) Sample.twoFiles now limiter apiKey
       deviceId files = Returned (final, results) ->
     onePerPath final)
  /\ (forall now apiKey conflictId resolution manualContent deviceId
             final content,
        resolveConflict (P := Reference.runtime) Sample.twoFiles now apiKey
          conflictId resolution manualContent deviceId
        = Returned (final, content) ->
        onePerPath final)
  /\ (forall apiKey fileId final,
        deleteFile (P := Reference.runtime) Sample.twoFiles apiKey fileId
        = Ok final ->
        onePerPath final)
  /\ (forall apiKey final deletedCount,
        clearAllFiles (P := Reference.runtime) Sample.twoFiles apiKey
        = Returned (final, deletedCount) ->
        onePerPath final).
Proof.
  refine (mutations_keep_one_document_per_path (P := Reference.runtime)
            Sample.twoFiles _).
  intros [] uid path; unfold documentsAt; simpl;
    destruct (_ && _); simpl; lia.
Defined.

(** X9 at [Sample.twoFiles]: the user deletes the note, document 2 of
    [configFiles]. *)
Lemma deleted_file_is_no_longer_pulled_witness :
  exists file : SyncedFile,
    In file (tableOf Sample.twoFiles configFiles)
    /\ f_id file = 2%nat
    /\ f_userId file = 1%nat
    /\ getUser Cases.afterDelete 1
       = option_map
           (setStorageUsed (Z.max 0 (3 - byteLength (f_content file))))
           (getUser Sample.twoFiles 1)
    /\ syncConflicts Cases.afterDelete = []
    /\ forall (d : string) (since : option Z) (files : list PulledFile),
         pullSync (P := Reference.runtime) Sample.twoFiles Sample.aliceKey d
           since = Returned files ->
         pullSync (P := Reference.runtime) Cases.afterDelete Sample.aliceKey
           d since
         = Returned (filter (fun p => negb (Nat.eqb (pl_id p) 2)) files).
Proof.
  refine (deleted_file_is_no_longer_pulled (P := Reference.runtime)
            Sample.twoFiles Sample.aliceKey (configFiles, 2%nat) Cases.alice
            Cases.afterDelete _ eq_refl eq_refl).
  unfold uniqueIds. simpl. repeat constructor; simpl; intuition discriminate.
Defined.

(** X10 at two users: the first asks to delete the note of the second. *)
Lemma delete_refuses_missing_or_foreign_file_witness :
  deleteFile (P := Reference.runtime) Cases.twoUsers Sample.aliceKey
    (configFiles, 6%nat)
  = Error "File not found or unauthorized".
Proof.
  refine (delete_refuses_missing_or_foreign_file (P := Reference.runtime)
            Cases.twoUsers Sample.aliceKey (configFiles, 6%nat) Cases.alice
            eq_refl _).
  intros file [<-|[<-|[]]]; simpl; intros H; discriminate.
Defined.

(** X11 at two users: the first clears their two files. *)
Lemma clear_removes_exactly_the_callers_files_witness :
  exists final : DB,
    clearAllFiles (P := Reference.runtime) Cases.twoUsers Sample.aliceKey
    = Returned (final, List.length (allFilesOf Cases.twoUsers 1))
    /\ (forall t,
          tableOf final t
          = filter (fun r => negb (Nat.eqb (f_userId r) 1))
                   (tableOf Cases.twoUsers t))
    /\ (forall other, other <> 1%nat ->
          allFilesOf final other = allFilesOf Cases.twoUsers other)
    /\ getUser final 1
       = option_map (setStorageUsed 0) (getUser Cases.twoUsers 1)
    /\ syncConflicts final = []
    /\ (forall d since,
          pullSync (P := Reference.runtime) final Sample.aliceKey d since
          = Returned [])
    /\ (forall d, exists notices,
          subscribeToChanges (P := Reference.runtime) final Sample.aliceKey d
          = Returned ([], notices)).
Proof.
  refine (clear_removes_exactly_the_callers_files (P := Reference.runtime)
            Cases.twoUsers Sample.aliceKey Cases.alice _ eq_refl).
  intros []; simpl.
  - split; [repeat constructor; simpl; intuition discriminate|].
    intros r [<-|[<-|[]]]; simpl; lia.
  - split; [repeat constructor; simpl; intuition discriminate|].
    intros r [<-|[]]; simpl; lia.
Defined.

(** X12 at [Sample.withConflict]: the laptop keeps its own content. *)
Lemma resolved_conflict_leaves_the_queue_witness :
  exists c : Conflict,
    getConflict (P := Reference.runtime) Sample.withConflict Sample.aliceKey 4
    = Returned c
    /\ getConflict (P := Reference.runtime) Cases.afterResolution
         Sample.aliceKey 4
       = Returned (markResolved 950 keep_local c)
    /\ forall listed : list Conflict,
         getConflicts (P := Reference.runtime) Sample.withConflict
           Sample.aliceKey = Returned listed ->
         getConflicts (P := Reference.runtime) Cases.afterResolution
           Sample.aliceKey
         = Returned (filter (fun x => negb (Nat.eqb (c_id x) 4)) listed).
Proof.
  exact (resolved_conflict_leaves_the_queue (P := Reference.runtime)
           Sample.withConflict 950 Sample.aliceKey 4 keep_local None "laptop"
           Cases.alice Cases.afterResolution "a" eq_refl eq_refl).
Defined.

(** X13 at the same resolution: [CLAUDE.md] is a config path. *)
Lemma resolution_is_what_later_pushes_meet_witness :
  (exists row : SyncedFile,
     stored Cases.afterResolution 1 "CLAUDE.md" = Some row
     /\ f_content row = "a"
     /\ f_contentHash row = computeHash (Platform := Reference.runtime) "a"
     /\ f_deviceId row = "laptop"
     /\ f_syncedAt row = 950
     /\ f_version row
        = match stored Sample.withConflict 1 "CLAUDE.md" with
          | Some existingFile => f_version existingFile + 1
          | None => 1
          end)
  /\ forall (later : Z) (limiter : nat -> LimitVerdict) (d : string)
            (lastModified : Z),
       ok (limiter 1%nat) = true ->
       storageUsed Cases.alice + byteLength "a" <= storageLimit Cases.alice ->
       pushSync (P := Reference.runtime) Cases.afterResolution later limiter
         Sample.aliceKey d
         [mkPushFile "CLAUDE.md" "a"
            (computeHash (Platform := Reference.runtime) "a") lastModified]
       = Returned (patchUser Cases.afterResolution 1 (setLastSyncAt later),
                   [mkPushResult "CLAUDE.md" success None None]).
Proof.
  exact (resolution_is_what_later_pushes_meet (P := Reference.runtime)
           Sample.withConflict 950 Sample.aliceKey 4 keep_local None "laptop"
           Cases.alice Cases.afterResolution "a" Sample.pendingConflict
           eq_refl eq_refl eq_refl (or_introl eq_refl)).
Defined.

(** X14 at a conflict over [stats.json]: the laptop keeps the content of
    the desktop. *)
Lemma resolution_outside_the_patterns_is_filed_apart_witness :
  table (categorizeFile "stats.json") = configFiles
  /\ configTable Cases.afterStatsResolution
     = configTable Cases.withStatsConflict
  /\ stored Cases.afterStatsResolution 1 "stats.json"
     = stored Cases.withStatsConflict 1 "stats.json"
  /\ (exists row : SyncedFile,
        byUserAndPath (sessionTable Cases.afterStatsResolution) 1 "stats.json"
        = Some row
        /\ f_content row = "[]"
        /\ f_contentHash row
           = computeHash (Platform := Reference.runtime) "[]")
  /\ forall (existing : SyncedFile) (later : Z) (d : string)
            (lastModified : Z),
       stored Cases.withStatsConflict 1 "stats.json" = Some existing ->
       f_contentHash existing
       <> computeHash (Platform := Reference.runtime) "[]" ->
       f_deviceId existing <> d ->
       storageUsed Cases.alice + byteLength "[]" <= storageLimit Cases.alice ->
       snd (pushFile Cases.alice d later Cases.afterStatsResolution
              (mkPushFile "stats.json" "[]"
                 (computeHash (Platform := Reference.runtime) "[]")
                 lastModified))
       = mkPushResult "stats.json" conflict
           (Some (nextId Cases.afterStatsResolution)) None.
Proof.
  exact (resolution_outside_the_patterns_is_filed_apart
           (P := Reference.runtime)
           Cases.withStatsConflict 950 Sample.aliceKey 3 keep_remote None
           "laptop" Cases.alice Cases.afterStatsResolution "[]"
           Cases.statsConflict eq_refl eq_refl eq_refl eq_refl eq_refl
           eq_refl).
Defined.

(** X15 at [Cases.mixedCatalog]: the feed of the laptop shows the three
    documents of the desktop, newest first, and the one open conflict of
    the user. *)
Lemma change_feed_shows_the_twenty_newest_witness :
  subscribeToChanges (P := Reference.runtime) Cases.mixedCatalog
    Sample.aliceKey "laptop"
  = Returned
      ([mkChanged 3 "todos/s1-agent.json" "hash-t" 20 1 "desktop";
        mkChanged 4 "settings.json" "hash-s" 30 2 "desktop";
        mkChanged 7 "todos/s2-agent.json" "hash-u" 5 1 "desktop"],
       [mkNotice 8 "CLAUDE.md" "laptop" "desktop" 900])
  /\ exists (shown hidden : list SyncedFile) (listed : list Conflict)
            (pulledFiles : list PulledFile),
       subscribeToChanges (P := Reference.runtime) Cases.mixedCatalog
         Sample.aliceKey "laptop"
       = Returned
           (map (fun file => mkChanged (f_id file) (f_filePath file)
                   (f_contentHash file) (f_lastModified file)
                   (f_version file) (f_deviceId file)) shown,
            map (fun c => mkNotice (c_id c) (c_filePath c) (c_deviceAId c)
                   (c_deviceBId c) (c_createdAt c)) listed)
       /\ getConflicts (P := Reference.runtime) Cases.mixedCatalog
            Sample.aliceKey
          = Returned listed
       /\ (forall c, In c listed <->
             In c (syncConflicts Cases.mixedCatalog) /\ c_userId c = 1%nat
             /\ c_resolvedAt c = None)
       /\ pullSync (P := Reference.runtime) Cases.mixedCatalog
            Sample.aliceKey "laptop" None = Returned pulledFiles
       /\ Permutation
            [mkSyncedFile 4 1 "desktop" "settings.json" "{}" "hash-s" 30 2
               650 None;
             mkSyncedFile 3 1 "desktop" "todos/s1-agent.json" "[]" "hash-t"
               20 1 700 (Some ("s1", todo));
             mkSyncedFile 7 1 "desktop" "todos/s2-agent.json" "[0]" "hash-u"
               5 1 600 (Some ("s2", todo))]
            (shown ++ hidden)
       /\ List.length shown = 3%nat
       /\ StronglySorted (descending f_syncedAt) shown
       /\ (forall x y, In x shown -> In y hidden ->
             f_syncedAt y <= f_syncedAt x)
       /\ (forall x, In x shown ->
             In (mkPulled (f_id x) (f_filePath x) (f_content x)
                   (f_contentHash x) (f_lastModified x) (f_version x)
                   (f_syncedAt x) (f_deviceId x)) pulledFiles).
Proof.
  split; [reflexivity|].
  exact (change_feed_shows_the_twenty_newest (P := Reference.runtime)
           Cases.mixedCatalog Sample.aliceKey "laptop" Cases.alice eq_refl).
Defined.

(** X17 at the bytes 00 and ff: the key [ccsk_00ff] is issued to user 1 of
    [Sample.emptyCatalog]. *)
Lemma issued_key_authenticates_witness :
  exists (db' : DB) (id : nat),
    createApiKey (P := Reference.runtime) Sample.emptyCatalog 1
      [Byte.x00; Byte.xff]
    = Ok (db', mkIssued id "ccsk_00ff" "ccsk_00ff")
    /\ u_id (mkUser 1 0 100 0) = 1%nat
    /\ validateApiKeyInternal (P := Reference.runtime) db' "ccsk_00ff"
       = Some (mkUser 1 0 100 0)
    /\ (forall apiKey known,
          validateApiKeyInternal (P := Reference.runtime) Sample.emptyCatalog
            apiKey = Some known ->
          validateApiKeyInternal (P := Reference.runtime) db' apiKey
          = Some known)
    /\ (forall t, tableOf db' t = tableOf Sample.emptyCatalog t)
    /\ syncConflicts db' = syncConflicts Sample.emptyCatalog.
Proof.
  refine (issued_key_authenticates (P := Reference.runtime)
            Sample.emptyCatalog 1 [Byte.x00; Byte.xff] _).
  intros k [<-|[]]. simpl. discriminate.
Defined.

(** X18 at a root with a note, a debug log and a todo. *)
Lemma scan_records_carry_the_hash_of_their_content_witness :
  Forall (fun f => p_contentHash f
                   = computeHash (Platform := Reference.runtime) (p_content f))
         [mkPushFile "CLAUDE.md" "hi" "sha256:hi" 5;
          mkPushFile "todos/t1.json" "[]" "sha256:[]" 7].
Proof.
  exact (scan_records_carry_the_hash_of_their_content
           (P := Reference.runtime) (Some (Cases.smallRoot "x"))
           [mkPushFile "CLAUDE.md" "hi" "sha256:hi" 5;
            mkPushFile "todos/t1.json" "[]" "sha256:[]" 7]
           eq_refl).
Defined.

(** X19 at a root whose [settings.json] cannot be read. *)
Lemma unreadable_file_aborts_the_scan_witness :
  readLocalFiles (P := Reference.runtime) (Some Cases.lockedRoot)
  = Threw FsError.
Proof.
  refine (unreadable_file_aborts_the_scan (P := Reference.runtime) 1
            [("CLAUDE.md", File (Some "hi") 5);
             ("settings.json", File None 6)]
            "settings.json" 6 _ ltac:(right; now left) eq_refl).
  repeat constructor; simpl; intuition discriminate.
Defined.

(** X21 at an engine that synced at 1000000: the debounce fires at
    1009000, the retry at 1030100. *)
Lemma early_request_is_retried_after_the_interval_witness :
  exists e1 e2 : Scheduler.SyncEngine,
    Scheduler.step Cases.changedEarly (Scheduler.DebounceFired 1009000)
    = Some e1
    /\ Scheduler.started e1 = 1%nat
    /\ Scheduler.isSyncing e1 = false
    /\ Scheduler.debounceTimer e1 = None
    /\ Scheduler.retryTimers e1 = ([] ++ [1000000 + 30100])%list
    /\ Scheduler.step e1 (Scheduler.RetryFired (1000000 + 30100)) = Some e2
    /\ Scheduler.started e2 = 2%nat
    /\ Scheduler.isSyncing e2 = true
    /\ List.length (Scheduler.retryTimers e2) = 0%nat.
Proof.
  exact (early_request_is_retried_after_the_interval Cases.changedEarly
           1009000 1009000 eq_refl ltac:(lia) ltac:(simpl; lia) eq_refl).
Defined.

(** X22 at the first debounce of a fresh engine: the sync begins, more
    than 30 s after time 0. *)
Lemma sync_begins_only_when_idle_and_due_witness :
  Scheduler.isSyncing
    (Scheduler.queueChange 1000000 "CLAUDE.md" Scheduler.initial) = false
  /\ Scheduler.isSyncing
       (Scheduler.mkEngine 0 ["CLAUDE.md"] None [] true 1 1) = true
  /\ Scheduler.started (Scheduler.mkEngine 0 ["CLAUDE.md"] None [] true 1 1)
     = 1%nat
  /\ 30000 <= 1005000 - 0.
Proof.
  exact (sync_begins_only_when_idle_and_due
           (Scheduler.queueChange 1000000 "CLAUDE.md" Scheduler.initial)
           (Scheduler.mkEngine 0 ["CLAUDE.md"] None [] true 1 1)
           (Scheduler.DebounceFired 1005000) eq_refl ltac:(discriminate)).
Defined.

(** X25 at [Sample.withConflict]. *)
Lemma manual_resolution_needs_content_witness :
  resolveConflict (P := Reference.runtime) Sample.withConflict 950
    Sample.aliceKey 4 manual None "laptop"
  = Threw ManualContentRequired
  /\ resolveConflict (P := Reference.runtime) Sample.withConflict 950
       Sample.aliceKey 4 manual (Some EmptyString) "laptop"
     = Threw ManualContentRequired
  /\ forall content : string,
       content <> EmptyString ->
       exists final : DB,
         resolveConflict (P := Reference.runtime) Sample.withConflict 950
           Sample.aliceKey 4 manual (Some content) "laptop"
         = Returned (final, content).
Proof.
  exact (manual_resolution_needs_content (P := Reference.runtime)
           Sample.withConflict 950 Sample.aliceKey 4 "laptop"
           Sample.pendingConflict eq_refl).
Defined.

(** X26 at a catalog whose only key was revoked at time 700. *)
Lemma revoked_key_is_refused_everywhere_witness :
  (forall now limiter d files,
     pushSync (P := Reference.runtime) Cases.revokedCatalog now limiter
       Sample.aliceKey d files = Threw InvalidApiKey)
  /\ (forall d since,
        pullSync (P := Reference.runtime) Cases.revokedCatalog Sample.aliceKey
          d since = Threw InvalidApiKey)
  /\ (forall fileId,
        deleteFile (P := Reference.runtime) Cases.revokedCatalog
          Sample.aliceKey fileId = Error "Invalid API key")
  /\ clearAllFiles (P := Reference.runtime) Cases.revokedCatalog
       Sample.aliceKey = Threw InvalidApiKey
  /\ getConflicts (P := Reference.runtime) Cases.revokedCatalog
       Sample.aliceKey = Threw InvalidApiKey
  /\ (forall id,
        getConflict (P := Reference.runtime) Cases.revokedCatalog
          Sample.aliceKey id = Threw InvalidApiKey)
  /\ (forall now id resolution manualContent d,
        resolveConflict (P := Reference.runtime) Cases.revokedCatalog now
          Sample.aliceKey id resolution manualContent d
        = Threw InvalidApiKey)
  /\ (forall d,
        subscribeToChanges (P := Reference.runtime) Cases.revokedCatalog
          Sample.aliceKey d = Returned ([], [])).
Proof.
  exact (revoked_key_is_refused_everywhere (P := Reference.runtime)
           Cases.revokedCatalog Sample.aliceKey
           (mkApiKey "sha256:key-alice" 1 (Some 700)) 700
           eq_refl eq_refl ltac:(discriminate)).
Defined.

(** X27 at the push of two entries by the desktop: one upload, one
    conflict, no error, and the conflict reported with id 4. *)
Lemma sync_result_accounts_for_every_file_witness :
  (Engine.uploaded (Cases.pushAnswers 4)
   + List.length (Engine.conflicts (Cases.pushAnswers 4))
   + Engine.errors (Cases.pushAnswers 4))%nat
  = List.length Cases.conflictingPush
  /\ List.length (Engine.notifiedConflicts (Cases.pushAnswers 4))
     = List.length (Engine.conflicts (Cases.pushAnswers 4))
  /\ exists added : list Conflict,
       syncConflicts Cases.afterPush
       = (syncConflicts Sample.twoFiles ++ added)%list
       /\ Engine.notifiedConflicts (Cases.pushAnswers 4)
          = map (fun c => (c_filePath c, c_id c)) added.
Proof.
  exact (sync_result_accounts_for_every_file (P := Reference.runtime)
           Sample.twoFiles 600 Sample.allow Sample.aliceKey "desktop"
           Cases.conflictingPush Cases.alice Cases.afterPush
           (Cases.pushAnswers 4) eq_refl eq_refl).
Defined.

(** X28 at two roots that differ in the debug log. *)
Lemma excluded_directories_are_never_read_witness :
  readLocalFiles (P := Reference.runtime) (Some (Cases.smallRoot "one"))
  = readLocalFiles (P := Reference.runtime) (Some (Cases.smallRoot "two")).
Proof.
  exact (excluded_directories_are_never_read (P := Reference.runtime) 1
           [("CLAUDE.md", File (Some "hi") 5)]
           [("todos", Dir 3 [("t1.json", File (Some "[]") 7)])]
           "debug" 2 2
           [("log.json", File (Some "one") 6)]
           [("log.json", File (Some "two") 6)] eq_refl).
Defined.

(** X29 at the run in which a change arrives during a sync. *)
Lemma at_most_one_sync_in_flight_witness :
  (Scheduler.inFlight (Scheduler.mkEngine 0 ["CLAUDE.md"; "settings.json"]
                         None [] true 1 1) <= 1)%nat.
Proof.
  exact (at_most_one_sync_in_flight (firstn 4 Sample.changeDuringSync)
           (Scheduler.mkEngine 0 ["CLAUDE.md"; "settings.json"] None [] true
              1 1) eq_refl).
Defined.

(** X30 at the todo [todos/s1-agent.json] and the file
    [session-env/s1/env.json]. *)
Lemma session_files_are_filed_under_their_session_witness :
  categorizeFile "todos/s1-agent.json"
  = mkCategory sessionFiles (Some "s1") (Some todo)
  /\ categorizeFile "session-env/s1/env.json"
     = mkCategory sessionFiles (Some "s1") (Some session_env).
Proof.
  destruct (session_files_are_filed_under_their_session "s1" "agent.json"
              ltac:(discriminate) eq_refl) as [Htodo _].
  destruct (session_files_are_filed_under_their_session "s1" "env.json"
              ltac:(discriminate) eq_refl) as [_ Henv].
  split.
  - exact (proj1 (Htodo Cases.alice "desktop" 700
                    (mkPushFile "todos/s1-agent.json" "[]" "hash-t" 20) 3%nat
                    eq_refl eq_refl eq_refl)).
  - exact (proj1 (Henv Cases.alice "desktop" 700
                    (mkPushFile "session-env/s1/env.json" "{}" "hash-e" 20)
                    3%nat eq_refl)).
Defined.
